(** * Quiz-chain solver (main.py): a shallow embedding and its properties

    The development follows the layout of [main.py]:
    - [Py]: the Python values the program manipulates (strings as lists of
      code points, bytes, exceptions) and the [str] methods it calls;
    - [Re]: a backtracking matcher for the fragment of [re] that the patterns
      of [main.py] use, with [search], [findall] and [sub];
    - [Codec]: [base64.b64decode] and [bytes.decode("utf-8", errors="ignore")];
    - [Num]: binary64 numbers (primitive floats) with [float(str)], [int(float)]
      and the integer/float normalisation of the heuristics;
    - [Quiz]: the functions of [main.py] themselves;
    - the theorems, one group per function. *)

From Stdlib Require Import String Ascii List NArith ZArith Bool Lia Floats.
Import ListNotations.

Set Implicit Arguments.

(* ================================================================== *)
(** ** Python values *)

Module Py.

(** A [str] is a sequence of Unicode code points. *)
Definition char := N.
Definition str := list char.

(** ASCII literals of the source text. *)
Definition lit (s : string) : str :=
  List.map N_of_ascii (list_ascii_of_string s).

Definition bytes := list N.

(** The exception classes the program meets; all derive from [Exception]. *)
Inductive exn :=
| RuntimeError (msg : str)
| TimeoutError (msg : str)
| ValueError (msg : str)
| BinasciiError (msg : str)
| OverflowError
| IndexError
| AttributeError
| HTTPError (msg : str)
| OtherError (msg : str).

Inductive result (A : Type) :=
| Ok (a : A)
| Raise (e : exn).
Arguments Ok {A} a.
Arguments Raise {A} e.

Definition bind {A B} (m : result A) (k : A -> result B) : result B :=
  match m with Ok a => k a | Raise e => Raise e end.

Declare Scope py_scope.
Delimit Scope py_scope with py.
Notation "x <- m ;; k" := (bind m (fun x => k))
  (at level 61, m at next level, right associativity) : py_scope.

(** [try: body except Exception: handler] *)
Definition try_except {A} (body : result A) (handler : exn -> result A) : result A :=
  match body with Ok a => Ok a | Raise e => handler e end.

Definition str_eqb (a b : str) : bool :=
  if list_eq_dec N.eq_dec a b then true else false.

(** [str.isspace] on one code point: the Unicode whitespace set, which is
    also what [\s] matches and what [str.strip()] removes. *)
Definition is_space (c : char) : bool :=
  ((9 <=? c) && (c <=? 13) || (28 <=? c) && (c <=? 32)
   || (c =? 133) || (c =? 160) || (c =? 5760)
   || (8192 <=? c) && (c <=? 8202)
   || (c =? 8232) || (c =? 8233) || (c =? 8239) || (c =? 8287) || (c =? 12288))%N.

(** ASCII decimal digits and word characters.  CPython's [\d] and [\w] also
    accept the digits and letters of other scripts; the tables below are
    those of the ASCII range. *)
Definition is_digit (c : char) : bool := ((48 <=? c) && (c <=? 57))%N.
Definition is_upper (c : char) : bool := ((65 <=? c) && (c <=? 90))%N.
Definition is_lower (c : char) : bool := ((97 <=? c) && (c <=? 122))%N.
Definition is_word (c : char) : bool :=
  is_digit c || is_upper c || is_lower c || (c =? 95)%N.

(** Simple lower-case mapping of one code point ([_sre.unicode_tolower]).
    The only code points outside ASCII that map into ASCII are U+0130 and
    U+212A; other non-ASCII letters are left as they are. *)
Definition tolower (c : char) : char :=
  if is_upper c then (c + 32)%N
  else if (c =? 304)%N then 105%N
  else if (c =? 8490)%N then 107%N
  else c.

(** [str.lower()]: full lower-casing, where U+0130 becomes two code points. *)
Definition lower (s : str) : str :=
  flat_map (fun c => if (c =? 304)%N then [105; 775]%N else [tolower c]) s.

(** [str.lstrip()], [str.rstrip()], [str.strip()] with no argument. *)
Fixpoint lstrip (s : str) : str :=
  match s with
  | c :: s' => if is_space c then lstrip s' else s
  | [] => []
  end.

Definition rstrip (s : str) : str := rev (lstrip (rev s)).
Definition strip (s : str) : str := rstrip (lstrip s).

Fixpoint startswith (p s : str) : bool :=
  match p, s with
  | [], _ => true
  | a :: p', b :: s' => (a =? b)%N && startswith p' s'
  | _ :: _, [] => false
  end.

Definition endswith (suffix s : str) : bool := startswith (rev suffix) (rev s).

(** [needle in haystack] on strings. *)
Fixpoint contains (needle s : str) : bool :=
  startswith needle s ||
  match s with
  | [] => false
  | _ :: s' => contains needle s'
  end.

(** [s.replace(old, "")] for a one-character [old]. *)
Definition remove_char (old : char) (s : str) : str :=
  filter (fun c => negb (c =? old)%N) s.

(** [str.splitlines()]: the line boundaries of CPython ([\r\n] counts once). *)
Definition is_linebreak (c : char) : bool :=
  ((10 <=? c) && (c <=? 13) || (28 <=? c) && (c <=? 30)
   || (c =? 133) || (c =? 8232) || (c =? 8233))%N.

Fixpoint splitlines_aux (cur : str) (s : str) : list str :=
  match s with
  | [] => match cur with [] => [] | _ => [rev cur] end
  | c :: s' =>
      if is_linebreak c then
        match c, s' with
        | 13%N, 10%N :: s'' => rev cur :: splitlines_aux [] s''
        | _, _ => rev cur :: splitlines_aux [] s'
        end
      else splitlines_aux (c :: cur) s'
  end.

Definition splitlines (s : str) : list str := splitlines_aux [] s.

End Py.

(* ================================================================== *)
(** ** The fragment of [re] used by main.py

    Every quantifier in the patterns of [main.py] ranges over a single
    character ([\s+], [[^`]+], [.*?], [\d+], ...) or is an optional group, so
    the syntax below repeats single-character matchers only.  The matcher
    returns all ways to match in the order in which a backtracking engine
    tries them; the first one is the match [re] reports. *)

Module Re.
Import Py.

Record flags := { ignorecase : bool; dotall : bool }.

Inductive citem :=
| IChr (c : char)
| IRange (lo hi : char)
| ISpace
| IDigit.

(** One-character matchers: a literal, [.], or a (negated) class. *)
Inductive single :=
| SChr (c : char)
| SAny
| SCls (neg : bool) (items : list citem).

Inductive regex :=
| Eps
| One (sg : single)
| Cat (a b : regex)
| Alt (a b : regex)
| Opt (a : regex)                             (* greedy [a?] *)
| Rep (lazy : bool) (min : nat) (sg : single) (* [sg{min,}], greedy or lazy *)
| Grp (n : nat) (a : regex)                   (* capturing group number n *)
| WordB.                                      (* [\b] *)

(** Lower-case code points that share an upper-case form with another
    one ([sre_compile._ignorecase_fixes]), for the ASCII letters. *)
Definition fixes (l : char) : list char :=
  if (l =? 105)%N then [305%N]
  else if (l =? 115)%N then [383%N]
  else if (l =? 305)%N then [105%N]
  else if (l =? 383)%N then [115%N]
  else [].

(** Does pattern character [x] accept [ch]?  Under IGNORECASE the pattern
    character is compiled to its lower case plus its fixes, and the subject
    character is lower-cased before the test. *)
Definition chr_match (ic : bool) (x ch : char) : bool :=
  if ic then
    let l := tolower x in
    let lc := tolower ch in
    (lc =? l)%N || existsb (N.eqb lc) (fixes l)
  else (x =? ch)%N.

Definition range_chars (lo hi : char) : list char :=
  List.map (fun i => (lo + N.of_nat i)%N) (seq 0 (N.to_nat (hi + 1 - lo))).

Definition item_match (ic : bool) (ch : char) (it : citem) : bool :=
  match it with
  | IChr c => chr_match ic c ch
  | IRange lo hi =>
      if ic then existsb (fun x => chr_match true x ch) (range_chars lo hi)
      else ((lo <=? ch) && (ch <=? hi))%N
  | ISpace => is_space (if ic then tolower ch else ch)
  | IDigit => is_digit (if ic then tolower ch else ch)
  end.

Definition single_match (fl : flags) (sg : single) (ch : char) : bool :=
  match sg with
  | SChr c => chr_match (ignorecase fl) c ch
  | SAny => dotall fl || negb (ch =? 10)%N
  | SCls neg items => xorb neg (existsb (item_match (ignorecase fl) ch) items)
  end.

(** The matcher's state: the character before the current position, the
    number of characters consumed so far, what is left of the subject, and
    the groups captured so far (most recent first). *)
Record mst := {
  m_prev : option char;
  m_pos : nat;
  m_rest : str;
  m_caps : list (nat * str)
}.

Definition advance (c : char) (s' : str) (st : mst) : mst :=
  {| m_prev := Some c; m_pos := S (m_pos st); m_rest := s'; m_caps := m_caps st |}.

Definition set_cap (n : nat) (txt : str) (st : mst) : mst :=
  {| m_prev := m_prev st; m_pos := m_pos st; m_rest := m_rest st;
     m_caps := (n, txt) :: m_caps st |}.

Definition word_at (o : option char) : bool :=
  match o with Some c => is_word c | None => false end.

(** [sg{min,}] from [st], whose rest is [s]. *)
Fixpoint rep_run (fl : flags) (lazy : bool) (sg : single) (min : nat)
         (s : str) (st : mst) : list mst :=
  let stop := match min with O => [st] | S _ => [] end in
  match s with
  | c :: s' =>
      if single_match fl sg c then
        let more := rep_run fl lazy sg (pred min) s' (advance c s' st) in
        if lazy then stop ++ more else more ++ stop
      else stop
  | [] => stop
  end.

Fixpoint run (fl : flags) (r : regex) (st : mst) : list mst :=
  match r with
  | Eps => [st]
  | One sg =>
      match m_rest st with
      | c :: s' => if single_match fl sg c then [advance c s' st] else []
      | [] => []
      end
  | Cat a b => flat_map (run fl b) (run fl a st)
  | Alt a b => run fl a st ++ run fl b st
  | Opt a => run fl a st ++ [st]
  | Rep lazy min sg => rep_run fl lazy sg min (m_rest st) st
  | Grp n a =>
      List.map (fun st' => set_cap n (firstn (m_pos st' - m_pos st) (m_rest st)) st')
               (run fl a st)
  | WordB =>
      if xorb (word_at (m_prev st)) (word_at (hd_error (m_rest st)))
      then [st] else []
  end.

(** A match object: where it starts, [group(0)] and the numbered groups. *)
Record pymatch := {
  m_start : nat;
  group0 : str;
  m_groups : list (nat * str)
}.

Fixpoint assoc (n : nat) (l : list (nat * str)) : option str :=
  match l with
  | [] => None
  | (k, v) :: l' => if Nat.eqb k n then Some v else assoc n l'
  end.

(** [m.group(n)] for [n >= 1]; [None] when the group did not take part. *)
Definition group (n : nat) (m : pymatch) : option str := assoc n (m_groups m).

(** The match that starts exactly at the head of [s], if any. *)
Definition match_at (fl : flags) (r : regex) (prev : option char) (i : nat) (s : str)
  : option pymatch :=
  match run fl r {| m_prev := prev; m_pos := 0; m_rest := s; m_caps := [] |} with
  | st :: _ => Some {| m_start := i; group0 := firstn (m_pos st) s; m_groups := m_caps st |}
  | [] => None
  end.

(** [pattern.search(s)]: the leftmost position with a match. *)
Fixpoint search_from (fl : flags) (r : regex) (prev : option char) (i : nat) (s : str)
  : option pymatch :=
  match match_at fl r prev i s with
  | Some m => Some m
  | None =>
      match s with
      | [] => None
      | c :: s' => search_from fl r (Some c) (S i) s'
      end
  end.

Definition search (fl : flags) (r : regex) (s : str) : option pymatch :=
  search_from fl r None 0 s.

(** The left-to-right scan behind [finditer], [findall] and [sub]: the subject
    cut into unmatched characters and non-overlapping matches.  [skip] counts
    the characters still covered by the match found last.  No pattern of
    [main.py] matches the empty string, so a match always covers at least
    one character (lemma [run_min_len] below). *)
Inductive token :=
| TChar (c : char)
| TMatch (m : pymatch).

Fixpoint tokens (fl : flags) (r : regex) (skip : nat) (prev : option char) (i : nat)
         (s : str) : list token :=
  match s with
  | [] => []
  | c :: s' =>
      match skip with
      | S k => tokens fl r k (Some c) (S i) s'
      | O =>
          match match_at fl r prev i s with
          | Some m =>
              match length (group0 m) with
              | S k => TMatch m :: tokens fl r k (Some c) (S i) s'
              | O => TChar c :: tokens fl r 0 (Some c) (S i) s'
              end
          | None => TChar c :: tokens fl r 0 (Some c) (S i) s'
          end
      end
  end.

Definition finditer (fl : flags) (r : regex) (s : str) : list pymatch :=
  flat_map (fun t => match t with TMatch m => [m] | TChar _ => [] end)
           (tokens fl r 0 None 0 s).

(** [re.findall]: group 1 when the pattern has one group, else the whole match. *)
Definition findall0 (fl : flags) (r : regex) (s : str) : list str :=
  List.map group0 (finditer fl r s).

Definition findall1 (fl : flags) (r : regex) (s : str) : list str :=
  List.map (fun m => match group 1 m with Some g => g | None => [] end)
           (finditer fl r s).

(** [pattern.sub(repl, s)] with a function [repl]. *)
Definition sub (fl : flags) (r : regex) (repl : pymatch -> str) (s : str) : str :=
  flat_map (fun t => match t with TMatch m => repl m | TChar c => [c] end)
           (tokens fl r 0 None 0 s).

(** [pattern.sub(repl, s)] when the function [repl] may raise: the matches are
    replaced from left to right and the first exception ends the call. *)
Fixpoint sub_tokens (repl : pymatch -> result str) (ts : list token) : result str :=
  match ts with
  | [] => Ok []
  | TChar c :: ts' => bind (sub_tokens repl ts') (fun out => Ok (c :: out))
  | TMatch m :: ts' =>
      bind (repl m) (fun x => bind (sub_tokens repl ts') (fun out => Ok (x ++ out)))
  end.

Definition sub_with (fl : flags) (r : regex) (repl : pymatch -> result str) (s : str)
  : result str :=
  sub_tokens repl (tokens fl r 0 None 0 s).

(** Pattern-building helpers. *)
Fixpoint word (ic_chars : list char) : regex :=
  match ic_chars with
  | [] => Eps
  | [c] => One (SChr c)
  | c :: cs => Cat (One (SChr c)) (word cs)
  end.

Definition text (s : string) : regex := word (lit s).

Fixpoint seq_of (rs : list regex) : regex :=
  match rs with
  | [] => Eps
  | [r] => r
  | r :: rs' => Cat r (seq_of rs')
  end.

Definition chr (s : string) : char := hd 0%N (lit s).

Definition plain : flags := {| ignorecase := false; dotall := false |}.
Definition I : flags := {| ignorecase := true; dotall := false |}.
Definition S_ : flags := {| ignorecase := false; dotall := true |}.

(** A lower bound on the length of any match. *)
Fixpoint min_len (r : regex) : nat :=
  match r with
  | Eps => 0
  | One _ => 1
  | Cat a b => min_len a + min_len b
  | Alt a b => Nat.min (min_len a) (min_len b)
  | Opt _ => 0
  | Rep _ min _ => min
  | Grp _ a => min_len a
  | WordB => 0
  end.

End Re.


(* ================================================================== *)
(** ** Codecs of the standard library *)

Module Codec.
Import Py.

(** [binascii]'s decoding table: the value of a base-64 digit. *)
Definition b64_value (c : N) : option N :=
  if ((65 <=? c) && (c <=? 90))%N then Some (c - 65)%N
  else if ((97 <=? c) && (c <=? 122))%N then Some (c - 71)%N
  else if ((48 <=? c) && (c <=? 57))%N then Some (c + 4)%N
  else if (c =? 43)%N then Some 62%N
  else if (c =? 47)%N then Some 63%N
  else None.

(** An [unsigned char]. *)
Definition u8 (n : N) : N := (n mod 256)%N.

(** [binascii.a2b_base64(data)] in its default, non-strict mode.  [quad_pos]
    is the position inside the current group of four digits, [leftchar] the
    bits not yet written, [pads] the number of [=] seen since the last digit,
    [out] the bytes written so far, last first.  Characters outside the
    alphabet are skipped; enough padding after two or three digits ends the
    decoding; running out of input inside a group is an error. *)
Fixpoint a2b_base64 (data : bytes) (quad_pos : nat) (leftchar : N) (pads : nat)
         (out : bytes) : result bytes :=
  match data with
  | [] =>
      match quad_pos with
      | 0 => Ok (rev out)
      | 1 => Raise (BinasciiError (lit "Invalid base64-encoded string"))
      | _ => Raise (BinasciiError (lit "Incorrect padding"))
      end
  | this_ch :: rest =>
      if (this_ch =? 61)%N then
        if Nat.leb 2 quad_pos then
          if Nat.leb 4 (quad_pos + S pads) then Ok (rev out)
          else a2b_base64 rest quad_pos leftchar (S pads) out
        else a2b_base64 rest quad_pos leftchar pads out
      else
        match b64_value this_ch with
        | None => a2b_base64 rest quad_pos leftchar pads out
        | Some v =>
            match quad_pos with
            | 0 => a2b_base64 rest 1 v 0 out
            | 1 => a2b_base64 rest 2 (N.land v 15) 0
                     (u8 (N.lor (N.shiftl leftchar 2) (N.shiftr v 4)) :: out)
            | 2 => a2b_base64 rest 3 (N.land v 3) 0
                     (u8 (N.lor (N.shiftl leftchar 4) (N.shiftr v 2)) :: out)
            | _ => a2b_base64 rest 0 0 0
                     (u8 (N.lor (N.shiftl leftchar 6) v) :: out)
            end
        end
  end.

(** [base64.b64decode(s)] for a [str] argument: the string must be ASCII
    ([s.encode('ascii')]), then [a2b_base64] decodes it. *)
Definition b64decode (s : str) : result bytes :=
  if forallb (fun c => (c <? 128)%N) s
  then a2b_base64 s 0 0 0 []
  else Raise (ValueError (lit "string argument should contain only ASCII characters")).

Definition is_cont (b : N) : bool := ((128 <=? b) && (b <? 192))%N.

(** [bytes.decode("utf-8", errors="ignore")]: CPython's decoder, where the
    [ignore] handler drops the bytes of each ill-formed sequence: one byte for
    a bad start byte, the bytes read so far for a bad continuation byte, and
    everything left for a sequence cut short by the end of the data. *)
Fixpoint decode_utf8_ignore (s : bytes) : str :=
  match s with
  | [] => []
  | ch :: s1 =>
      if (ch <? 128)%N then ch :: decode_utf8_ignore s1
      else if (ch <? 224)%N then
        if (ch <? 194)%N then decode_utf8_ignore s1
        else
          match s1 with
          | [] => []
          | ch2 :: s2 =>
              if is_cont ch2
              then (N.shiftl ch 6 + ch2 - 12416)%N :: decode_utf8_ignore s2
              else decode_utf8_ignore s1
          end
      else if (ch <? 240)%N then
        match s1 with
        | [] => []
        | ch2 :: s2 =>
            if negb (is_cont ch2)
               || (if (ch2 <? 160)%N then (ch =? 224)%N else (ch =? 237)%N)
            then decode_utf8_ignore s1
            else
              match s2 with
              | [] => []
              | ch3 :: s3 =>
                  if is_cont ch3
                  then (N.shiftl ch 12 + N.shiftl ch2 6 + ch3 - 925824)%N
                       :: decode_utf8_ignore s3
                  else decode_utf8_ignore s2
              end
        end
      else if (ch <? 245)%N then
        match s1 with
        | [] => []
        | ch2 :: s2 =>
            if negb (is_cont ch2)
               || (if (ch2 <? 144)%N then (ch =? 240)%N else (ch =? 244)%N)
            then decode_utf8_ignore s1
            else
              match s2 with
              | [] => []
              | ch3 :: s3 =>
                  if negb (is_cont ch3) then decode_utf8_ignore s2
                  else
                    match s3 with
                    | [] => []
                    | ch4 :: s4 =>
                        if is_cont ch4
                        then (N.shiftl ch 18 + N.shiftl ch2 12 + N.shiftl ch3 6 + ch4
                              - 63447168)%N :: decode_utf8_ignore s4
                        else decode_utf8_ignore s3
                    end
              end
        end
      else decode_utf8_ignore s1
  end.

End Codec.

(* ================================================================== *)
(** ** Numbers: Python [int] and [float] (IEEE binary64) *)

Module Num.
Import Py.

Definition float := PrimFloat.float.

(** A Python number as the heuristics produce it. *)
Inductive number :=
| NInt (z : Z)
| NFloat (f : float).

(** The float nearest to [n / d] (ties to even), for [n], [d] positive: the
    quotient is taken with at least 55 significant bits, and the remainder
    says on which side of the half-way point the exact value lies. *)
Definition float_of_ratio (neg : bool) (n d : positive) : float :=
  let k := Z.max 0 (Z.log2 (Zpos d) + 56 - Z.log2 (Zpos n)) in
  let '(q, r) := Z.div_eucl (Zpos n * 2 ^ k) (Zpos d) in
  let loc :=
    if (r =? 0)%Z then loc_Exact else loc_Inexact (Z.compare (2 * r) (Zpos d)) in
  SF2Prim (binary_round_aux prec emax neg q (- k) loc).

(** [float(int)] for an integer that a float can hold. *)
Definition float_of_Z (z : Z) : float :=
  SF2Prim (binary_normalize prec emax z 0 false).

(** Value of a string of ASCII decimal digits. *)
Definition digits_value (ds : str) : Z :=
  fold_left (fun acc c => (acc * 10 + (Z.of_N c - 48))%Z) ds 0%Z.

(** [str(n)] for a natural number. *)
Fixpoint uint_str (u : Decimal.uint) : str :=
  match u with
  | Decimal.Nil => []
  | Decimal.D0 u' => 48%N :: uint_str u'
  | Decimal.D1 u' => 49%N :: uint_str u'
  | Decimal.D2 u' => 50%N :: uint_str u'
  | Decimal.D3 u' => 51%N :: uint_str u'
  | Decimal.D4 u' => 52%N :: uint_str u'
  | Decimal.D5 u' => 53%N :: uint_str u'
  | Decimal.D6 u' => 54%N :: uint_str u'
  | Decimal.D7 u' => 55%N :: uint_str u'
  | Decimal.D8 u' => 56%N :: uint_str u'
  | Decimal.D9 u' => 57%N :: uint_str u'
  end.

Definition str_of_nat (n : nat) : str := uint_str (Nat.to_uint n).

(** The default of [sys.int_max_str_digits], which [main.py] leaves as it
    is. *)
Definition int_max_str_digits : nat := 4300.

(** [int(s)] for a string of ASCII decimal digits, as the pattern [\d+]
    delivers it on ASCII text.  CPython (since 3.11) converts at most
    [int_max_str_digits] digits, leading zeros included, and raises
    [ValueError] for a longer string. *)
Definition py_int (ds : str) : result Z :=
  if Nat.ltb int_max_str_digits (length ds) then
    Raise (ValueError
             (lit "Exceeds the limit (4300 digits) for integer string conversion: value has "
              ++ str_of_nat (length ds)
              ++ lit " digits; use sys.set_int_max_str_digits() to increase the limit"))
  else Ok (digits_value ds).

Fixpoint split_at_dot (s : str) : str * option str :=
  match s with
  | [] => ([], None)
  | c :: s' =>
      if (c =? 46)%N then ([], Some s')
      else let '(a, b) := split_at_dot s' in (c :: a, b)
  end.

(** [float(s)] for the strings the number pattern [-?\d+(?:\.\d+)?] delivers:
    an optional minus sign, digits, and optionally a point and more digits.
    The result is the correctly rounded value, as in CPython.  Any other
    string is refused with [ValueError]. *)
Definition py_float (s : str) : result float :=
  let '(neg, body) :=
    match s with
    | 45%N :: s' => (true, s')
    | _ => (false, s)
    end in
  let '(ip, fp) := split_at_dot body in
  let frac := match fp with Some f => f | None => [] end in
  let well_formed :=
    negb (Nat.eqb (length ip) 0) && forallb is_digit ip &&
    match fp with
    | Some f => negb (Nat.eqb (length f) 0) && forallb is_digit f
    | None => true
    end in
  if well_formed then
    match digits_value (ip ++ frac) with
    | Zpos n => Ok (float_of_ratio neg n (Z.to_pos (10 ^ Z.of_nat (length frac))))
    | _ => Ok (if neg then neg_zero else zero)
    end
  else Raise (ValueError (lit "could not convert string to float")).

(** [int(x)] for a float: truncation toward zero; infinities and NaN raise. *)
Definition int_of_float (x : float) : result Z :=
  match Prim2SF x with
  | S754_nan => Raise (ValueError (lit "cannot convert float NaN to integer"))
  | S754_infinity _ => Raise OverflowError
  | S754_zero _ => Ok 0%Z
  | S754_finite s m e =>
      let a := if (0 <=? e)%Z then (Zpos m * 2 ^ e)%Z else (Zpos m / 2 ^ (- e))%Z in
      Ok (if s then (- a)%Z else a)
  end.

(** The binary64 value of the literal [1e-9]. *)
Definition tolerance : float := 0x1.12e0be826d695p-30%float.

(** [int(s) if abs(s - int(s)) < 1e-9 else s] *)
Definition int_if_integral (s : float) : result number :=
  bind (int_of_float s) (fun z =>
    if PrimFloat.ltb (PrimFloat.abs (PrimFloat.sub s (float_of_Z z))) tolerance
    then Ok (NInt z) else Ok (NFloat s)).

(** [sum(vals)] for a list of floats: additions from left to right, starting
    from zero.  (CPython 3.12 and later compensate the rounding error of the
    partial sums; both agree whenever the partial sums are exact.) *)
Definition float_sum (vals : list float) : float :=
  fold_left PrimFloat.add vals zero.

End Num.

(* ================================================================== *)
(** ** main.py *)

Module Quiz.
Import Py Re Codec Num.

(** *** Values exchanged with the outside *)

(** A decoded JSON document, which is also how the dynamically typed values
    of the program ([current_url], [submit_url]) are represented; [JNull] is
    [None]. *)
#[local] Unset Elimination Schemes.
Inductive json :=
| JNull
| JBool (b : bool)
| JInt (z : Z)
| JFloat (f : float)
| JStr (s : str)
| JList (l : list json)
| JDict (items : list (str * json)).
#[local] Set Elimination Schemes.

(** Python truth value. *)
Definition truthy (v : json) : bool :=
  match v with
  | JNull => false
  | JBool b => b
  | JInt z => negb (z =? 0)%Z
  | JFloat f => negb (PrimFloat.eqb f zero)
  | JStr s => negb (Nat.eqb (length s) 0)
  | JList l => negb (Nat.eqb (length l) 0)
  | JDict items => negb (Nat.eqb (length items) 0)
  end.

(** [d.get(key)] on the items of a dict; a missing key gives [None]. *)
Fixpoint dict_get (key : str) (items : list (str * json)) : json :=
  match items with
  | [] => JNull
  | (k, v) :: rest => if str_eqb k key then v else dict_get key rest
  end.

(** What pdfplumber extracts from one page. *)
Definition table := list (list (option str)).
Record page := {
  extract_tables : result (option (list table));
  extract_text : result (option str)
}.

(** A pandas data frame: its columns in order, each with its cells. *)
Inductive cell :=
| CNum (f : float)
| CStr (s : str)
| CMissing.
Definition dataframe := list (str * list cell).

(** An HTTP response of the submission endpoint: its status code, the text
    of the error [raise_for_status] would raise, and what [resp.json()]
    gives. *)
Record response := {
  status_code : Z;
  status_error : str;
  resp_json : result json
}.

(** The JSON body posted with an answer. *)
Record submission := {
  p_email : str;
  p_secret : str;
  p_url : json;
  p_answer : number
}.

(** What the program does to the outside world, in order. *)
Inductive event :=
| EvTime (t : float)
| EvFetch (url : json)
| EvGet (url : str)
| EvPost (url : json) (body : submission) (r : result response).

(** The collaborators: the clock, the browser, the HTTP client and the
    parsing libraries.  [World] is whatever state they evolve. *)
Record collaborators (World : Type) := {
  time_time : World -> float * World;
  fetch_rendered_html : json -> World -> result str * World;
  http_get_bytes : str -> World -> result bytes * World;
  client_post : json -> submission -> World -> result response * World;
  json_loads : str -> result json;
  pdfplumber : option (bytes -> result (list page));
  pd_read_csv : bytes -> result dataframe;
  pd_json_normalize : json -> result dataframe;
  pd_read_excel : bytes -> result dataframe
}.

(** *** Text helpers *)

(** [re.sub(r"\s+", " ", (s or '')).strip()].  The argument may be [None]. *)
Definition WS_RE : regex := Rep false 1 (SCls false [ISpace]).

Definition normalize_ws (s : option str) : str :=
  strip (sub plain WS_RE (fun _ => lit " ")
             (match s with Some x => x | None => [] end)).

(** [BASE64_INNER_HTML_RE = re.compile(r"atob\(`([^`]+)`\)", re.IGNORECASE)] *)
Definition BASE64_INNER_HTML_RE : regex :=
  seq_of [text "atob"; text "(`";
          Grp 1 (Rep false 1 (SCls true [IChr (chr "`")]));
          text "`)"].

(** The replacement function [_rep] of [try_decode_base64_blocks]. *)
Definition _rep (m : pymatch) : result str :=
  let payload := remove_char 10%N (match group 1 m with Some g => g | None => [] end) in
  try_except
    (bind (b64decode payload) (fun b => Ok (decode_utf8_ignore b)))
    (fun _ => Ok (group0 m)).

Definition try_decode_base64_blocks (html : str) : result str :=
  sub_with I BASE64_INNER_HTML_RE _rep html.

Definition ws_plus : regex := Rep false 1 (SCls false [ISpace]).
Definition ws_star : regex := Rep false 0 (SCls false [ISpace]).

(** The class of URL characters, [[^\s'<>]] together with the double quote. *)
Definition url_char : single :=
  SCls true [ISpace; IChr 34%N; IChr 39%N; IChr 60%N; IChr 62%N].

(** [https?://] followed by one or more URL characters (written [URL] below). *)
Definition url_re : list regex :=
  [text "http"; Opt (One (SChr (chr "s"))); text "://"; Rep false 1 url_char].

(** [SUBMIT_URL_RE]: [(?:submit\s+to|POST\s+to)\s+(URL)], IGNORECASE. *)
Definition SUBMIT_URL_RE : regex :=
  seq_of [Alt (seq_of [text "submit"; ws_plus; text "to"])
              (seq_of [text "POST"; ws_plus; text "to"]);
          ws_plus;
          Grp 1 (seq_of url_re)].

Definition extract_submit_url (text : str) : option str :=
  match search I SUBMIT_URL_RE text with
  | Some m => group 1 m
  | None => None
  end.

(** [JSON_BLOCK_RE = re.compile(r"(?s)<pre>\s*({.*?})\s*</pre>")] *)
Definition JSON_BLOCK_RE : regex :=
  seq_of [text "<pre>"; ws_star;
          Grp 1 (seq_of [text "{"; Rep true 0 SAny; text "}"]);
          ws_star; text "</pre>"].

(** [re.sub(r"<[^>]+>", " ", expanded)] *)
Definition TAG_RE : regex :=
  seq_of [text "<"; Rep false 1 (SCls true [IChr (chr ">")]); text ">"].

(** [-?\d+(?:\.\d+)?] *)
Definition digits : regex := Rep false 1 (SCls false [IDigit]).
Definition NUMBER_RE : regex :=
  seq_of [Opt (text "-"); digits; Opt (seq_of [text "."; digits])].

(** The task pattern of the PDF heuristic, IGNORECASE:
    [sum of the Q?([A-Za-z0-9_ -]+)Q?\s+column\s+in\s+the\s+table\s+on\s+page\s+(\d+)]
    where [Q] is a single or a double quote. *)
Definition quote_opt : regex := Opt (One (SCls false [IChr 39%N; IChr 34%N])).
Definition PDF_TASK_RE : regex :=
  seq_of [text "sum of the "; quote_opt;
          Grp 1 (Rep false 1
                   (SCls false [IRange (chr "A") (chr "Z"); IRange (chr "a") (chr "z");
                                IRange (chr "0") (chr "9"); IChr (chr "_");
                                IChr (chr " "); IChr (chr "-")]));
          quote_opt; ws_plus; text "column"; ws_plus; text "in"; ws_plus; text "the";
          ws_plus; text "table"; ws_plus; text "on"; ws_plus; text "page"; ws_plus;
          Grp 2 digits].

(** [(URL\.pdf)], IGNORECASE. *)
Definition PDF_LINK_RE : regex := Grp 1 (seq_of (url_re ++ [text ".pdf"])).

(** [how many rows] and [<tr\b], both IGNORECASE. *)
Definition ROWS_RE : regex := text "how many rows".
Definition TR_RE : regex := seq_of [text "<tr"; WordB].

(** [(URL\.(?:csv|json|xlsx?))], IGNORECASE. *)
Definition DATA_LINK_RE : regex :=
  Grp 1 (seq_of (url_re ++
                 [text ".";
                  Alt (text "csv")
                      (Alt (text "json") (seq_of [text "xls"; Opt (text "x")]))])).

(** *** The PDF column sum *)

Open Scope py_scope.

(** [float(m.group(0))] for the first number in [cell], if there is one. *)
Definition first_number (cell : str) : result (option float) :=
  match search plain NUMBER_RE cell with
  | Some m => x <- py_float (group0 m) ;; Ok (Some x)
  | None => Ok None
  end.

(** The loop over [tbl[1:]]: the numbers of column [idx]. *)
Fixpoint column_values (idx : nat) (rows : list (list (option str))) : result (list float) :=
  match rows with
  | [] => Ok []
  | row :: rest =>
      if Nat.ltb idx (length row) then
        let cell := strip (remove_char 44%N
                      (match nth idx row None with Some c => c | None => [] end)) in
        v <- first_number cell ;;
        vs <- column_values idx rest ;;
        Ok (match v with Some x => x :: vs | None => vs end)
      else column_values idx rest
  end.

(** [headers.index(x)] once [x in headers] holds. *)
Fixpoint index_of (x : str) (l : list str) : nat :=
  match l with
  | [] => 0
  | h :: t => if str_eqb h x then 0 else S (index_of x t)
  end.

(** The loop over the tables of the page: the sum of the first table whose
    header row has the column, or [None] when no table has it. *)
Fixpoint tables_sum (column_name : str) (tables : list table) : result (option number) :=
  match tables with
  | [] => Ok None
  | tbl :: rest =>
      match tbl with
      | [] => Raise IndexError
      | hdr :: data =>
          let headers :=
            List.map (fun h => lower (normalize_ws
                                 (Some (match h with Some x => x | None => [] end)))) hdr in
          if existsb (str_eqb (lower column_name)) headers then
            let idx := index_of (lower column_name) headers in
            vals <- column_values idx data ;;
            n <- int_if_integral (float_sum vals) ;;
            Ok (Some n)
          else tables_sum column_name rest
      end
  end.

(** The fallback over the lines of the page text: [(total, found)]. *)
Fixpoint add_numbers (ns : list str) (acc : float * bool) : result (float * bool) :=
  match ns with
  | [] => Ok acc
  | n :: rest => x <- py_float n ;; add_numbers rest (PrimFloat.add (fst acc) x, true)
  end.

Fixpoint text_sum (column_name : str) (lines : list str) (acc : float * bool)
  : result (float * bool) :=
  match lines with
  | [] => Ok acc
  | line :: rest =>
      if contains (lower column_name) (lower line) then
        acc' <- add_numbers (findall0 plain NUMBER_RE (remove_char 44%N line)) acc ;;
        text_sum column_name rest acc'
      else text_sum column_name rest acc
  end.

Definition sum_value_column_pdf_pdfplumber
           (pdfplumber : option (bytes -> result (list page)))
           (pdf_bytes : bytes) (column_name : str) (page_number_one_based : Z)
  : option number :=
  match pdfplumber with
  | None => None
  | Some pdfplumber_open =>
      let body : result (option number) :=
        pages <- pdfplumber_open pdf_bytes ;;
        let page_idx := (page_number_one_based - 1)%Z in
        if (page_idx <? 0)%Z || (Z.of_nat (length pages) <=? page_idx)%Z then Ok None
        else
          match nth_error pages (Z.to_nat page_idx) with
          | None => Raise IndexError
          | Some pg =>
              tables <- extract_tables pg ;;
              r <- tables_sum column_name
                     (match tables with Some t => t | None => [] end) ;;
              match r with
              | Some n => Ok (Some n)
              | None =>
                  text <- extract_text pg ;;
                  tf <- text_sum column_name
                          (splitlines (match text with Some t => t | None => [] end))
                          (zero, false) ;;
                  if snd tf then n <- int_if_integral (fst tf) ;; Ok (Some n)
                  else Ok None
              end
          end in
      match body with
      | Ok r => r
      | Raise _ => None
      end
  end.

Close Scope py_scope.

(** *** The tabular heuristic *)

(** [pd.to_numeric(column, errors='coerce').fillna(0)] on one cell: a number
    stays, text is parsed as a number, and whatever is not a number (also
    NaN) counts as zero.  The texts read as numbers here are those of the
    form [-?digits(.digits)?]; pandas reads further forms as numbers (an
    exponent, a plus sign, a point without digits on one side, [inf]), on
    which this function is not to be relied on. *)
Definition to_numeric_or_zero (c : cell) : float :=
  match c with
  | CNum f => if PrimFloat.is_nan f then zero else f
  | CStr s => match py_float (strip s) with Ok f => f | Raise _ => zero end
  | CMissing => zero
  end.

(** [cols_lower = {c.lower(): c for c in df.columns}] followed by the lookup
    of ["value"]: the last column whose lower-cased name is [value]. *)
Fixpoint value_column (df : dataframe) : option (list cell) :=
  match df with
  | [] => None
  | (name, cells) :: rest =>
      match value_column rest with
      | Some later => Some later
      | None => if str_eqb (lower name) (lit "value") then Some cells else None
      end
  end.

(** The flattened text of a page:
    [normalize_ws(re.sub(r"<[^>]+>", " ", expanded))]. *)
Definition page_text (expanded : str) : str :=
  normalize_ws (Some (sub plain TAG_RE (fun _ => lit " ") expanded)).

(** *** The chain *)

(** The dict returned on success. *)
Record chain_result := {
  r_steps : nat;
  r_last_url : json;
  r_last_submit_status : option Z
}.

Section Chain.

Variable World : Type.
Variable env : collaborators World.
Variables (email secret : str) (deadline_ts : float).

(** The local variables of [solve_quiz_chain], the state of the outside
    world, and the record of what was done to it. *)
Record state := {
  steps : nat;
  current_url : json;
  last_submit_status : option Z;
  world : World;
  trace : list event
}.

(** Computations that read and change the state and may raise. *)
Definition M (A : Type) : Type := state -> result A * state.

Definition ret {A} (a : A) : M A := fun st => (Ok a, st).
Definition raise {A} (e : exn) : M A := fun st => (Raise e, st).
Definition mbind {A B} (m : M A) (k : A -> M B) : M B :=
  fun st => match m st with
            | (Ok a, st') => k a st'
            | (Raise e, st') => (Raise e, st')
            end.
Definition lift {A} (r : result A) : M A := fun st => (r, st).

Declare Scope chain_scope.
Notation "x <- m ;; k" := (mbind m (fun x => k))
  (at level 61, m at next level, right associativity) : chain_scope.
Notation "m ;; k" := (mbind m (fun _ => k))
  (at level 61, right associativity) : chain_scope.
Open Scope chain_scope.

Definition with_world (w : World) (e : event) (st : state) : state :=
  {| steps := steps st; current_url := current_url st;
     last_submit_status := last_submit_status st;
     world := w; trace := trace st ++ [e] |}.

(** The four ways the program touches the outside. *)
Definition now : M float :=
  fun st => let '(t, w) := time_time env (world st) in
            (Ok t, with_world w (EvTime t) st).

Definition fetch (url : json) : M str :=
  fun st => let '(r, w) := fetch_rendered_html env url (world st) in
            (r, with_world w (EvFetch url) st).

Definition download (url : str) : M bytes :=
  fun st => let '(r, w) := http_get_bytes env url (world st) in
            (r, with_world w (EvGet url) st).

Definition post (url : json) (body : submission) : M response :=
  fun st => let '(r, w) := client_post env url body (world st) in
            (r, with_world w (EvPost url body r) st).

Definition get_current_url : M json := fun st => (Ok (current_url st), st).

Definition set_last_submit_status (c : Z) : M unit :=
  fun st => (Ok tt, {| steps := steps st; current_url := current_url st;
                       last_submit_status := Some c;
                       world := world st; trace := trace st |}).

Definition incr_steps : M unit :=
  fun st => (Ok tt, {| steps := S (steps st); current_url := current_url st;
                       last_submit_status := last_submit_status st;
                       world := world st; trace := trace st |}).

Definition set_current_url (u : json) : M unit :=
  fun st => (Ok tt, {| steps := steps st; current_url := u;
                       last_submit_status := last_submit_status st;
                       world := world st; trace := trace st |}).

(** [find_embedded_json_payload(text)] *)
Definition find_embedded_json_payload (text : str) : option json :=
  match search S_ JSON_BLOCK_RE text with
  | None => None
  | Some m =>
      match json_loads env (match group 1 m with Some g => g | None => [] end) with
      | Ok v => Some v
      | Raise _ => None
      end
  end.

(** Lines 133-138: the submission target, from the text directive or else
    from the [submit] field of the embedded JSON block. *)
Definition resolve_submit_url (text expanded : str) : result json :=
  let submit_url :=
    match extract_submit_url text with Some u => JStr u | None => JNull end in
  bind
    (if negb (truthy submit_url) then
       let payload_hint :=
         match find_embedded_json_payload expanded with
         | Some v => if truthy v then v else JDict []
         | None => JDict []
         end in
       match payload_hint with
       | JDict items => Ok (dict_get (lit "submit") items)
       | _ => Raise AttributeError
       end
     else Ok submit_url)
    (fun submit_url =>
       if negb (truthy submit_url)
       then Raise (RuntimeError (lit "Submit URL not found on the quiz page."))
       else Ok submit_url).

(** Lines 142-157: the PDF column-sum heuristic.  [int(m.group(2))] comes
    before the search for the link, so a page number that [int] refuses ends
    the turn before anything is downloaded. *)
Definition heuristic_pdf (text expanded : str) : M (option number) :=
  match search I PDF_TASK_RE text with
  | None => ret None
  | Some m =>
      let col := strip (match group 1 m with Some g => g | None => [] end) in
      page_no <- lift (py_int (match group 2 m with Some g => g | None => [] end)) ;;
      match findall1 I PDF_LINK_RE expanded with
      | [] => raise (RuntimeError (lit "No PDF link found for the task."))
      | link :: _ =>
          pdf_bytes <- download link ;;
          match sum_value_column_pdf_pdfplumber (pdfplumber env) pdf_bytes col page_no with
          | None => raise (RuntimeError (lit "Failed to compute sum from PDF."))
          | Some s => ret (Some s)
          end
      end
  end.

(** Lines 159-162: the row-count heuristic. *)
Definition heuristic_rows (answer : option number) (text html : str) : option number :=
  match answer, search I ROWS_RE text with
  | None, Some _ => Some (NInt (Z.of_nat (length (findall0 I TR_RE html))))
  | _, _ => answer
  end.

(** Lines 170-176: the downloaded file as a data frame, by its extension. *)
Definition load_dataframe (data_url : str) (data_bytes : bytes) : result dataframe :=
  if endswith (lit ".csv") (lower data_url) then
    pd_read_csv env data_bytes
  else if endswith (lit ".json") (lower data_url) then
    bind (json_loads env (decode_utf8_ignore data_bytes)) (pd_json_normalize env)
  else pd_read_excel env data_bytes.

(** Lines 164-181: the value-column sum of a linked CSV, JSON or Excel file.
    The column is added up from left to right; [Series.sum] adds long
    columns in another order, which gives the same number whenever the
    partial sums are exact. *)
Definition heuristic_tabular (answer : option number) (expanded : str) : M (option number) :=
  match answer with
  | Some _ => ret answer
  | None =>
      match findall1 I DATA_LINK_RE expanded with
      | [] => ret None
      | data_url :: _ =>
          data_bytes <- download data_url ;;
          df <- lift (load_dataframe data_url data_bytes) ;;
          match value_column df with
          | Some cells =>
              n <- lift (int_if_integral
                           (float_sum (List.map to_numeric_or_zero cells))) ;;
              ret (Some n)
          | None => ret None
          end
      end
  end.

(** Lines 186-193: the submission.  Only [httpx.HTTPError] is turned into the
    [RuntimeError]; anything else [resp.json()] raises goes through. *)
Definition raise_for_status (resp : response) : result unit :=
  if ((200 <=? status_code resp) && (status_code resp <=? 299))%Z
  then Ok tt else Raise (HTTPError (status_error resp)).

(** [try: ... except httpx.HTTPError as e: raise RuntimeError(f"Submit failed: {e}")] *)
Definition except_http_error {A} (m : M A) : M A :=
  fun st =>
    match m st with
    | (Raise (HTTPError msg), st') =>
        (Raise (RuntimeError (lit "Submit failed: " ++ msg)), st')
    | other => other
    end.

Definition submit (submit_url : json) (answer : number) : M json :=
  url <- get_current_url ;;
  let payload := {| p_email := email; p_secret := secret; p_url := url;
                    p_answer := answer |} in
  except_http_error
    (resp <- post submit_url payload ;;
     set_last_submit_status (status_code resp) ;;
     lift (raise_for_status resp) ;;
     lift (resp_json resp)).

(** Lines 195-205: what follows a successful submission.  [Some] is the
    returned dict, [None] means [continue]. *)
Definition follow (data : json) : M (option chain_result) :=
  incr_steps ;;
  let next_url := match data with
                  | JDict items => dict_get (lit "url") items
                  | _ => JNull
                  end in
  if truthy next_url
  then set_current_url next_url ;; ret None
  else
    fun st =>
      (Ok (Some {| r_steps := steps st; r_last_url := current_url st;
                   r_last_submit_status := last_submit_status st |}), st).

(** Lines 131-205: what is done with a page once it is fetched and its
    obfuscated parts are revealed. *)
Definition solve_page (html expanded : str) : M (option chain_result) :=
  let text := page_text expanded in
  submit_url <- lift (resolve_submit_url text expanded) ;;
  answer <- heuristic_pdf text expanded ;;
  let answer := heuristic_rows answer text html in
  answer <- heuristic_tabular answer expanded ;;
  match answer with
  | None => raise (RuntimeError (lit "No solver matched. Extend heuristics."))
  | Some a =>
      data <- submit submit_url a ;;
      follow data
  end.

(** One turn of the [while True] loop. *)
Definition iteration : M (option chain_result) :=
  t <- now ;;
  if PrimFloat.leb deadline_ts t
  then raise (TimeoutError (lit "Time budget exceeded."))
  else
    url <- get_current_url ;;
    html <- fetch url ;;
    expanded <- lift (try_decode_base64_blocks html) ;;
    solve_page html expanded.

(** The loop, for at most [fuel] turns. *)
Fixpoint loop (fuel : nat) (st : state) : option (result chain_result * state) :=
  match fuel with
  | O => None
  | S fuel' =>
      match iteration st with
      | (Ok (Some r), st') => Some (Ok r, st')
      | (Ok None, st') => loop fuel' st'
      | (Raise e, st') => Some (Raise e, st')
      end
  end.

Definition initial (first_url : str) (w : World) : state :=
  {| steps := 0; current_url := JStr first_url; last_submit_status := None;
     world := w; trace := [] |}.

Definition solve_quiz_chain (fuel : nat) (first_url : str) (w : World)
  : option (result chain_result * state) :=
  loop fuel (initial first_url w).

End Chain.

(** Lines 229-238 of [quiz_endpoint]: what the caller sees.  This is the
    first definition of [quiz_endpoint] in main.py, the one that calls
    [solve_quiz_chain]; the file ends with a second [app] and a second
    [quiz_endpoint] that only echoes the request and never runs the chain. *)
Inductive endpoint_response :=
| Success (r : chain_result)
| RequestTimeout (detail : str)
| Failure (error : str).

Definition exn_str (e : exn) : str :=
  match e with
  | RuntimeError m | TimeoutError m | ValueError m | BinasciiError m
  | HTTPError m | OtherError m => m
  | OverflowError => lit "cannot convert float infinity to integer"
  | IndexError => lit "list index out of range"
  | AttributeError => lit "object has no attribute 'get'"
  end.

Definition quiz_endpoint (outcome : result chain_result) : endpoint_response :=
  match outcome with
  | Ok r => Success r
  | Raise (TimeoutError m) => RequestTimeout m
  | Raise e => Failure (exn_str e)
  end.

End Quiz.

(* ================================================================== *)
(** ** Scripted collaborators

    A world in which every answer of the outside is written down in advance:
    the clock readings, the pages by URL, the files by URL, the parsed PDFs by
    content and the replies of the submission endpoint.  It is used to run
    the chain on concrete pages. *)

Module Scenario.
Import Py Re Codec Num Quiz.

(** A literal in which [~] stands for the double quote. *)
Definition litq (s : string) : str :=
  List.map (fun c => if (c =? 126)%N then 34%N else c) (lit s).

(** *** A reader for the JSON the scenarios use *)

Definition json_space (c : char) : bool :=
  ((c =? 32) || (c =? 9) || (c =? 10) || (c =? 13))%N.

Fixpoint skip_ws (s : str) : str :=
  match s with
  | c :: s' => if json_space c then skip_ws s' else s
  | [] => []
  end.

(** The characters of a string literal up to its closing quote; a backslash
    keeps the next character. *)
Fixpoint read_string (s : str) (acc : str) : option (str * str) :=
  match s with
  | [] => None
  | 34%N :: rest => Some (rev acc, rest)
  | 92%N :: c :: rest => read_string rest (c :: acc)
  | c :: rest => read_string rest (c :: acc)
  end.

Fixpoint dict_set (k : str) (v : json) (items : list (str * json)) : list (str * json) :=
  match items with
  | [] => [(k, v)]
  | (k', v') :: rest =>
      if str_eqb k' k then (k', v) :: rest else (k', v') :: dict_set k v rest
  end.

Fixpoint run_digits (s : str) : nat :=
  match s with
  | c :: s' => if is_digit c || (c =? 45)%N || (c =? 46)%N then S (run_digits s') else 0
  | [] => 0
  end.

Fixpoint read_value (fuel : nat) (s : str) {struct fuel} : option (json * str) :=
  match fuel with
  | O => None
  | S f =>
      let members :=
        fix members (n : nat) (acc : list (str * json)) (s : str) {struct n}
          : option (json * str) :=
          match n with
          | O => None
          | S n' =>
              match skip_ws s with
              | 34%N :: r =>
                  match read_string r [] with
                  | Some (k, r1) =>
                      match skip_ws r1 with
                      | 58%N :: r2 =>
                          match read_value f r2 with
                          | Some (v, r3) =>
                              match skip_ws r3 with
                              | 44%N :: r4 => members n' (dict_set k v acc) r4
                              | 125%N :: r4 => Some (JDict (dict_set k v acc), r4)
                              | _ => None
                              end
                          | None => None
                          end
                      | _ => None
                      end
                  | None => None
                  end
              | _ => None
              end
          end in
      let elements :=
        fix elements (n : nat) (acc : list json) (s : str) {struct n}
          : option (json * str) :=
          match n with
          | O => None
          | S n' =>
              match read_value f s with
              | Some (v, r) =>
                  match skip_ws r with
                  | 44%N :: r' => elements n' (acc ++ [v]) r'
                  | 93%N :: r' => Some (JList (acc ++ [v]), r')
                  | _ => None
                  end
              | None => None
              end
          end in
      match skip_ws s with
      | 123%N :: r =>
          match skip_ws r with
          | 125%N :: r' => Some (JDict [], r')
          | _ => members f [] r
          end
      | 91%N :: r =>
          match skip_ws r with
          | 93%N :: r' => Some (JList [], r')
          | _ => elements f [] r
          end
      | 34%N :: r =>
          match read_string r [] with
          | Some (x, r') => Some (JStr x, r')
          | None => None
          end
      | 116%N :: 114%N :: 117%N :: 101%N :: r => Some (JBool true, r)
      | 102%N :: 97%N :: 108%N :: 115%N :: 101%N :: r => Some (JBool false, r)
      | 110%N :: 117%N :: 108%N :: 108%N :: r => Some (JNull, r)
      | c :: r =>
          let tok := firstn (run_digits (c :: r)) (c :: r) in
          match tok with
          | [] => None
          | _ :: _ =>
              if forallb (fun x => is_digit x || (x =? 45)%N) tok
              then match tok with
                   | 45%N :: ds => Some (JInt (- digits_value ds), skipn (length tok) (c :: r))
                   | _ => Some (JInt (digits_value tok), skipn (length tok) (c :: r))
                   end
              else match py_float tok with
                   | Ok x => Some (JFloat x, skipn (length tok) (c :: r))
                   | Raise _ => None
                   end
          end
      | [] => None
      end
  end.

Definition read_json (s : str) : result json :=
  match read_value (S (length s)) s with
  | Some (v, rest) =>
      match skip_ws rest with
      | [] => Ok v
      | _ :: _ => Raise (ValueError (lit "Extra data"))
      end
  | None => Raise (ValueError (lit "Expecting value"))
  end.

(** *** A reader for comma-separated text: the first line names the columns

    It stands in for [pd.read_csv] on the files of the scenarios: every cell
    is kept as text, and a column name is taken as it is written (pandas
    renames a name that occurs twice). *)

Fixpoint split_on (sep : char) (s : str) (cur : str) : list str :=
  match s with
  | [] => [rev cur]
  | c :: s' => if (c =? sep)%N then rev cur :: split_on sep s' [] else split_on sep s' (c :: cur)
  end.

Definition cell_of (s : str) : cell :=
  match s with [] => CMissing | _ :: _ => CStr s end.

Definition read_csv (b : bytes) : result dataframe :=
  match List.map (fun l => split_on 44%N l []) (splitlines (decode_utf8_ignore b)) with
  | [] => Raise (ValueError (lit "No columns to parse from file"))
  | names :: rows =>
      Ok (List.map (fun j => (nth j names [],
                              List.map (fun row => cell_of (nth j row [])) rows))
                   (seq 0 (length names)))
  end.

(** *** The scripted world *)

Record script := {
  clock : list float;
  pages : list (str * str);
  files : list (str * bytes);
  pdfs : list (bytes * list page);
  replies : list (result response)
}.

Fixpoint lookup {A} (k : list N) (l : list (list N * A)) : option A :=
  match l with
  | [] => None
  | (k', v) :: rest => if str_eqb k' k then Some v else lookup k rest
  end.

Definition tick (w : script) : float * script :=
  match clock w with
  | [] => (infinity, w)
  | t :: rest =>
      (t, {| clock := rest; pages := pages w; files := files w; pdfs := pdfs w;
             replies := replies w |})
  end.

Definition browse (url : json) (w : script) : result str * script :=
  match url with
  | JStr u =>
      match lookup u (pages w) with
      | Some html => (Ok html, w)
      | None => (Raise (OtherError (lit "net::ERR_NAME_NOT_RESOLVED")), w)
      end
  | _ => (Raise (OtherError (lit "url: expected string")), w)
  end.

Definition get_file (url : str) (w : script) : result bytes * script :=
  match lookup url (files w) with
  | Some b => (Ok b, w)
  | None => (Raise (HTTPError (lit "404 Not Found")), w)
  end.

Definition reply (url : json) (body : submission) (w : script) : result response * script :=
  match replies w with
  | [] => (Raise (HTTPError (lit "connection refused")), w)
  | r :: rest =>
      (r, {| clock := clock w; pages := pages w; files := files w; pdfs := pdfs w;
             replies := rest |})
  end.

Definition open_pdf (library : list (bytes * list page)) (b : bytes) : result (list page) :=
  match lookup b library with
  | Some ps => Ok ps
  | None => Raise (OtherError (lit "No /Root object! - Is this really a PDF?"))
  end.

(** JSON files are flattened by pandas; the scenarios use a list of flat
    records with text or integer fields. *)
Definition cell_of_json (v : json) : cell :=
  match v with
  | JStr s => CStr s
  | JInt z => CNum (float_of_Z z)
  | JFloat f => CNum f
  | _ => CMissing
  end.

Definition normalize_records (v : json) : result dataframe :=
  match v with
  | JList (JDict first :: rest) =>
      Ok (List.map (fun kv =>
                      (fst kv,
                       List.map (fun r => match r with
                                          | JDict items => cell_of_json (dict_get (fst kv) items)
                                          | _ => CMissing
                                          end) (JDict first :: rest)))
                   first)
  | _ => Ok []
  end.

Definition scripted (w0 : script) : collaborators script :=
  {| time_time := tick;
     fetch_rendered_html := browse;
     http_get_bytes := get_file;
     client_post := reply;
     json_loads := read_json;
     pdfplumber := Some (open_pdf (pdfs w0));
     pd_read_csv := read_csv;
     pd_json_normalize := normalize_records;
     pd_read_excel := fun _ => Raise (OtherError (lit "Excel file format cannot be determined")) |}.

(** A successful reply with the given body. *)
Definition ok_reply (body : json) : result response :=
  Ok {| status_code := 200; status_error := []; resp_json := Ok body |}.

(** *** The pages, files and worlds of the scenarios *)

Definition me : str := lit "student@example.org".
Definition secret : str := lit "s3cret".
Definition budget : float := 170%float.
Definition first_url : str := lit "http://q.test/1".

(** A row-count task with three rows. *)
Definition rows_page : str :=
  lit "<html><body><p>How many rows are in the table? POST to http://q.test/submit</p><table><tr><td>1</td></tr><tr><td>2</td></tr><TR><td>3</td></TR></table></body></html>".

Definition world_of (times : list float) (fs : list (str * bytes))
           (docs : list (bytes * list page)) (rs : list (result response)) (html : str)
  : script :=
  {| clock := times;
     pages := [(lit "http://q.test/1", html); (lit "http://q.test/2", html);
               (lit "http://q.test/3", html)];
     files := fs; pdfs := docs; replies := rs |}.

(** Two replies that name the next page, then an empty object. *)
Definition three_steps : script :=
  world_of [0; 1; 2; 3]%float [] []
    [ok_reply (JDict [(lit "url", JStr (lit "http://q.test/2"))]);
     ok_reply (JDict [(lit "url", JStr (lit "http://q.test/3"))]);
     ok_reply (JDict [])]
    rows_page.

(** A reply whose [url] field is [null]. *)
Definition null_url : script :=
  world_of [0; 1]%float [] []
    [ok_reply (JDict [(lit "url", JNull)]); ok_reply (JDict [])] rows_page.

(** The second clock reading is past the budget. *)
Definition late : script :=
  world_of [0; 200]%float [] []
    [ok_reply (JDict [(lit "url", JStr (lit "http://q.test/2"))]);
     ok_reply (JDict [])]
    rows_page.

(** A PDF task on a page that also asks for a row count; the PDF has one page
    only, so page 2 cannot be summed. *)
Definition pdf_rows_page : str :=
  lit "<p>What is the sum of the 'value' column in the table on page 2? How many rows are in the table below? Submit to http://q.test/submit</p><a href=http://q.test/report.pdf>report</a><table><tr><td>1</td></tr><tr><td>2</td></tr></table>".

Definition report_pdf : bytes := lit "%PDF-1.7 report".

Definition one_page_report : list (bytes * list page) :=
  [(report_pdf, [{| extract_tables := Ok (Some []); extract_text := Ok None |}])].

Definition short_pdf : script :=
  world_of [0; 1]%float [(lit "http://q.test/report.pdf", report_pdf)] one_page_report
    [ok_reply (JDict [])] pdf_rows_page.

(** The table of the PDF column-sum example, on page 1. *)
Definition value_table : table :=
  [[Some (lit "item"); Some (lit "value")];
   [Some (lit "a"); Some (lit "10")];
   [Some (lit "b"); Some (lit "2.5")]].

Definition table_report (t : table) : list (bytes * list page) :=
  [(report_pdf, [{| extract_tables := Ok (Some [t]); extract_text := Ok None |}])].

(** A table whose values add up to one. *)
Definition tenths_table : table :=
  [[Some (lit "item"); Some (lit "value")];
   [Some (lit "a"); Some (lit "0.7")];
   [Some (lit "b"); Some (lit "0.1")];
   [Some (lit "c"); Some (lit "0.1")];
   [Some (lit "d"); Some (lit "0.1")]].

(** A table with one value just below three. *)
Definition near_three_table : table :=
  [[Some (lit "item"); Some (lit "value")];
   [Some (lit "a"); Some (lit "2.9999999995")]].

(** A page that links a CSV file. *)
Definition csv_page : str :=
  lit "<p>Add up the numbers in the file. Submit to http://q.test/submit</p><a href=http://q.test/data.csv>data</a>".

Definition value_csv : bytes := lit "Value
5
10
bad
15
".

Definition amount_csv : bytes := lit "Amount,Name
5,a
10,b
".

Definition csv_world (file : bytes) : script :=
  world_of [0; 1]%float [(lit "http://q.test/data.csv", file)] []
    [ok_reply (JDict [])] csv_page.

(** A page without any submission target, and one whose target is in an
    embedded JSON block only. *)
Definition no_target_page : str :=
  lit "<p>How many rows are in the table?</p><table><tr><td>1</td></tr></table>".

Definition json_target_page : str :=
  litq "<p>How many rows are in the table?</p><pre>{~submit~: ~http://q.test/json-submit~}</pre><table><tr><td>1</td></tr></table>".

(** The answers submitted in a record. *)
Definition answers (evs : list event) : list number :=
  flat_map (fun e => match e with EvPost _ body _ => [p_answer body] | _ => [] end) evs.

Definition posts (evs : list event) : nat :=
  length (filter (fun e => match e with EvPost _ _ _ => true | _ => false end) evs).

Definition fetches (evs : list event) : nat :=
  length (filter (fun e => match e with EvFetch _ => true | _ => false end) evs).

End Scenario.

Unset Implicit Arguments.

(* ================================================================== *)
(** ** Reference functions used to state and prove the properties *)

Module Ref.
Import Py Re Codec Num Quiz.

(** Whitespace collapsing written directly: every maximal run of whitespace
    becomes one space.  [in_run] says that the previous character was
    whitespace. *)
Fixpoint collapse (in_run : bool) (s : str) : str :=
  match s with
  | [] => []
  | c :: s' =>
      if is_space c
      then (if in_run then collapse true s' else 32%N :: collapse true s')
      else c :: collapse false s'
  end.

(** The only whitespace is the space character, and never twice in a row. *)
Fixpoint single_spaced (after_space : bool) (s : str) : bool :=
  match s with
  | [] => true
  | c :: s' =>
      if is_space c
      then (c =? 32)%N && negb after_space && single_spaced true s'
      else single_spaced false s'
  end.

(** Length of the leading run of characters accepted by [p]. *)
Fixpoint run_len (p : char -> bool) (s : str) : nat :=
  match s with
  | c :: s' => if p c then S (run_len p s') else 0
  | [] => 0
  end.

(** The state reached by consuming the whole leading run accepted by [sg]. *)
Fixpoint eat (fl : flags) (sg : single) (s : str) (st : mst) : mst :=
  match s with
  | c :: s' => if single_match fl sg c then eat fl sg s' (advance c s' st) else st
  | [] => st
  end.

(** The state after [n] more characters. *)
Fixpoint jump (n : nat) (st : mst) : mst :=
  match n with
  | O => st
  | S k =>
      match m_rest st with
      | c :: s' => jump k (advance c s' st)
      | [] => st
      end
  end.

(** Does [s] start with the pattern word [w]? *)
Fixpoint wmatch (ic : bool) (w s : str) : bool :=
  match w, s with
  | [], _ => true
  | x :: w', c :: s' => chr_match ic x c && wmatch ic w' s'
  | _ :: _, [] => false
  end.

Definition not_backquote (c : char) : bool := negb (c =? 96)%N.

(** An inline call at the head of [s], read off directly: the name [atob] in
    any letter case, an opening parenthesis and backquote, the payload (all
    characters up to the next backquote, at least one), a backquote and a
    closing parenthesis.  The result is the payload. *)
Definition parse_call (s : str) : option str :=
  if wmatch true (lit "atob(`") s then
    let payload := firstn (run_len not_backquote (skipn 6 s)) (skipn 6 s) in
    match payload with
    | [] => None
    | _ :: _ =>
        if wmatch true (lit "`)") (skipn (6 + length payload) s)
        then Some payload else None
    end
  else None.

(** [call] is the text of an inline call [atob(`payload`)]. *)
Definition atob_call (call payload : str) : Prop :=
  exists name,
    List.map tolower name = lit "atob" /\
    call = name ++ lit "(`" ++ payload ++ lit "`)" /\
    payload <> [] /\ ~ In 96%N payload.

(** What a call is replaced with: the UTF-8 text of the decoded payload, or
    the call itself when [b64decode] rejects the payload. *)
Definition replacement (call payload : str) : str :=
  match b64decode (remove_char 10%N payload) with
  | Ok b => decode_utf8_ignore b
  | Raise _ => call
  end.

(** [revealed s out]: [out] is [s] with its inline calls replaced, from left
    to right; a character that starts no call is copied. *)
Inductive revealed : str -> str -> Prop :=
| revealed_nil : revealed [] []
| revealed_char c s out :
    (forall call payload rest, atob_call call payload -> c :: s <> call ++ rest) ->
    revealed s out ->
    revealed (c :: s) (c :: out)
| revealed_call call payload rest out :
    atob_call call payload ->
    revealed rest out ->
    revealed (call ++ rest) (replacement call payload ++ out).

(** "Valid base64" in the sense of RFC 4648: groups of four characters of the
    alphabet, the last group possibly ending in one or two [=]. *)
Fixpoint rfc4648_valid (s : str) : bool :=
  match s with
  | [] => true
  | [a; b; c; d] =>
      match b64_value a, b64_value b with
      | Some _, Some _ =>
          match b64_value c, b64_value d with
          | Some _, Some _ => true
          | Some _, None => (d =? 61)%N
          | None, _ => (c =? 61)%N && (d =? 61)%N
          end
      | _, _ => false
      end
  | a :: b :: c :: d :: rest =>
      match b64_value a, b64_value b, b64_value c, b64_value d with
      | Some _, Some _, Some _, Some _ => rfc4648_valid rest
      | _, _, _, _ => false
      end
  | _ => false
  end.

(** The text a token stands for in the subject. *)
Definition source (t : token) : str :=
  match t with TChar c => [c] | TMatch m => group0 m end.

(** The payload [_rep] hands to [b64decode], and the calls it leaves alone. *)
Definition payload_of (m : pymatch) : str :=
  remove_char 10%N (match group 1 m with Some g => g | None => [] end).

Definition rejected (m : pymatch) : Prop :=
  exists e, b64decode (payload_of m) = Raise e.

(** The class [\s]. *)
Definition ws : single := SCls false [ISpace].

(** What [normalize_ws] writes for a token of its scan. *)
Definition emit (t : token) : str :=
  match t with TMatch _ => lit " " | TChar c => [c] end.

(** The class [[^`]] under IGNORECASE. *)
Definition nbq : single := SCls true [IChr (chr "`")].

(** Shape of the matches of [BASE64_INNER_HTML_RE]. *)
Definition call_match (m : pymatch) : Prop :=
  exists p, m_groups m = [(1, p)] /\ length (group0 m) = 8 + length p.

(** The matches among the tokens of a scan. *)
Definition matches_of (ts : list token) : list pymatch :=
  flat_map (fun t => match t with TMatch m => [m] | TChar _ => [] end) ts.

(** *** Reading the record of a run *)

(** A submission that completed: the endpoint answered with a 2xx status and
    a body that parses as JSON. *)
Definition successful (e : event) : bool :=
  match e with
  | EvPost _ _ (Ok resp) =>
      ((200 <=? status_code resp) && (status_code resp <=? 299))%Z &&
      match resp_json resp with Ok _ => true | Raise _ => false end
  | _ => false
  end.

Definition successes (evs : list event) : nat := length (filter successful evs).

(** Events other than clock readings and page fetches. *)
Definition inner (e : event) : bool :=
  match e with
  | EvTime _ | EvFetch _ => false
  | _ => true
  end.

Definition is_post (e : event) : bool :=
  match e with EvPost _ _ _ => true | _ => false end.

(** The deadline discipline, read off a record: a clock reading at or past
    the deadline is the last thing that happens; a clock reading before the
    deadline is followed at once by a page fetch; and no page is fetched
    without a clock reading just before it. *)
Fixpoint timed (deadline : float) (evs : list event) : bool :=
  match evs with
  | [] => true
  | EvTime t :: rest =>
      if PrimFloat.leb deadline t
      then match rest with [] => true | _ :: _ => false end
      else match rest with
           | EvFetch _ :: rest' => timed deadline rest'
           | _ => false
           end
  | EvFetch _ :: _ => false
  | _ :: rest => timed deadline rest
  end.

(** The record ends with a clock reading at or past the deadline. *)
Definition ends_late (deadline : float) (evs : list event) : bool :=
  match rev evs with
  | EvTime t :: _ => PrimFloat.leb deadline t
  | _ => false
  end.

(** Does the parsed response body ask for another step? *)
Definition next_url_of (data : json) : json :=
  match data with
  | JDict items => dict_get (lit "url") items
  | _ => JNull
  end.

(** A weaker condition, for comparison: the body is an object that merely
    has a [url] field, whatever its value. *)
Fixpoint has_key (key : str) (items : list (str * json)) : bool :=
  match items with
  | [] => false
  | (k, _) :: rest => str_eqb k key || has_key key rest
  end.

Definition has_url_field (data : json) : bool :=
  match data with
  | JDict items => has_key (lit "url") items
  | _ => false
  end.

Definition is_get (e : event) : bool :=
  match e with EvGet _ => true | _ => false end.

(** The heuristics download at most one file and do nothing else. *)
Definition one_get (evs : list event) : Prop :=
  evs = [] \/ exists url, evs = [EvGet url].

(** The longest proper prefix seen by a search decides the character before
    the position it tries next. *)
Definition prev_of (prev : option char) (pre : str) : option char :=
  match rev pre with
  | c :: _ => Some c
  | [] => prev
  end.

(** Every capturing group of [r] encloses a pattern that consumes at least one
    character. *)
Fixpoint groups_nonempty (r : regex) : bool :=
  match r with
  | Grp _ a => Nat.leb 1 (min_len a) && groups_nonempty a
  | Cat a b | Alt a b => groups_nonempty a && groups_nonempty b
  | Opt a => groups_nonempty a
  | _ => true
  end.

Section ChainRef.

Variable World : Type.
Variable env : collaborators World.
Variables (email secret : str) (deadline_ts : float).

(** [adds evs st st']: from [st] to [st'] the events [evs] happened and the
    local variables kept their values. *)
Definition adds (evs : list event) (st st' : state World) : Prop :=
  steps st' = steps st /\ current_url st' = current_url st /\
  last_submit_status st' = last_submit_status st /\
  trace st' = trace st ++ evs.

(** The JSON body of the submission made from [st]. *)
Definition body_of (st : state World) (answer : number) : submission :=
  {| p_email := email; p_secret := secret; p_url := current_url st;
     p_answer := answer |}.

(** The step that starts in [st] reads the clock before the deadline, fetches
    the page [html] and reveals it as [expanded]. *)
Definition reads (st : state World) (t : float) (w1 : World) (html : str) (w2 : World)
           (expanded : str) : Prop :=
  time_time env (world st) = (t, w1) /\
  PrimFloat.leb deadline_ts t = false /\
  fetch_rendered_html env (current_url st) w1 = (Ok html, w2) /\
  try_decode_base64_blocks html = Ok expanded.

(** The state once the page is read. *)
Definition page_state (st : state World) (t : float) (w1 w2 : World) : state World :=
  with_world w2 (EvFetch (current_url st)) (with_world w1 (EvTime t) st).

End ChainRef.

Arguments adds {World} evs st st'.
Arguments body_of {World} email secret st answer.
Arguments reads {World} env deadline_ts st t w1 html w2 expanded.
Arguments page_state {World} st t w1 w2.

End Ref.

(* ================================================================== *)
(** ** Shapes of texts, tables and records *)

Module Shape.
Import Py Re Codec Num Quiz Ref.

(** The string does not start with whitespace; it is [trimmed] when it
    neither starts nor ends with whitespace. *)
Definition no_space_at_head (s : str) : bool :=
  match s with
  | c :: _ => negb (is_space c)
  | [] => true
  end.

Definition trimmed (s : str) : bool :=
  no_space_at_head s && no_space_at_head (rev s).

Definition not_space (c : char) : bool := negb (is_space c).

(** The characters a URL of the patterns may contain: anything but
    whitespace, the two quotes and the angle brackets. *)
Definition url_ok (c : char) : bool :=
  negb (is_space c || (c =? 34) || (c =? 39) || (c =? 60) || (c =? 62))%N.

(** [u] spells the pattern word [w] up to letter case, character by
    character, as IGNORECASE compares them. *)
Definition spells (w u : str) : Prop := Forall2 (fun x c => chr_match true x c = true) w u.

(** The matcher went from [st] to [st'] over the text [u], capturing
    nothing. *)
Definition steps_over (st : mst) (u : str) (st' : mst) : Prop :=
  m_rest st = u ++ m_rest st' /\ m_pos st' = m_pos st + length u /\
  m_caps st' = m_caps st.

(** Digits of the base-64 alphabet, and how many of them a text holds. *)
Definition is_b64 (c : char) : bool :=
  match b64_value c with Some _ => true | None => false end.

Definition count_b64 (s : str) : nat := length (filter is_b64 s).

Definition is_ascii (c : char) : bool := (c <? 128)%N.

(** The header row as [sum_value_column_pdf_pdfplumber] compares it. *)
Definition headers_of (hdr : list (option str)) : list str :=
  List.map (fun h => lower (normalize_ws
                      (Some (match h with Some x => x | None => [] end)))) hdr.

Definition has_column (column_name : str) (tbl : table) : bool :=
  match tbl with
  | [] => false
  | hdr :: _ => existsb (str_eqb (lower column_name)) (headers_of hdr)
  end.

(** A table with a header row that lacks the column. *)
Definition lacks_column (column_name : str) (tbl : table) : bool :=
  match tbl with
  | [] => false
  | hdr :: _ => negb (existsb (str_eqb (lower column_name)) (headers_of hdr))
  end.

(** A cell of column [idx] made of ASCII characters none of which is a digit
    (a short row has no such cell; an empty cell counts as the empty
    text). *)
Definition no_digit_cell (idx : nat) (row : list (option str)) : bool :=
  match nth idx row None with
  | Some c => forallb (fun ch => (ch <? 128)%N && negb (is_digit ch)) c
  | None => true
  end.

(** The name of a data-frame column reads [value] in lower case. *)
Definition is_value_column (col : str * list cell) : bool :=
  str_eqb (lower (fst col)) (lit "value").

(** Everything pdfplumber extracts from the document is ASCII text: the
    cells of every table and the text of every page.  On such text the
    pattern [\d] and [float] read the digits 0-9 only, which is how
    [sum_value_column_pdf_pdfplumber] is written down here. *)
Definition ascii_row (row : list (option str)) : bool :=
  forallb (fun c => match c with Some s => forallb is_ascii s | None => true end) row.

Definition ascii_page (pg : page) : bool :=
  match extract_tables pg with
  | Ok (Some tables) => forallb (forallb ascii_row) tables
  | _ => true
  end &&
  match extract_text pg with
  | Ok (Some text) => forallb is_ascii text
  | _ => true
  end.

Definition ascii_pdf (pdfplumber : option (bytes -> result (list page)))
           (pdf_bytes : bytes) : bool :=
  match pdfplumber with
  | Some pdfplumber_open =>
      match pdfplumber_open pdf_bytes with
      | Ok pages => forallb ascii_page pages
      | Raise _ => true
      end
  | None => true
  end.

(** The column labels of the frame are pairwise different, as [read_csv],
    [json_normalize] and [read_excel] deliver them. *)
Fixpoint distinct_labels (df : dataframe) : bool :=
  match df with
  | [] => true
  | col :: rest =>
      negb (existsb (fun other => str_eqb (fst other) (fst col)) rest) &&
      distinct_labels rest
  end.

Definition is_letter (c : char) : bool :=
  ((65 <=? c) && (c <=? 90) || (97 <=? c) && (c <=? 122))%N.

(** The whole number that a text cell stands for: one to fifteen ASCII
    digits, with or without a minus sign before them, stand for their value;
    a word of ASCII letters (the empty text included) is not a number and
    counts as zero.  The words [nan], [inf] and [infinity], in any letter
    case, are left out: pandas reads them as numbers. *)
Definition whole_of_text (s : str) : option Z :=
  let ds := match s with 45%N :: s' => s' | _ => s end in
  if negb (Nat.eqb (length ds) 0) && Nat.leb (length ds) 15 && forallb is_digit ds then
    Some (match s with 45%N :: _ => - digits_value ds | _ => digits_value ds end)%Z
  else if forallb is_letter s &&
          negb (str_eqb (lower s) (lit "nan") || str_eqb (lower s) (lit "inf") ||
                str_eqb (lower s) (lit "infinity")) then
    Some 0%Z
  else None.

(** The whole number that a cell stands for: a number without a fractional
    part stands for itself, a missing cell and NaN for zero. *)
Definition whole_of_cell (c : cell) : option Z :=
  match c with
  | CNum f =>
      if PrimFloat.is_nan f then Some 0%Z
      else match int_of_float f with
           | Ok z => if PrimFloat.eqb (float_of_Z z) f then Some z else None
           | Raise _ => None
           end
  | CStr s => whole_of_text s
  | CMissing => Some 0%Z
  end.

(** The sum of the absolute values of a column of whole numbers. *)
Fixpoint magnitude (cells : list cell) : option Z :=
  match cells with
  | [] => Some 0%Z
  | c :: rest =>
      match whole_of_cell c, magnitude rest with
      | Some z, Some total => Some (Z.abs z + total)%Z
      | _, _ => None
      end
  end.

(** A column of whole numbers whose absolute values add up to [2^53] at
    most.  Every partial sum of such a column, in whatever order the cells
    are added, is a whole number that binary64 holds exactly, so that
    [Series.sum] of pandas and [float_sum] give the same number. *)
Definition whole_column (cells : list cell) : bool :=
  match magnitude cells with
  | Some total => (total <=? 9007199254740992)%Z
  | None => false
  end.

(** Status codes that [raise_for_status] lets through. *)
Definition is_2xx (code : Z) : bool := ((200 <=? code) && (code <=? 299))%Z.

(** What the [try]/[except] around the submission makes of an exception:
    an [httpx.HTTPError] becomes the [RuntimeError], any other goes through. *)
Definition submit_error (e : exn) : exn :=
  match e with
  | HTTPError msg => RuntimeError (lit "Submit failed: " ++ msg)
  | _ => e
  end.

(** The record of one turn of the loop: a clock reading; then, unless the
    deadline has passed, the fetch of one page, at most one download and at
    most one submission, in this order. *)
Definition turn_record (evs : list event) : Prop :=
  exists t,
    evs = [EvTime t] \/
    exists u gets posts,
      evs = EvTime t :: EvFetch u :: gets ++ posts /\
      one_get gets /\
      (posts = [] \/ exists su body rr, posts = [EvPost su body rr]).

(** The page fetched last once the record [evs] is over. *)
Fixpoint page_after (page : option json) (evs : list event) : option json :=
  match evs with
  | [] => page
  | EvFetch u :: rest => page_after (Some u) rest
  | _ :: rest => page_after page rest
  end.

(** Every submission of a record carries the given credentials, and as [url]
    the address of the page fetched last before it.  [page] is the page
    fetched last before the record starts. *)
Fixpoint posts_report (email secret : str) (page : option json) (evs : list event) : Prop :=
  match evs with
  | [] => True
  | EvFetch u :: rest => posts_report email secret (Some u) rest
  | EvPost _ body _ :: rest =>
      p_email body = email /\ p_secret body = secret /\ page = Some (p_url body) /\
      posts_report email secret page rest
  | _ :: rest => posts_report email secret page rest
  end.

End Shape.

(* ================================================================== *)
(** ** More scenario data *)

Module Cases.
Import Py Re Codec Num Quiz Ref Shape Scenario.

(** A PDF with one page that holds the given tables and text. *)
Definition page_of (tables : list table) (text : option str) : page :=
  {| extract_tables := Ok (Some tables); extract_text := Ok text |}.

Definition cost_table : table :=
  [[Some (lit "item"); Some (lit "cost")];
   [Some (lit "a"); Some (lit "7")]].

Definition words_table : table :=
  [[Some (lit "item"); Some (lit " VALUE ")];
   [Some (lit "a"); Some (lit "n/a")];
   [Some (lit "b"); None];
   [Some (lit "c")]].

Definition three_tables : list table := [cost_table; value_table; tenths_table].

Definition open_one (pg : page) (b : bytes) : result (list page) := Ok [pg].

(** A page that asks for a row count and also links a data file. *)
Definition rows_and_csv_page : str :=
  lit "<p>How many rows are in the table? Submit to http://q.test/submit</p><a href=http://q.test/data.csv>data</a><table><tr><td>1</td></tr><tr><td>2</td></tr></table>".

Definition rows_and_csv : script :=
  world_of [0; 1]%float [(lit "http://q.test/data.csv", value_csv)] []
    [ok_reply (JDict [])] rows_and_csv_page.

(** A PDF task on a page that links no PDF, but asks for a row count and
    links a data file. *)
Definition pdf_no_link_page : str :=
  lit "<p>What is the sum of the 'value' column in the table on page 1? How many rows are in the table? Submit to http://q.test/submit</p><a href=http://q.test/data.csv>data</a><table><tr><td>1</td></tr></table>".

Definition pdf_no_link : script :=
  world_of [0; 1]%float [(lit "http://q.test/data.csv", value_csv)] []
    [ok_reply (JDict [])] pdf_no_link_page.



(** A PDF task whose page number has 4301 digits, on a page that links the
    report. *)
Definition long_page_number : str := repeat 49%N 4301.

Definition pdf_long_number_page : str :=
  lit "<p>What is the sum of the 'value' column in the table on page "
  ++ long_page_number
  ++ lit "? Submit to http://q.test/submit</p><a href=http://q.test/report.pdf>report</a>".

Definition pdf_long_number : script :=
  world_of [0; 1]%float [(lit "http://q.test/report.pdf", report_pdf)]
    (table_report value_table) [ok_reply (JDict [])] pdf_long_number_page.

(** The submission endpoint answers with a server error. *)
Definition server_error : result response :=
  Ok {| status_code := 500;
        status_error := lit "Server error '500 Internal Server Error'";
        resp_json := Raise (ValueError (lit "Expecting value: line 1 column 1 (char 0)")) |}.

Definition refused : script :=
  world_of [0; 1]%float [] [] [server_error; ok_reply (JDict [])] rows_page.

End Cases.

(* ================================================================== *)
(** ** The encoders that the two decoders undo

    [main.py] only decodes.  The page authors' side is written down here to
    state what the decoders are for: [b64encode] is the standard base-64
    encoding with padding ([base64.b64encode]), [utf8_encode] is
    [str.encode("utf-8")] on strings without surrogate code points. *)

Module Enc.
Import Py Codec.

Definition b64_digit (v : N) : N :=
  if (v <? 26)%N then (v + 65)%N
  else if (v <? 52)%N then (v + 71)%N
  else if (v <? 62)%N then (v - 4)%N
  else if (v =? 62)%N then 43%N
  else 47%N.

Fixpoint b64encode (bs : bytes) : str :=
  match bs with
  | [] => []
  | [a] =>
      [b64_digit (a / 4); b64_digit (a mod 4 * 16); 61; 61]%N
  | [a; b] =>
      [b64_digit (a / 4); b64_digit (a mod 4 * 16 + b / 16);
       b64_digit (b mod 16 * 4); 61]%N
  | a :: b :: c :: rest =>
      (b64_digit (a / 4) :: b64_digit (a mod 4 * 16 + b / 16)
       :: b64_digit (b mod 16 * 4 + c / 64) :: b64_digit (c mod 64)
       :: b64encode rest)%N
  end.

Definition is_byte (b : N) : bool := (b <? 256)%N.

(** What [b64encode] writes: digits of the alphabet and the pad sign. *)
Definition enc_char (c : char) : Prop :=
  c = 61%N \/ exists v, (v < 64)%N /\ c = b64_digit v.

(** Unicode scalar values: code points up to U+10FFFF that are not
    surrogates. *)
Definition is_scalar (c : char) : bool :=
  ((c <? 55296) || (57343 <? c) && (c <? 1114112))%N.

Definition utf8_encode_char (c : char) : bytes :=
  if (c <? 128)%N then [c]
  else if (c <? 2048)%N then [192 + c / 64; 128 + c mod 64]%N
  else if (c <? 65536)%N then
    [224 + c / 4096; 128 + (c / 64) mod 64; 128 + c mod 64]%N
  else
    [240 + c / 262144; 128 + (c / 4096) mod 64; 128 + (c / 64) mod 64;
     128 + c mod 64]%N.

Definition utf8_encode (s : str) : bytes := flat_map utf8_encode_char s.

(** [p] holds for every number below [n]. *)
Definition all_below (n : nat) (p : N -> bool) : bool :=
  forallb (fun i => p (N.of_nat i)) (seq 0 n).

End Enc.

(* ================================================================== *)
(** * Properties of the matcher *)

Module ReFacts.
Import Py Re Quiz Ref.

Lemma run_len_ext (p q : char -> bool) s :
  (forall c, p c = q c) -> run_len p s = run_len q s.
Proof.
  intros H; induction s as [|c s IH]; simpl; auto.
  rewrite H, IH. reflexivity.
Qed.

Lemma eat_pos fl sg s st :
  m_pos (eat fl sg s st) = m_pos st + run_len (single_match fl sg) s.
Proof.
  revert st; induction s as [|c s IH]; intros st; simpl.
  - lia.
  - destruct (single_match fl sg c); simpl; [rewrite IH; simpl|]; lia.
Qed.

Lemma eat_caps fl sg s st : m_caps (eat fl sg s st) = m_caps st.
Proof.
  revert st; induction s as [|c s IH]; intros st; simpl; auto.
  destruct (single_match fl sg c); auto. rewrite IH; reflexivity.
Qed.

(** A greedy repetition first proposes the longest run. *)
Lemma rep_greedy_head fl sg min s st :
  hd_error (rep_run fl false sg min s st) =
  if Nat.leb min (run_len (single_match fl sg) s)
  then Some (eat fl sg s st) else None.
Proof.
  revert min st; induction s as [|c s IH]; intros min st; simpl.
  - destruct min; reflexivity.
  - destruct (single_match fl sg c) eqn:E.
    + specialize (IH (pred min) (advance c s st)).
      destruct min as [|min]; simpl in *.
      * destruct (rep_run fl false sg 0 s (advance c s st)); simpl in *; congruence.
      * destruct (Nat.leb min (run_len (single_match fl sg) s));
          destruct (rep_run fl false sg min s (advance c s st)); simpl in *; congruence.
    + destruct min; reflexivity.
Qed.

(** Every match is at least [min_len] long. *)
Lemma rep_run_pos fl lazy sg min s st st' :
  In st' (rep_run fl lazy sg min s st) -> m_pos st + min <= m_pos st'.
Proof.
  revert min st; induction s as [|c s IH]; intros min st; simpl.
  - destruct min; simpl; [intros [<-|[]]; lia | tauto].
  - assert (Hstop : In st' (match min with 0 => [st] | S _ => [] end) ->
                    m_pos st + min <= m_pos st').
    { destruct min; simpl; [intros [<-|[]]; lia | tauto]. }
    destruct (single_match fl sg c); auto.
    assert (Hmore : In st' (rep_run fl lazy sg (pred min) s (advance c s st)) ->
                    m_pos st + min <= m_pos st').
    { intros H; apply IH in H; simpl in H; lia. }
    destruct lazy; intros H; apply in_app_or in H; destruct H as [H|H]; auto.
Qed.

Lemma run_min_len fl r st st' :
  In st' (run fl r st) -> m_pos st + min_len r <= m_pos st'.
Proof.
  revert st st'; induction r; intros st st'; simpl.
  - intros [<-|[]]; lia.
  - destruct (m_rest st) as [|c s']; [intros []|].
    destruct (single_match fl sg c); simpl; [intros [<-|[]]; simpl; lia | intros []].
  - rewrite in_flat_map. intros (mid & H1 & H2).
    apply IHr1 in H1. apply IHr2 in H2. lia.
  - intros H; apply in_app_or in H. destruct H as [H|H];
      [apply IHr1 in H | apply IHr2 in H]; lia.
  - intros H; apply in_app_or in H. destruct H as [H|[<-|[]]]; [apply IHr in H|]; lia.
  - apply rep_run_pos.
  - rewrite in_map_iff. intros (x & <- & H). apply IHr in H. simpl. lia.
  - destruct (xorb _ _); simpl; [intros [<-|[]]; lia | tauto].
Qed.

(** What a match consumes is a prefix of what was left. *)
Lemma rep_run_consumes fl lazy sg st' : forall s min st,
  m_rest st = s ->
  In st' (rep_run fl lazy sg min s st) ->
  (exists u, s = u ++ m_rest st' /\ m_pos st' = m_pos st + length u) /\
  m_caps st' = m_caps st.
Proof.
  induction s as [|c s IH]; intros min st Hst; cbn [rep_run].
  - destruct min; [|intros []]. intros [<-|[]]. split; [exists []|]; simpl; auto.
  - assert (Hstop : In st' (match min with 0 => [st] | S _ => [] end) ->
             (exists u, c :: s = u ++ m_rest st' /\ m_pos st' = m_pos st + length u) /\
             m_caps st' = m_caps st).
    { destruct min; [|intros []]. intros [<-|[]]. split; [exists []|]; simpl; auto. }
    destruct (single_match fl sg c); [|exact Hstop].
    assert (Hmore : In st' (rep_run fl lazy sg (pred min) s (advance c s st)) ->
             (exists u, c :: s = u ++ m_rest st' /\ m_pos st' = m_pos st + length u) /\
             m_caps st' = m_caps st).
    { intros H. apply IH in H; [|reflexivity]. destruct H as [(u & -> & Hp) Hc].
      split; [|exact Hc]. exists (c :: u). simpl in *. split; [reflexivity | lia]. }
    destruct lazy; intros H; apply in_app_or in H; destruct H as [H|H]; auto.
Qed.

Lemma run_consumes fl r : forall st st',
  In st' (run fl r st) ->
  exists u, m_rest st = u ++ m_rest st' /\ m_pos st' = m_pos st + length u.
Proof.
  induction r; intros st st'; cbn [run].
  - intros [<-|[]]. exists []. simpl. auto.
  - destruct (m_rest st) as [|c s'] eqn:E; [intros []|].
    destruct (single_match fl sg c); [|intros []]. intros [<-|[]].
    exists [c]. simpl. split; [reflexivity | lia].
  - rewrite in_flat_map. intros (mid & H1 & H2).
    apply IHr1 in H1 as (u1 & E1 & P1). apply IHr2 in H2 as (u2 & E2 & P2).
    exists (u1 ++ u2). rewrite E1, E2, P2, P1, length_app, app_assoc. split; [reflexivity | lia].
  - intros H. apply in_app_or in H. destruct H as [H|H]; auto.
  - intros H. apply in_app_or in H. destruct H as [H|[<-|[]]]; [auto|].
    exists []. simpl. auto.
  - intros H. apply rep_run_consumes in H; [|reflexivity]. apply H.
  - rewrite in_map_iff. intros (x & <- & H). apply IHr in H as (u & E & P).
    exists u. simpl. auto.
  - destruct (xorb _ _); [|intros []]. intros [<-|[]]. exists []. simpl. auto.
Qed.

(** A group around a pattern that cannot match the empty string captures a
    non-empty text. *)
Lemma run_caps_nonempty fl r :
  groups_nonempty r = true ->
  forall st st',
    In st' (run fl r st) ->
    (forall n g, In (n, g) (m_caps st) -> g <> []) ->
    forall n g, In (n, g) (m_caps st') -> g <> [].
Proof.
  induction r; cbn [groups_nonempty]; intros Hg st st'; cbn [run].
  - intros [<-|[]]. auto.
  - destruct (m_rest st) as [|c s']; [intros []|].
    destruct (single_match fl sg c); [|intros []]. intros [<-|[]]. auto.
  - apply andb_prop in Hg as [G1 G2]. rewrite in_flat_map. intros (mid & H1 & H2) Hc.
    eapply IHr2; eauto.
  - apply andb_prop in Hg as [G1 G2]. intros H. apply in_app_or in H.
    destruct H as [H|H]; eauto.
  - intros H. apply in_app_or in H. destruct H as [H|[<-|[]]]; eauto.
  - intros H Hc. apply rep_run_consumes in H as [_ ->]; [exact Hc | reflexivity].
  - apply andb_prop in Hg as [G1 G2]. rewrite in_map_iff. intros (x & <- & H) Hc k g.
    cbn [set_cap m_caps]. intros [E|Hin].
    + injection E as <- <-.
      pose proof (run_min_len _ _ _ _ H) as Hmin.
      apply run_consumes in H as (u & -> & P). rewrite P.
      replace (m_pos st + length u - m_pos st) with (length u) by lia.
      apply Nat.leb_le in G1.
      destruct u; simpl in *; [lia | discriminate].
    + eapply IHr; eauto.
  - destruct (xorb _ _); [|intros []]. intros [<-|[]]. auto.
Qed.

Lemma assoc_in n g l : assoc n l = Some g -> In (n, g) l.
Proof.
  induction l as [|[k v] l IH]; cbn [assoc]; [discriminate|].
  destruct (Nat.eqb_spec k n).
  - intros [= <-]. subst. left. reflexivity.
  - intros H. right. auto.
Qed.

Lemma match_at_group_nonempty fl r prev i s m n g :
  groups_nonempty r = true ->
  match_at fl r prev i s = Some m -> group n m = Some g -> g <> [].
Proof.
  intros Hg. unfold match_at.
  destruct (run fl r _) as [|st l] eqn:E; [discriminate|].
  intros [= <-]. unfold group. cbn [m_groups]. intros H. apply assoc_in in H.
  eapply (run_caps_nonempty fl r Hg); [rewrite E; left; reflexivity | | exact H].
  intros ? ? [].
Qed.

Lemma prev_of_snoc prev pre c : prev_of prev (pre ++ [c]) = Some c.
Proof. unfold prev_of. rewrite rev_app_distr. reflexivity. Qed.

(** [search] reports the leftmost position at which the pattern matches. *)
Lemma search_from_leftmost fl r : forall s prev i m,
  search_from fl r prev i s = Some m ->
  exists pre rest,
    s = pre ++ rest /\
    match_at fl r (prev_of prev pre) (i + length pre) rest = Some m /\
    forall pre1 rest1,
      s = pre1 ++ rest1 -> length pre1 < length pre ->
      match_at fl r (prev_of prev pre1) (i + length pre1) rest1 = None.
Proof.
  induction s as [|c s IH]; intros prev i m; cbn [search_from].
  - destruct (match_at fl r prev i []) as [m'|] eqn:E; [|discriminate].
    intros [= <-]. exists [], []. cbn. rewrite Nat.add_0_r.
    split; [reflexivity|]. split; [exact E|]. intros; lia.
  - destruct (match_at fl r prev i (c :: s)) as [m'|] eqn:E.
    + intros [= <-]. exists [], (c :: s). cbn. rewrite Nat.add_0_r.
      split; [reflexivity|]. split; [exact E|]. intros; lia.
    + intros H. apply IH in H as (pre & rest & -> & Hm & Hno).
      exists (c :: pre), rest. split; [reflexivity|]. split.
      * replace (prev_of prev (c :: pre)) with (prev_of (Some c) pre).
        -- cbn [length]. rewrite Nat.add_succ_r. exact Hm.
        -- unfold prev_of. cbn [rev]. destruct (rev pre); reflexivity.
      * intros pre1 rest1 Hs Hl. destruct pre1 as [|c1 pre1].
        -- cbn in Hs. subst rest1. cbn. rewrite Nat.add_0_r. exact E.
        -- cbn in Hs. injection Hs as <- Hs. cbn [length] in *.
           replace (prev_of prev (c :: pre1)) with (prev_of (Some c) pre1).
           ++ rewrite Nat.add_succ_r. apply (Hno pre1 rest1 Hs). lia.
           ++ unfold prev_of. cbn [rev]. destruct (rev pre1); reflexivity.
Qed.

End ReFacts.

(* ================================================================== *)
(** * normalize_ws *)

Module NormalizeFacts.
Import Py Re Quiz Ref ReFacts.

Lemma ws_match c : single_match plain ws c = is_space c.
Proof. simpl. rewrite orb_false_r. reflexivity. Qed.

(** [\s+] at the head of [s]: the whole leading whitespace run, if not empty. *)
Lemma match_at_ws prev i s :
  match_at plain WS_RE prev i s =
  match run_len is_space s with
  | O => None
  | S k => Some {| m_start := i; group0 := firstn (S k) s; m_groups := [] |}
  end.
Proof.
  unfold match_at, WS_RE, run. cbn [m_rest].
  set (st := {| m_prev := prev; m_pos := 0; m_rest := s; m_caps := [] |}).
  pose proof (rep_greedy_head plain ws 1 s st) as H.
  rewrite (run_len_ext _ is_space s ws_match) in H.
  fold ws. destruct (rep_run plain false ws 1 s st) as [|st1 l]; simpl in H.
  - destruct (run_len is_space s); simpl in H; [reflexivity | discriminate].
  - destruct (run_len is_space s) as [|k] eqn:E; simpl in H; [discriminate|].
    injection H as ->. rewrite eat_pos, eat_caps.
    rewrite (run_len_ext _ is_space s ws_match), E. reflexivity.
Qed.

Lemma firstn_run_length k s :
  run_len is_space s = S k -> length (firstn (S k) s) = S k.
Proof.
  intros H. rewrite length_firstn. apply Nat.min_l.
  rewrite <- H. clear H. induction s as [|c s IH]; simpl; [lia|].
  destruct (is_space c); lia.
Qed.

(** The scan with [\s+] computes [collapse]. *)
Lemma tokens_ws s : forall prev i,
  flat_map emit (tokens plain WS_RE 0 prev i s) = collapse false s /\
  flat_map emit (tokens plain WS_RE (run_len is_space s) prev i s) = collapse true s.
Proof.
  induction s as [|c s IH]; intros prev i; [split; reflexivity|].
  assert (H0 : flat_map emit (tokens plain WS_RE 0 prev i (c :: s))
               = collapse false (c :: s)).
  { cbn [tokens]. rewrite match_at_ws. cbn [run_len collapse].
    destruct (is_space c) eqn:E.
    - cbn [group0]. rewrite firstn_run_length by (simpl; rewrite E; reflexivity).
      cbn [flat_map emit]. rewrite (proj2 (IH _ _)). reflexivity.
    - cbn [flat_map emit]. rewrite (proj1 (IH _ _)). reflexivity. }
  split; [exact H0|].
  cbn [run_len]. destruct (is_space c) eqn:E.
  - cbn [tokens collapse]. rewrite E. apply IH.
  - rewrite H0. cbn [collapse]. rewrite E. reflexivity.
Qed.

Lemma sub_ws s : sub plain WS_RE (fun _ => lit " ") s = collapse false s.
Proof.
  unfold sub. rewrite <- (proj1 (tokens_ws s None 0)).
  apply flat_map_ext. intros [c|m]; reflexivity.
Qed.

Lemma single_spaced_collapse b s : single_spaced b (collapse b s) = true.
Proof.
  revert b; induction s as [|c s IH]; intros b; simpl; auto.
  destruct (is_space c) eqn:E.
  - destruct b; [apply IH|]. simpl. rewrite IH. reflexivity.
  - simpl. rewrite E. apply IH.
Qed.

Lemma collapse_single_spaced b s : single_spaced b s = true -> collapse b s = s.
Proof.
  revert b; induction s as [|c s IH]; intros b; simpl; auto.
  destruct (is_space c) eqn:E.
  - intros H. apply andb_prop in H as [H H2]. apply andb_prop in H as [H H1].
    apply N.eqb_eq in H. subst c. destruct b; [discriminate|].
    rewrite IH by assumption. reflexivity.
  - intros H. rewrite IH by assumption. reflexivity.
Qed.

Lemma single_spaced_weaken b s : single_spaced b s = true -> single_spaced false s = true.
Proof.
  destruct s as [|c s]; simpl; auto. destruct (is_space c); auto.
  intros H. apply andb_prop in H as [H H2]. apply andb_prop in H as [H H1].
  rewrite H, H2. reflexivity.
Qed.

Lemma single_spaced_tail b c s :
  single_spaced b (c :: s) = true -> single_spaced false s = true.
Proof.
  simpl. destruct (is_space c).
  - intros H. apply andb_prop in H as [_ H]. eapply single_spaced_weaken; eauto.
  - auto.
Qed.

Lemma single_spaced_lstrip s :
  single_spaced false s = true -> single_spaced false (lstrip s) = true.
Proof.
  induction s as [|c s IH]; simpl; auto.
  destruct (is_space c) eqn:E.
  - intros H. apply IH. apply andb_prop in H as [_ H].
    eapply single_spaced_weaken; eauto.
  - intros H. simpl. rewrite E. exact H.
Qed.

Lemma single_spaced_prefix b s u :
  single_spaced b (s ++ u) = true -> single_spaced b s = true.
Proof.
  revert b; induction s as [|c s IH]; intros b; simpl; auto.
  destruct (is_space c).
  - intros H. apply andb_prop in H as [H H2]. rewrite H. simpl. eauto.
  - eauto.
Qed.

(** [rstrip] removes a suffix made of whitespace only. *)
Lemma lstrip_suffix s : exists u, s = u ++ lstrip s /\ forallb is_space u = true.
Proof.
  induction s as [|c s (u & Hu & Hw)]; simpl.
  - exists []; auto.
  - destruct (is_space c) eqn:E.
    + exists (c :: u). simpl. rewrite E, Hw. split; [congruence | reflexivity].
    + exists []. auto.
Qed.

Lemma rstrip_prefix s : exists u, s = rstrip s ++ u /\ forallb is_space u = true.
Proof.
  unfold rstrip. destruct (lstrip_suffix (rev s)) as (u & Hu & Hw).
  exists (rev u). split.
  - rewrite <- rev_app_distr, <- Hu, rev_involutive. reflexivity.
  - rewrite forallb_forall in *. intros x Hx. apply Hw. apply in_rev. exact Hx.
Qed.

Lemma single_spaced_strip s :
  single_spaced false s = true -> single_spaced false (strip s) = true.
Proof.
  intros H. apply single_spaced_lstrip in H. unfold strip.
  destruct (rstrip_prefix (lstrip s)) as (u & Hu & _).
  rewrite Hu in H. eapply single_spaced_prefix; eauto.
Qed.

Lemma lstrip_head_not_space s :
  match lstrip s with c :: _ => is_space c = false | [] => True end.
Proof.
  induction s as [|c s IH]; simpl; auto.
  destruct (is_space c) eqn:E; auto.
Qed.

Lemma lstrip_id s :
  match s with c :: _ => is_space c = false | [] => True end -> lstrip s = s.
Proof. destruct s as [|c s]; simpl; auto. intros ->. reflexivity. Qed.

Lemma lstrip_idem s : lstrip (lstrip s) = lstrip s.
Proof. apply lstrip_id, lstrip_head_not_space. Qed.

Lemma rstrip_idem s : rstrip (rstrip s) = rstrip s.
Proof. unfold rstrip. rewrite rev_involutive, lstrip_idem. reflexivity. Qed.

(** Stripping on the right keeps a non-blank first character. *)
Lemma rstrip_app_keep c :
  is_space c = false -> forall t, rstrip (c :: t) = c :: rstrip t.
Proof.
  intros Hc t. unfold rstrip. simpl.
  induction (rev t) as [|d r IH]; simpl.
  - rewrite Hc. reflexivity.
  - destruct (is_space d); [exact IH|]. simpl. rewrite rev_app_distr. reflexivity.
Qed.

Lemma lstrip_rstrip_lstrip s : lstrip (rstrip (lstrip s)) = rstrip (lstrip s).
Proof.
  pose proof (lstrip_head_not_space s) as H.
  destruct (lstrip s) as [|c t]; [reflexivity|].
  rewrite (rstrip_app_keep c H t). simpl. rewrite H. reflexivity.
Qed.

Lemma strip_idem s : strip (strip s) = strip s.
Proof.
  unfold strip. rewrite lstrip_rstrip_lstrip, rstrip_idem. reflexivity.
Qed.

(** C7. Whitespace normalisation is idempotent: for every string [s],
    [normalize_ws(normalize_ws(s)) == normalize_ws(s)], where [normalize_ws]
    collapses every whitespace run to one space and trims both ends (also
    when the argument is [None], which is read as the empty string). *)
Theorem normalize_ws_idempotent (s : option str) :
  normalize_ws (Some (normalize_ws s)) = normalize_ws s.
Proof.
  unfold normalize_ws. rewrite !sub_ws.
  set (x := match s with Some x => x | None => [] end).
  rewrite collapse_single_spaced.
  - apply strip_idem.
  - apply single_spaced_strip, single_spaced_collapse.
Qed.

End NormalizeFacts.

(* ================================================================== *)
(** * try_decode_base64_blocks *)

Module DecodeFacts.
Import Py Re Codec Quiz Ref ReFacts.

(** Case folding does not touch punctuation. *)
Lemma tolower_fixed x c :
  (x < 97 \/ 122 < x)%N -> (x < 65 \/ 90 < x)%N -> x <> 304%N -> x <> 8490%N ->
  tolower c = x <-> c = x.
Proof.
  intros H1 H2 H3 H4. unfold tolower, is_upper.
  destruct (N.leb_spec 65 c), (N.leb_spec c 90); simpl;
    destruct (N.eqb_spec c 304); destruct (N.eqb_spec c 8490); split; intros; lia.
Qed.

Lemma chr_match_punct x c :
  (x < 97 \/ 122 < x)%N -> (x < 65 \/ 90 < x)%N -> x <> 304%N -> x <> 8490%N ->
  x <> 305%N -> x <> 383%N ->
  chr_match true x c = (c =? x)%N.
Proof.
  intros H1 H2 H3 H4 H5 H6. unfold chr_match.
  assert (Hx : tolower x = x).
  { unfold tolower, is_upper.
    destruct (N.leb_spec 65 x), (N.leb_spec x 90); simpl; try lia;
      destruct (N.eqb_spec x 304); destruct (N.eqb_spec x 8490); lia. }
  rewrite Hx.
  assert (Hf : fixes x = []).
  { unfold fixes. destruct (N.eqb_spec x 105); [lia|].
    destruct (N.eqb_spec x 115); [lia|].
    destruct (N.eqb_spec x 305); [lia|].
    destruct (N.eqb_spec x 383); [lia|]. reflexivity. }
  rewrite Hf. simpl. rewrite orb_false_r.
  destruct (N.eqb_spec (tolower c) x) as [E|E], (N.eqb_spec c x) as [E'|E']; auto.
  - exfalso. apply E'. apply (tolower_fixed x c H1 H2 H3 H4). exact E.
  - exfalso. apply E. apply (tolower_fixed x c H1 H2 H3 H4). exact E'.
Qed.

Lemma chr_match_letter x c :
  (97 <= x <= 122)%N -> x <> 105%N -> x <> 115%N ->
  chr_match true x c = (tolower c =? x)%N.
Proof.
  intros H1 H2 H3. unfold chr_match.
  assert (Hx : tolower x = x).
  { unfold tolower, is_upper.
    destruct (N.leb_spec 65 x), (N.leb_spec x 90); simpl; try lia;
      destruct (N.eqb_spec x 304); destruct (N.eqb_spec x 8490); lia. }
  rewrite Hx.
  assert (Hf : fixes x = []).
  { unfold fixes. destruct (N.eqb_spec x 105); [lia|].
    destruct (N.eqb_spec x 115); [lia|].
    destruct (N.eqb_spec x 305); [lia|].
    destruct (N.eqb_spec x 383); [lia|]. reflexivity. }
  rewrite Hf. simpl. apply orb_false_r.
Qed.

Lemma nbq_match c : single_match I nbq c = not_backquote c.
Proof.
  unfold single_match, nbq, not_backquote. cbn [existsb item_match ignorecase I].
  rewrite orb_false_r. change (chr "`") with 96%N.
  rewrite chr_match_punct by lia. destruct (c =? 96)%N; reflexivity.
Qed.

Lemma jump_S k st c s' :
  m_rest st = c :: s' -> jump (S k) st = jump k (advance c s' st).
Proof. intros H. simpl. rewrite H. reflexivity. Qed.

(** A literal word matches in one way: by its characters in order. *)
Lemma run_word fl w st :
  w <> [] ->
  run fl (word w) st =
  if wmatch (ignorecase fl) w (m_rest st) then [jump (length w) st] else [].
Proof.
  revert st; induction w as [|x w IH]; intros st Hw; [congruence|].
  destruct w as [|y w'].
  - cbn [word run wmatch length]. destruct (m_rest st) as [|c s'] eqn:E; [reflexivity|].
    cbn [single_match]. rewrite andb_true_r.
    destruct (chr_match (ignorecase fl) x c); [|reflexivity].
    simpl. rewrite E. reflexivity.
  - change (word (x :: y :: w')) with (Cat (One (SChr x)) (word (y :: w'))).
    cbn [run]. destruct (m_rest st) as [|c s'] eqn:E; [reflexivity|].
    cbn [single_match wmatch].
    destruct (chr_match (ignorecase fl) x c); [|reflexivity].
    cbn [flat_map andb]. rewrite app_nil_r, IH by discriminate.
    cbn [advance m_rest]. change (length (x :: y :: w')) with (S (length (y :: w'))).
    rewrite (jump_S _ st c s' E). reflexivity.
Qed.

(** After a greedy repetition, a continuation that cannot start with a
    character of the repeated class only ever succeeds after the longest run. *)
Lemma rep_greedy_then (A : Type) fl sg (g : mst -> list A) :
  (forall st' c r, m_rest st' = c :: r -> single_match fl sg c = true -> g st' = []) ->
  forall s min st, m_rest st = s ->
  flat_map g (rep_run fl false sg min s st) =
  if Nat.leb min (run_len (single_match fl sg) s)
  then g (eat fl sg s st) else [].
Proof.
  intros Hg. induction s as [|c s IH]; intros min st Hst.
  - simpl. destruct min; simpl; [apply app_nil_r | reflexivity].
  - cbn [rep_run run_len eat]. destruct (single_match fl sg c) eqn:E.
    + rewrite flat_map_app, IH by reflexivity.
      assert (Hstop : flat_map g (match min with 0 => [st] | S _ => [] end) = []).
      { destruct min; [|reflexivity]. simpl. rewrite (Hg st c s Hst E). reflexivity. }
      rewrite Hstop, app_nil_r. destruct min; reflexivity.
    + destruct min; simpl; [apply app_nil_r | reflexivity].
Qed.

Lemma flat_map_map (A B C : Type) (f : B -> list C) (g : A -> B) l :
  flat_map f (List.map g l) = flat_map (fun x => f (g x)) l.
Proof. induction l as [|a l IH]; simpl; [|rewrite IH]; reflexivity. Qed.

Lemma wmatch_app ic u v s :
  wmatch ic (u ++ v) s = wmatch ic u s && wmatch ic v (skipn (length u) s).
Proof.
  revert s; induction u as [|x u IH]; intros s; simpl; [reflexivity|].
  destruct s as [|c s]; [reflexivity|]. rewrite IH, andb_assoc. reflexivity.
Qed.

Lemma wmatch_length ic w s : wmatch ic w s = true -> length w <= length s.
Proof.
  revert s; induction w as [|x w IH]; intros s; simpl; [lia|].
  destruct s as [|c s]; [discriminate|].
  intros H. apply andb_prop in H as [_ H]. apply IH in H. simpl. lia.
Qed.

Lemma jump_rest n st : m_rest (jump n st) = skipn n (m_rest st).
Proof.
  revert st; induction n as [|n IH]; intros st; simpl; [reflexivity|].
  destruct (m_rest st) as [|c s'] eqn:E; [rewrite E; reflexivity|].
  rewrite IH. reflexivity.
Qed.

Lemma jump_caps n st : m_caps (jump n st) = m_caps st.
Proof.
  revert st; induction n as [|n IH]; intros st; simpl; [reflexivity|].
  destruct (m_rest st) as [|c s']; [reflexivity|]. rewrite IH. reflexivity.
Qed.

Lemma jump_pos n st : n <= length (m_rest st) -> m_pos (jump n st) = m_pos st + n.
Proof.
  revert st; induction n as [|n IH]; intros st; simpl; [lia|].
  destruct (m_rest st) as [|c s']; simpl; [lia|].
  intros H. rewrite IH; simpl; lia.
Qed.

Lemma eat_rest fl sg s st :
  m_rest st = s -> m_rest (eat fl sg s st) = skipn (run_len (single_match fl sg) s) s.
Proof.
  revert st; induction s as [|c s IH]; intros st H; simpl; [exact H|].
  destruct (single_match fl sg c); [apply IH; reflexivity | exact H].
Qed.

Lemma run_len_le p s : run_len p s <= length s.
Proof. induction s as [|c s IH]; simpl; [lia|]. destruct (p c); simpl; lia. Qed.

Lemma run_len_firstn p s : length (firstn (run_len p s) s) = run_len p s.
Proof. rewrite length_firstn. pose proof (run_len_le p s). lia. Qed.

Lemma run_len_all p s : forallb p (firstn (run_len p s) s) = true.
Proof.
  induction s as [|c s IH]; simpl; [reflexivity|].
  destruct (p c) eqn:E; simpl; [rewrite E, IH|]; reflexivity.
Qed.

Lemma run_len_stop p s :
  match skipn (run_len p s) s with c :: _ => p c = false | [] => True end.
Proof.
  induction s as [|c s IH]; simpl; [exact Logic.I|].
  destruct (p c) eqn:E; simpl; [exact IH | exact E].
Qed.

(** What [BASE64_INNER_HTML_RE] matches at the head of [s]. *)
Lemma match_at_b64 prev i s :
  match_at I BASE64_INNER_HTML_RE prev i s =
  match parse_call s with
  | Some p => Some {| m_start := i; group0 := firstn (8 + length p) s;
                      m_groups := [(1, p)] |}
  | None => None
  end.
Proof.
  unfold match_at, parse_call, BASE64_INNER_HTML_RE.
  set (st0 := {| m_prev := prev; m_pos := 0; m_rest := s; m_caps := [] |}).
  change (lit "atob(`") with (lit "atob" ++ lit "(`").
  rewrite wmatch_app. change (length (lit "atob")) with 4.
  cbn [seq_of]. unfold text. cbn [run].
  rewrite run_word by discriminate. cbn [ignorecase I m_rest st0].
  destruct (wmatch true (lit "atob") s) eqn:E4; [|reflexivity].
  cbn [flat_map andb]. rewrite app_nil_r.
  rewrite run_word by discriminate. cbn [ignorecase I].
  rewrite jump_rest. cbn [m_rest st0]. change (length (lit "atob")) with 4.
  destruct (wmatch true (lit "(`") (skipn 4 s)) eqn:E2; [|reflexivity].
  cbn [flat_map]. rewrite app_nil_r.
  change (length (lit "(`")) with 2.
  set (st6 := jump 2 (jump 4 st0)).
  assert (R6 : m_rest st6 = skipn 6 s).
  { unfold st6. rewrite !jump_rest. cbn [m_rest st0]. rewrite skipn_skipn. reflexivity. }
  assert (P6 : m_pos st6 = 6).
  { unfold st6. apply wmatch_length in E4, E2. cbn [length lit] in E4, E2.
    rewrite !jump_pos; rewrite ?jump_rest; cbn [m_rest m_pos st0]; simpl in *; lia. }
  assert (C6 : m_caps st6 = []).
  { unfold st6. rewrite !jump_caps. reflexivity. }
  rewrite flat_map_map.
  rewrite (rep_greedy_then _ I nbq
             (fun st' => run I (word (lit "`)"))
                (set_cap 1 (firstn (m_pos st' - m_pos st6) (m_rest st6)) st'))).
  2:{ intros st' c r Hr Hc. rewrite run_word by discriminate.
      cbn [set_cap m_rest ignorecase I]. rewrite Hr.
      rewrite nbq_match in Hc. unfold not_backquote in Hc.
      change (lit "`)") with [96%N; 41%N]. cbn [wmatch]. rewrite chr_match_punct by lia.
      destruct (c =? 96)%N; [discriminate | reflexivity]. }
  2:{ reflexivity. }
  rewrite (run_len_ext _ not_backquote _ nbq_match), R6.
  rewrite run_len_firstn.
  rewrite eat_pos, (run_len_ext _ not_backquote _ nbq_match), P6.
  set (L := run_len not_backquote (skipn 6 s)).
  replace (6 + L - 6) with L by lia.
  pose proof (run_len_firstn not_backquote (skipn 6 s)) as HL. fold L in HL.
  destruct L as [|k] eqn:EL.
  - reflexivity.
  - destruct (firstn (S k) (skipn 6 s)) as [|p0 p] eqn:EP; [discriminate|].
    cbn [Nat.leb]. rewrite run_word by discriminate.
    cbn [set_cap m_rest ignorecase I].
    rewrite (eat_rest I nbq (skipn 6 s) st6 R6).
    rewrite (run_len_ext _ not_backquote _ nbq_match). fold L. rewrite EL.
    rewrite skipn_skipn. replace (S k + 6) with (6 + S k) by lia.
    destruct (wmatch true (lit "`)") (skipn (6 + S k) s)) eqn:E3; [|reflexivity].
    cbn [hd_error]. f_equal. f_equal.
    + rewrite jump_pos.
      * cbn [m_pos set_cap]. rewrite eat_pos, P6.
        rewrite (run_len_ext _ not_backquote _ nbq_match). fold L. rewrite EL, HL.
        f_equal. change (length (lit "`)")) with 2. lia.
      * cbn [m_rest set_cap]. rewrite (eat_rest I nbq (skipn 6 s) st6 R6).
        rewrite (run_len_ext _ not_backquote _ nbq_match). fold L. rewrite EL.
        rewrite skipn_skipn. replace (S k + 6) with (6 + S k) by lia.
        apply wmatch_length in E3. exact E3.
    + rewrite jump_caps. cbn [m_caps set_cap]. rewrite eat_caps, C6. reflexivity.
Qed.

Lemma skipn_S_cons (A : Type) n (l : list A) x l' :
  skipn n l = x :: l' -> skipn (S n) l = l'.
Proof.
  revert l; induction n as [|n IH]; intros l; simpl.
  - intros ->. reflexivity.
  - destruct l as [|a l]; [discriminate|]. apply IH.
Qed.

(** While [skip] characters remain covered by the last match, the scan just
    moves on. *)
Lemma tokens_skip fl r k : forall s prev i,
  k <= length s ->
  exists prev' i', tokens fl r k prev i s = tokens fl r 0 prev' i' (skipn k s).
Proof.
  induction k as [|k IH]; intros s prev i Hk.
  - exists prev, i. reflexivity.
  - destruct s as [|c s]; [simpl in Hk; lia|].
    cbn [tokens skipn]. apply IH. simpl in Hk. lia.
Qed.

Lemma run_len_app_stop p u c r :
  forallb p u = true -> p c = false -> run_len p (u ++ c :: r) = length u.
Proof.
  intros Hu Hc. induction u as [|x u IH]; simpl in *.
  - rewrite Hc. reflexivity.
  - apply andb_prop in Hu as [Hx Hu]. rewrite Hx, IH by assumption. reflexivity.
Qed.

Lemma skipn_app_length (A : Type) (u v : list A) : skipn (length u) (u ++ v) = v.
Proof. induction u; simpl; auto. Qed.

Lemma firstn_app_length (A : Type) (u v : list A) : firstn (length u) (u ++ v) = u.
Proof. induction u; simpl; [|f_equal]; auto. Qed.

(** [parse_call] recognises exactly the calls described by [atob_call]. *)
Lemma parse_call_complete call payload rest :
  atob_call call payload -> parse_call (call ++ rest) = Some payload.
Proof.
  intros (name & Hn & -> & Hne & Hbq).
  destruct name as [|a [|t [|o [|b [|? ?]]]]]; try discriminate.
  cbn [List.map] in Hn. change (lit "atob") with [97; 116; 111; 98]%N in Hn.
  injection Hn as Ha Ht Ho Hb.
  unfold parse_call.
  change (lit "atob(`") with [97; 116; 111; 98; 40; 96]%N.
  change (lit "(`") with [40; 96]%N. change (lit "`)") with [96; 41]%N.
  cbn [app wmatch].
  rewrite !chr_match_letter, !chr_match_punct by lia.
  rewrite Ha, Ht, Ho, Hb. cbn [N.eqb Pos.eqb andb skipn].
  assert (Hall : forallb not_backquote payload = true).
  { apply forallb_forall. intros x Hx. unfold not_backquote.
    destruct (N.eqb_spec x 96); [subst; contradiction | reflexivity]. }
  rewrite <- app_assoc. cbn [app].
  rewrite run_len_app_stop by (assumption || reflexivity).
  rewrite firstn_app_length.
  destruct payload as [|p0 p]; [congruence|].
  match goal with
  | |- context [skipn ?n ?l] => replace (skipn n l) with (96%N :: 41%N :: rest)
  end.
  - cbv beta iota. rewrite !chr_match_punct by lia. reflexivity.
  - cbn [plus skipn]. symmetry. apply skipn_app_length.
Qed.

Lemma wmatch_cons ic x w s :
  wmatch ic (x :: w) s = true ->
  exists c s', s = c :: s' /\ chr_match ic x c = true /\ wmatch ic w s' = true.
Proof.
  destruct s as [|c s']; cbn [wmatch]; [discriminate|].
  intros H. apply andb_prop in H as [H1 H2]. eauto.
Qed.

Lemma parse_call_sound s payload :
  parse_call s = Some payload ->
  exists call rest,
    s = call ++ rest /\ atob_call call payload /\
    call = firstn (8 + length payload) s /\ length call = 8 + length payload.
Proof.
  unfold parse_call.
  destruct (wmatch true (lit "atob(`") s) eqn:E6; [|discriminate].
  change (lit "atob(`") with [97; 116; 111; 98; 40; 96]%N in E6.
  apply wmatch_cons in E6 as (a & s1 & -> & Ha & E6).
  apply wmatch_cons in E6 as (t & s2 & -> & Ht & E6).
  apply wmatch_cons in E6 as (o & s3 & -> & Ho & E6).
  apply wmatch_cons in E6 as (b & s4 & -> & Hb & E6).
  apply wmatch_cons in E6 as (c5 & s5 & -> & H5 & E6).
  apply wmatch_cons in E6 as (c6 & s6 & -> & H6 & _).
  rewrite chr_match_letter in Ha, Ht, Ho, Hb by lia.
  rewrite chr_match_punct in H5, H6 by lia.
  apply N.eqb_eq in Ha, Ht, Ho, Hb, H5, H6. subst c5 c6.
  cbn [skipn].
  pose proof (run_len_firstn not_backquote s6) as HL.
  pose proof (run_len_all not_backquote s6) as Hall.
  pose proof (firstn_skipn (run_len not_backquote s6) s6) as Hsplit.
  set (p := firstn (run_len not_backquote s6) s6) in *.
  destruct p as [|p0 p'] eqn:EP; [discriminate|].
  assert (Hne : p0 :: p' <> []) by discriminate.
  rewrite <- EP in *. clear EP p0 p'.
  destruct (wmatch true (lit "`)") _) eqn:E3; [|discriminate].
  intros [= <-].
  replace (skipn (6 + length p) (a :: t :: o :: b :: 40%N :: 96%N :: s6))
    with (skipn (length p) s6) in E3 by reflexivity.
  rewrite HL in E3.
  change (lit "`)") with [96; 41]%N in E3.
  apply wmatch_cons in E3 as (c7 & s7 & E7 & H7 & E3).
  apply wmatch_cons in E3 as (c8 & s8 & -> & H8 & _).
  rewrite chr_match_punct in H7, H8 by lia.
  apply N.eqb_eq in H7, H8. subst c7 c8.
  cbn [Nat.add skipn] in E7.
  rewrite E7 in Hsplit.
  assert (Hcall : length ([a; t; o; b] ++ lit "(`" ++ p ++ lit "`)") = 8 + length p).
  { rewrite !length_app. change (length (lit "(`")) with 2.
    change (length (lit "`)")) with 2. simpl. lia. }
  exists ([a; t; o; b] ++ lit "(`" ++ p ++ lit "`)"), s8.
  assert (Hs : a :: t :: o :: b :: 40%N :: 96%N :: s6 =
               ([a; t; o; b] ++ lit "(`" ++ p ++ lit "`)") ++ s8).
  { rewrite <- Hsplit. change (lit "(`") with [40; 96]%N.
    change (lit "`)") with [96; 41]%N. cbn [app]. rewrite <- app_assoc. reflexivity. }
  split; [exact Hs|]. split; [|split].
  - exists [a; t; o; b]. split; [|split; [reflexivity|split]].
    + cbn [List.map]. rewrite Ha, Ht, Ho, Hb. reflexivity.
    + exact Hne.
    + intros Hin. rewrite forallb_forall in Hall. apply Hall in Hin. discriminate.
  - rewrite <- Hcall. symmetry.
    etransitivity; [apply f_equal, Hs | apply firstn_app_length].
  - exact Hcall.
Qed.

Lemma atob_call_length call payload :
  atob_call call payload -> length call = 8 + length payload.
Proof.
  intros (name & Hn & -> & _ & _).
  apply (f_equal (@length _)) in Hn. rewrite length_map in Hn.
  rewrite !length_app, Hn. change (length (lit "atob")) with 4.
  change (length (lit "(`")) with 2. change (length (lit "`)")) with 2. lia.
Qed.

Lemma app_eq_length (A : Type) (u u' v v' : list A) :
  length u = length u' -> u ++ v = u' ++ v' -> u = u' /\ v = v'.
Proof.
  revert u'; induction u as [|x u IH]; intros [|x' u']; simpl; try discriminate.
  - auto.
  - intros Hl H. injection H as -> H. injection Hl as Hl.
    destruct (IH u' Hl H) as [-> ->]. auto.
Qed.

(** The replacement function on a match of the pattern. *)
Lemma _rep_replacement i call payload :
  _rep {| m_start := i; group0 := call; m_groups := [(1, payload)] |}
  = Ok (replacement call payload).
Proof.
  unfold _rep, replacement, group. cbn [m_groups assoc Nat.eqb group0].
  destruct (b64decode (remove_char 10%N payload)); reflexivity.
Qed.

(** The scan of [try_decode_base64_blocks] never fails and reveals the calls. *)
Lemma tokens_revealed n : forall s, length s <= n -> forall prev i,
  exists out,
    sub_tokens _rep (tokens I BASE64_INNER_HTML_RE 0 prev i s) = Ok out /\
    revealed s out.
Proof.
  induction n as [|n IH]; intros s Hn prev i.
  - destruct s; [|simpl in Hn; lia]. exists []. split; [reflexivity | constructor].
  - destruct s as [|c s']; [exists []; split; [reflexivity | constructor]|].
    cbn [tokens]. rewrite match_at_b64.
    destruct (parse_call (c :: s')) as [p|] eqn:EP.
    + destruct (parse_call_sound _ _ EP) as (call & rest & Hs & Hcall & Hf & Hlen).
      cbn [group0]. rewrite <- Hf, Hlen.
      change (8 + length p) with (S (7 + length p)). cbv iota.
      assert (Hk : 7 + length p <= length s').
      { apply (f_equal (@length _)) in Hs. rewrite length_app, Hlen in Hs.
        simpl in Hs. lia. }
      destruct (tokens_skip I BASE64_INNER_HTML_RE (7 + length p) s' (Some c) (S i) Hk)
        as (prev' & i' & ->).
      assert (Hrest : skipn (7 + length p) s' = rest).
      { change (skipn (7 + length p) s') with (skipn (8 + length p) (c :: s')).
        rewrite Hs, <- Hlen. apply skipn_app_length. }
      rewrite Hrest.
      destruct (IH rest) with (prev := prev') (i := i') as (out & Hout & Hrev).
      { apply (f_equal (@length _)) in Hs. rewrite length_app, Hlen in Hs.
        simpl in Hs, Hn. lia. }
      exists (replacement call p ++ out). split.
      * cbn [sub_tokens]. rewrite _rep_replacement. cbn [bind]. rewrite Hout.
        reflexivity.
      * rewrite Hs. apply revealed_call; assumption.
    + destruct (IH s') with (prev := Some c) (i := S i) as (out & Hout & Hrev).
      { simpl in Hn. lia. }
      exists (c :: out). split.
      * cbn [sub_tokens]. rewrite Hout. reflexivity.
      * apply revealed_char; [|exact Hrev].
        intros call payload rest Hcall Hs.
        rewrite Hs, (parse_call_complete _ _ rest Hcall) in EP. discriminate.
Qed.

Lemma try_decode_base64_blocks_total (html : str) :
  exists out, try_decode_base64_blocks html = Ok out /\ revealed html out.
Proof.
  destruct (tokens_revealed _ html (le_n (length html)) None 0) as (out0 & H0 & R0).
  exists out0. split; [exact H0 | exact R0].
Qed.

(** [revealed] determines its result. *)
Lemma revealed_functional s o1 :
  revealed s o1 -> forall o2, revealed s o2 -> o1 = o2.
Proof.
  induction 1 as [|c s out Hno H1 IH|call payload rest out Hcall H1 IH]; intros o2 H2.
  - remember [] as e eqn:He. destruct H2 as [|? ? ? ? ?|call payload rest out Hcall H2].
    + reflexivity.
    + discriminate.
    + apply atob_call_length in Hcall. destruct call; simpl in *; [lia | discriminate].
  - remember (c :: s) as e eqn:He.
    destruct H2 as [|c' s' out' Hno' H2|call payload rest out' Hcall H2].
    + discriminate.
    + injection He as -> ->. f_equal. apply IH. exact H2.
    + exfalso. exact (Hno _ _ _ Hcall eq_refl).
  - remember (call ++ rest) as e eqn:He.
    destruct H2 as [|c' s' out' Hno' H2|call' payload' rest' out' Hcall' H2].
    + apply atob_call_length in Hcall. destruct call; simpl in *; [lia | discriminate].
    + exfalso. exact (Hno' _ _ _ Hcall He).
    + pose proof (parse_call_complete _ _ rest Hcall) as P1.
      pose proof (parse_call_complete _ _ rest' Hcall') as P2.
      rewrite He, P1 in P2. injection P2 as <-.
      pose proof (atob_call_length _ _ Hcall) as L1.
      pose proof (atob_call_length _ _ Hcall') as L2.
      destruct (app_eq_length _ call call' rest rest') as [-> ->]; [lia | exact (eq_sym He) |].
      f_equal. apply IH. exact H2.
Qed.

(** C5 (amended). For every input string, [try_decode_base64_blocks] returns
    normally, and its result is exactly the input with every inline call
    [atob(`payload`)] (name in any letter case, payload non-empty and free of
    backquotes), taken from left to right, replaced by the UTF-8 text of the
    base64-decoded payload; a call is left as it is exactly when [b64decode]
    raises on the payload with its newlines removed. *)
Theorem try_decode_base64_blocks_reveals (html : str) :
  (exists out, try_decode_base64_blocks html = Ok out) /\
  (forall out, try_decode_base64_blocks html = Ok out <-> revealed html out).
Proof.
  destruct (try_decode_base64_blocks_total html) as (out0 & H0 & R0).
  split; [exists out0; exact H0|].
  intros out; split.
  - intros H. rewrite H0 in H. injection H as <-. exact R0.
  - intros H. rewrite (revealed_functional _ _ H _ R0). exact H0.
Qed.

End DecodeFacts.

(* ================================================================== *)
(** * Decoding twice *)

Module TwiceFacts.
Import Py Re Codec Quiz Ref ReFacts DecodeFacts.

(** The tokens of a scan spell the subject. *)
Lemma match_at_group0 fl r prev i s m :
  match_at fl r prev i s = Some m -> group0 m = firstn (length (group0 m)) s.
Proof.
  unfold match_at. destruct (run fl r _) as [|st l]; [discriminate|].
  intros [= <-]. cbn [group0]. rewrite length_firstn.
  destruct (Nat.min_spec (m_pos st) (length s)) as [[_ ->]|[H ->]]; [reflexivity|].
  rewrite firstn_all. apply firstn_all2. exact H.
Qed.

Lemma tokens_source fl r s : forall k prev i,
  k <= length s -> flat_map source (tokens fl r k prev i s) = skipn k s.
Proof.
  induction s as [|c s IH]; intros k prev i Hk.
  - destruct k; reflexivity.
  - cbn [tokens]. destruct k as [|k].
    + cbn [skipn].
      destruct (match_at fl r prev i (c :: s)) as [m|] eqn:E.
      * destruct (length (group0 m)) as [|n] eqn:EL.
        -- cbn [flat_map source app]. rewrite IH by lia. reflexivity.
        -- pose proof (match_at_group0 _ _ _ _ _ _ E) as Hg. rewrite EL in Hg.
           assert (Hn : n <= length s).
           { apply (f_equal (@length _)) in Hg. rewrite EL, length_firstn in Hg.
             simpl in Hg. lia. }
           cbn [flat_map source]. rewrite IH by exact Hn.
           rewrite Hg. cbn [firstn app]. f_equal. apply firstn_skipn.
      * cbn [flat_map source app]. rewrite IH by lia. reflexivity.
    + cbn [skipn]. apply IH. simpl in Hk. lia.
Qed.

(** Every match of a scan is a match of the pattern somewhere in the subject. *)
Lemma tokens_match fl r m s : forall k prev i,
  In (TMatch m) (tokens fl r k prev i s) ->
  exists prev' i' s', match_at fl r prev' i' s' = Some m.
Proof.
  induction s as [|c s IH]; intros k prev i; [intros []|].
  cbn [tokens]. destruct k as [|k]; [|apply IH].
  destruct (match_at fl r prev i (c :: s)) as [m'|] eqn:E.
  - destruct (length (group0 m')).
    + intros [H|H]; [discriminate | eapply IH; eauto].
    + intros [H|H]; [injection H as <-; eauto | eapply IH; eauto].
  - intros [H|H]; [discriminate | eapply IH; eauto].
Qed.

Lemma a2b_base64_length data : forall q l pads out r,
  a2b_base64 data q l pads out = Ok r -> length r <= length out + length data.
Proof.
  induction data as [|ch data IH]; intros q l pads out r; cbn [a2b_base64].
  - destruct q as [|[|q]]; [|discriminate..]. intros [= <-].
    rewrite length_rev. simpl. lia.
  - assert (Hdone : Ok (rev out) = Ok r -> length r <= length out + length (ch :: data)).
    { intros [= <-]. rewrite length_rev. simpl. lia. }
    destruct (ch =? 61)%N.
    + destruct (Nat.leb 2 q).
      * destruct (Nat.leb 4 (q + S pads)); [exact Hdone|].
        intros H. apply IH in H. simpl. lia.
      * intros H. apply IH in H. simpl. lia.
    + destruct (b64_value ch).
      * destruct q as [|[|[|q]]]; intros H; apply IH in H; simpl in *; lia.
      * intros H. apply IH in H. simpl. lia.
Qed.

Lemma b64decode_length s r : b64decode s = Ok r -> length r <= length s.
Proof.
  unfold b64decode. destruct (forallb (fun c => (c <? 128)%N) s); [|discriminate].
  intros H. apply a2b_base64_length in H. simpl in H. exact H.
Qed.

Lemma decode_utf8_ignore_length n : forall b,
  length b <= n -> length (decode_utf8_ignore b) <= length b.
Proof.
  induction n as [|n IH]; intros b Hn.
  - destruct b; [simpl; lia | simpl in Hn; lia].
  - destruct b as [|c1 b1]; [simpl; lia|].
    assert (H1 : length (decode_utf8_ignore b1) <= length b1)
      by (apply IH; simpl in Hn; lia).
    cbn [decode_utf8_ignore].
    repeat match goal with
    | |- context [if ?c then _ else _] => destruct c
    | |- context [match ?l with [] => _ | _ :: _ => _ end] =>
        let x := fresh "c" in let l' := fresh "b" in
        destruct l as [|x l'];
        [| assert (length (decode_utf8_ignore l') <= length l')
             by (apply IH; simpl in *; lia)]
    end; simpl in *; lia.
Qed.

Lemma remove_char_length c s : length (remove_char c s) <= length s.
Proof. apply filter_length_le. Qed.

Lemma tokens_call_match m s k prev i :
  In (TMatch m) (tokens I BASE64_INNER_HTML_RE k prev i s) -> call_match m.
Proof.
  intros H. apply tokens_match in H as (prev' & i' & s' & H).
  rewrite match_at_b64 in H.
  destruct (parse_call s') as [p|] eqn:EP; [|discriminate].
  injection H as <-. exists p. split; [reflexivity|]. cbn [group0].
  destruct (parse_call_sound _ _ EP) as (call & rest & _ & _ & Hf & Hlen).
  rewrite Hf in Hlen. exact Hlen.
Qed.

Lemma _rep_cases m x :
  call_match m -> _rep m = Ok x ->
  (rejected m /\ x = group0 m) \/ (~ rejected m /\ length x < length (group0 m)).
Proof.
  intros (p & Hg & Hlen). unfold _rep, rejected, payload_of, group. rewrite Hg.
  cbn [assoc Nat.eqb].
  destruct (b64decode (remove_char 10%N p)) as [b|e] eqn:E; cbn [bind try_except].
  - intros [= <-]. right. split.
    + intros (e & He). discriminate.
    + pose proof (decode_utf8_ignore_length (length b) b (le_n _)).
      pose proof (b64decode_length _ _ E). pose proof (remove_char_length 10%N p). lia.
  - intros [= <-]. left. split; [exists e|]; reflexivity.
Qed.

Lemma _rep_rejected m : rejected m -> _rep m = Ok (group0 m).
Proof.
  intros (e & He). unfold _rep. fold (payload_of m). rewrite He. reflexivity.
Qed.

Lemma sub_tokens_identity ts :
  Forall rejected (matches_of ts) -> sub_tokens _rep ts = Ok (flat_map source ts).
Proof.
  induction ts as [|[c|m] ts IH]; cbn [matches_of flat_map sub_tokens source app];
    intros H.
  - reflexivity.
  - rewrite (IH H). reflexivity.
  - inversion H as [|? ? Hm Hts]; subst.
    rewrite (_rep_rejected _ Hm), (IH Hts). reflexivity.
Qed.

Lemma sub_tokens_shorter ts : forall x,
  (forall m, In (TMatch m) ts -> call_match m) ->
  sub_tokens _rep ts = Ok x ->
  length x <= length (flat_map source ts) /\
  (length x = length (flat_map source ts) -> Forall rejected (matches_of ts)).
Proof.
  induction ts as [|[c|m] ts IH]; intros x Hwf;
    cbn [matches_of flat_map sub_tokens source app].
  - intros [= <-]. split; [reflexivity | constructor].
  - destruct (sub_tokens _rep ts) as [y|] eqn:E; [|discriminate].
    intros [= <-]. destruct (IH y) as [H1 H2]; [intros; apply Hwf; right; auto | reflexivity|].
    simpl. split; [lia | intros; apply H2; lia].
  - destruct (_rep m) as [u|] eqn:Eu; [|discriminate]. cbn [bind].
    destruct (sub_tokens _rep ts) as [y|] eqn:E; [|discriminate].
    intros [= <-]. destruct (IH y) as [H1 H2]; [intros; apply Hwf; right; auto | reflexivity|].
    rewrite !length_app.
    destruct (_rep_cases _ _ (Hwf m (or_introl eq_refl)) Eu) as [[Hr ->]|[_ Hlt]].
    + split; [lia|]. intros H. constructor; [exact Hr | apply H2; lia].
    + split; [lia|]. intros H. lia.
Qed.

(** C6 (amended). Decoding is one pass: [try_decode_base64_blocks] applied to
    its own result gives that result back exactly when every inline call
    still present in the result has a payload that [b64decode] rejects (in
    particular when no call is left).  Text produced by decoding is not
    decoded again by the first pass. *)
Theorem try_decode_base64_blocks_twice (s : str) :
  exists out,
    try_decode_base64_blocks s = Ok out /\
    (try_decode_base64_blocks out = Ok out <->
     Forall rejected (finditer I BASE64_INNER_HTML_RE out)).
Proof.
  destruct (try_decode_base64_blocks_total s) as (out & Hout & _).
  exists out. split; [exact Hout|].
  unfold try_decode_base64_blocks, sub_with, finditer.
  fold (matches_of (tokens I BASE64_INNER_HTML_RE 0 None 0 out)).
  pose proof (tokens_source I BASE64_INNER_HTML_RE out 0 None 0 (Nat.le_0_l _)) as Hsrc.
  cbn [skipn] in Hsrc. split.
  - intros H. apply sub_tokens_shorter in H as [_ H].
    + apply H. rewrite Hsrc. reflexivity.
    + intros m Hm. eapply tokens_call_match; eauto.
  - intros H. rewrite (sub_tokens_identity _ H), Hsrc. reflexivity.
Qed.

(** C6 (as stated) fails: a payload that decodes to the text of another call
    is revealed by the first pass and decoded by the second. *)
Lemma try_decode_base64_blocks_not_idempotent :
  try_decode_base64_blocks (lit "atob(`YXRvYihgYUdrPWAp`)") = Ok (lit "atob(`aGk=`)") /\
  try_decode_base64_blocks (lit "atob(`aGk=`)") = Ok (lit "hi") /\
  bind (try_decode_base64_blocks (lit "atob(`YXRvYihgYUdrPWAp`)"))
       try_decode_base64_blocks
  <> try_decode_base64_blocks (lit "atob(`YXRvYihgYUdrPWAp`)").
Proof. repeat split; try (vm_compute; reflexivity). vm_compute. discriminate. Qed.

(** C5 (as stated) fails: [!] is not valid base64, yet the call is replaced
    (by the empty text) instead of being left unchanged, because [b64decode]
    drops characters outside the alphabet before it checks anything. *)
Lemma try_decode_base64_blocks_lenient :
  rfc4648_valid (lit "!") = false /\
  try_decode_base64_blocks (lit "x atob(`!`) y") = Ok (lit "x  y") /\
  rfc4648_valid (lit "aGk=$") = false /\
  try_decode_base64_blocks (lit "atob(`aGk=$`)") = Ok (lit "hi").
Proof. repeat split; vm_compute; reflexivity. Qed.

End TwiceFacts.

(* ================================================================== *)
(** * The chain *)

Module ChainFacts.
Import Py Re Codec Num Quiz Ref Shape ReFacts.

Section Facts.

Variable World : Type.
Variable env : collaborators World.
Variables (email secret : str) (deadline_ts : float).

#[local] Abbreviation state := (state World).
#[local] Abbreviation M := (M World).
#[local] Abbreviation iteration := (iteration env email secret deadline_ts).
#[local] Abbreviation loop := (loop env email secret deadline_ts).
#[local] Abbreviation submit := (submit env email secret).
#[local] Abbreviation body_of := (body_of email secret).
#[local] Abbreviation reads := (reads env deadline_ts).
#[local] Abbreviation solve_page := (solve_page env email secret).

Lemma adds_refl (st : state) : adds [] st st.
Proof. unfold adds. rewrite app_nil_r. auto. Qed.

Lemma adds_trans [e1 e2] [a b c : state] :
  adds e1 a b -> adds e2 b c -> adds (e1 ++ e2) a c.
Proof.
  intros (A1 & A2 & A3 & A4) (B1 & B2 & B3 & B4). unfold adds.
  rewrite B1, B2, B3, B4, A1, A2, A3, A4, app_assoc. auto.
Qed.

Lemma adds_with_world w e (st : state) : adds [e] st (with_world w e st).
Proof. unfold adds; simpl; auto. Qed.

Lemma mbind_eq (A B : Type) (m : M A) (k : A -> M B) st :
  mbind m k st =
  match m st with
  | (Ok a, st') => k a st'
  | (Raise e, st') => (Raise e, st')
  end.
Proof. reflexivity. Qed.

Lemma now_eq [st : state] [t w] :
  time_time env (world st) = (t, w) ->
  now env st = (Ok t, with_world w (EvTime t) st).
Proof. intros H. unfold now. rewrite H. reflexivity. Qed.

Lemma get_current_url_eq (st : state) :
  get_current_url st = (Ok (current_url st), st).
Proof. reflexivity. Qed.

Lemma fetch_eq [st : state] [url r w] :
  fetch_rendered_html env url (world st) = (r, w) ->
  fetch env url st = (r, with_world w (EvFetch url) st).
Proof. intros H. unfold fetch. rewrite H. reflexivity. Qed.

Lemma lift_eq (A : Type) (r : result A) (st : state) : lift r st = (r, st).
Proof. reflexivity. Qed.

Lemma heuristic_pdf_adds text expanded st :
  exists evs, one_get evs /\ adds evs st (snd (heuristic_pdf env text expanded st)).
Proof.
  unfold heuristic_pdf.
  destruct (search I PDF_TASK_RE text) as [m|]; [|exists []; split; [left; auto | apply adds_refl]].
  rewrite mbind_eq, lift_eq.
  destruct (py_int _) as [page_no|e];
    [|exists []; split; [left; auto | apply adds_refl]].
  destruct (findall1 I PDF_LINK_RE expanded) as [|link more];
    [exists []; split; [left; auto | apply adds_refl]|].
  exists [EvGet link]. split; [right; eauto|].
  unfold mbind, download. destruct (http_get_bytes env link (world st)) as [[b|e] w].
  - destruct (sum_value_column_pdf_pdfplumber _ _ _ _); apply adds_with_world.
  - apply adds_with_world.
Qed.

Lemma heuristic_tabular_adds answer expanded st :
  exists evs, one_get evs /\ adds evs st (snd (heuristic_tabular env answer expanded st)).
Proof.
  unfold heuristic_tabular.
  destruct answer; [exists []; split; [left; auto | apply adds_refl]|].
  destruct (findall1 I DATA_LINK_RE expanded) as [|link more];
    [exists []; split; [left; auto | apply adds_refl]|].
  exists [EvGet link]. split; [right; eauto|].
  unfold mbind, download, lift, ret.
  destruct (http_get_bytes env link (world st)) as [[b|e] w]; [|apply adds_with_world].
  destruct (load_dataframe env link b) as [df|e]; [|apply adds_with_world].
  destruct (value_column df) as [cells|]; [|apply adds_with_world].
  destruct (int_if_integral _); apply adds_with_world.
Qed.

(** A submission makes exactly one POST; it returns the parsed body exactly
    when the POST completed, and then the status code is recorded. *)
Lemma submit_cases su a (st : state) :
  exists rr st',
    snd (submit su a st) = st' /\
    steps st' = steps st /\ current_url st' = current_url st /\
    trace st' = trace st ++ [EvPost su (body_of st a) rr] /\
    match fst (submit su a st) with
    | Ok data =>
        exists resp, rr = Ok resp /\ resp_json resp = Ok data /\
                     successful (EvPost su (body_of st a) rr) = true /\
                     last_submit_status st' = Some (status_code resp)
    | Raise _ => successful (EvPost su (body_of st a) rr) = false
    end.
Proof.
  unfold submit, Quiz.submit, mbind, get_current_url, except_http_error, post,
    set_last_submit_status, lift, raise_for_status.
  fold (body_of st a).
  destruct (client_post env su (body_of st a) (world st)) as [[resp|e] w].
  - exists (Ok resp). cbn [fst snd successful].
    destruct ((200 <=? status_code resp)%Z && (status_code resp <=? 299)%Z).
    + destruct (resp_json resp) as [data|e] eqn:Ej.
      * eexists. repeat split. exists resp. cbn. rewrite Ej. auto.
      * destruct e; eexists; repeat split.
    + eexists. repeat split.
  - exists (Raise e). destruct e; eexists; repeat split.
Qed.

Lemma follow_cases data (st : state) :
  trace (snd (follow data st)) = trace st /\
  steps (snd (follow data st)) = S (steps st) /\
  last_submit_status (snd (follow data st)) = last_submit_status st /\
  if truthy (next_url_of data)
  then fst (follow data st) = Ok None /\
       current_url (snd (follow data st)) = next_url_of data
  else fst (follow data st) =
         Ok (Some {| r_steps := S (steps st); r_last_url := current_url st;
                     r_last_submit_status := last_submit_status st |}) /\
       current_url (snd (follow data st)) = current_url st.
Proof.
  unfold follow, mbind, incr_steps, set_current_url, ret.
  fold (next_url_of data). destruct (truthy (next_url_of data)); cbn; auto.
Qed.

Lemma one_get_is_get [evs] : one_get evs -> forallb is_get evs = true.
Proof. intros [->|(u & ->)]; reflexivity. Qed.

(** The shape of one turn of the loop. *)
Lemma iteration_cases (st : state) :
  exists t w1, time_time env (world st) = (t, w1) /\
  if PrimFloat.leb deadline_ts t
  then iteration st =
       (Raise (TimeoutError (lit "Time budget exceeded.")), with_world w1 (EvTime t) st)
  else
    exists gets, forallb is_get gets = true /\
      ((exists e st', iteration st = (Raise e, st') /\
                      adds (EvTime t :: EvFetch (current_url st) :: gets) st st')
       \/
       (exists su a st1,
          adds (EvTime t :: EvFetch (current_url st) :: gets) st st1 /\
          iteration st =
          match submit su a st1 with
          | (Ok data, st2) => follow data st2
          | (Raise e, st2) => (Raise e, st2)
          end)).
Proof.
  destruct (time_time env (world st)) as [t w1] eqn:Et. exists t, w1.
  split; [reflexivity|].
  unfold iteration, Quiz.iteration.
  rewrite mbind_eq, (now_eq Et). cbv beta iota.
  destruct (PrimFloat.leb deadline_ts t) eqn:El; [reflexivity|].
  set (st1 := with_world w1 (EvTime t) st).
  rewrite mbind_eq, get_current_url_eq. cbv beta iota.
  change (current_url st1) with (current_url st).
  destruct (fetch_rendered_html env (current_url st) (world st1)) as [[html|e] w2] eqn:Ef;
    rewrite mbind_eq, (fetch_eq Ef); cbv beta iota.
  2:{ exists []. split; [reflexivity|]. left. do 2 eexists. split; [reflexivity|].
      unfold adds; cbn. rewrite <- app_assoc. auto. }
  set (st2 := with_world w2 (EvFetch (current_url st)) st1).
  assert (A2 : adds [EvTime t; EvFetch (current_url st)] st st2).
  { unfold adds; cbn. rewrite <- app_assoc. auto. }
  rewrite mbind_eq, lift_eq.
  destruct (try_decode_base64_blocks html) as [expanded|e]; cbv beta iota.
  2:{ exists []. split; [reflexivity|]. left. do 2 eexists. split; [reflexivity | exact A2]. }
  unfold solve_page. rewrite mbind_eq, lift_eq.
  destruct (resolve_submit_url env (page_text expanded) expanded) as [su|e];
    cbv beta iota.
  2:{ exists []. split; [reflexivity|]. left.
      do 2 eexists. split; [reflexivity | exact A2]. }
  rewrite mbind_eq.
  destruct (heuristic_pdf_adds (page_text expanded) expanded st2) as (g1 & G1 & A3).
  destruct (heuristic_pdf env (page_text expanded) expanded st2) as [[ans|e] st3];
    cbn [snd] in A3; cbv beta iota.
  2:{ exists g1. split; [apply one_get_is_get; exact G1|]. left.
      do 2 eexists. split; [reflexivity|]. exact (adds_trans A2 A3). }
  rewrite mbind_eq.
  destruct (heuristic_tabular_adds (heuristic_rows ans (page_text expanded) html)
              expanded st3) as (g2 & G2 & A4).
  destruct (heuristic_tabular env (heuristic_rows ans (page_text expanded) html)
              expanded st3) as [[ans'|e] st4]; cbn [snd] in A4; cbv beta iota.
  2:{ exists (g1 ++ g2). split.
      { rewrite forallb_app, (one_get_is_get G1), (one_get_is_get G2). reflexivity. }
      left. do 2 eexists. split; [reflexivity|].
      exact (adds_trans A2 (adds_trans A3 A4)). }
  exists (g1 ++ g2). split.
  { rewrite forallb_app, (one_get_is_get G1), (one_get_is_get G2). reflexivity. }
  pose proof (adds_trans A2 (adds_trans A3 A4)) as A5.
  destruct ans' as [a|].
  - right. exists su, a, st4. split; [exact A5|]. rewrite mbind_eq.
    destruct (submit su a st4) as [[data|e] st5]; reflexivity.
  - left. do 2 eexists. split; [reflexivity | exact A5].
Qed.

Lemma successes_app a b : successes (a ++ b) = successes a + successes b.
Proof. unfold successes. rewrite filter_app, length_app. reflexivity. Qed.

Lemma successes_gets gets : forallb is_get gets = true -> successes gets = 0.
Proof.
  induction gets as [|e g IH]; [reflexivity|]. cbn [forallb].
  intros H. apply andb_prop in H as [He Hg]. destruct e; try discriminate.
  unfold successes in *. simpl. apply IH. exact Hg.
Qed.

Lemma inner_gets gets : forallb is_get gets = true -> forallb inner gets = true.
Proof.
  induction gets as [|e g IH]; [reflexivity|]. cbn [forallb].
  intros H. apply andb_prop in H as [He Hg]. destruct e; try discriminate.
  simpl. apply IH. exact Hg.
Qed.

(** One turn of the loop, as its record shows it: the clock is read first; if
    the deadline has passed nothing else happens and [TimeoutError] is
    raised; otherwise the page is fetched next and the clock is not read
    again; and [steps] grows by the number of submissions that completed. *)
Lemma iteration_summary (st : state) :
  exists evs,
    trace (snd (iteration st)) =
      trace st ++ EvTime (fst (time_time env (world st))) :: evs /\
    steps (snd (iteration st)) = steps st + successes evs /\
    successes evs <= 1 /\
    if PrimFloat.leb deadline_ts (fst (time_time env (world st)))
    then evs = [] /\
         fst (iteration st) = Raise (TimeoutError (lit "Time budget exceeded."))
    else exists rest, evs = EvFetch (current_url st) :: rest /\
                      forallb inner rest = true.
Proof.
  destruct (iteration_cases st) as (t & w1 & Et & H). rewrite Et. cbn [fst].
  destruct (PrimFloat.leb deadline_ts t).
  - rewrite H. exists []. cbn. repeat split; lia.
  - destruct H as (gets & Hg & [(e & st' & -> & A)|(su & a & st1 & A & ->)]).
    + destruct A as (A1 & _ & _ & A4). cbn [snd].
      exists (EvFetch (current_url st) :: gets). split; [exact A4|].
      assert (Hz : successes (EvFetch (current_url st) :: gets) = 0).
      { change (EvFetch (current_url st) :: gets)
          with ([EvFetch (current_url st)] ++ gets).
        rewrite successes_app, (successes_gets _ Hg). reflexivity. }
      rewrite Hz. split; [lia|]. split; [lia|].
      exists gets. split; [reflexivity | apply inner_gets; exact Hg].
    + destruct A as (A1 & A2 & _ & A4).
      destruct (submit_cases su a st1) as (rr & st2 & S0 & S1 & S2 & S4 & S5).
      assert (Hsum : successes (EvFetch (current_url st) :: gets ++
                                  [EvPost su (body_of st1 a) rr])
                     = if successful (EvPost su (body_of st1 a) rr) then 1 else 0).
      { change (EvFetch (current_url st) :: gets ++ [EvPost su (body_of st1 a) rr])
          with ([EvFetch (current_url st)] ++ gets ++ [EvPost su (body_of st1 a) rr]).
        rewrite !successes_app, (successes_gets _ Hg).
        unfold successes at 2. cbn [filter].
        destruct (successful (EvPost su (body_of st1 a) rr)); reflexivity. }
      exists (EvFetch (current_url st) :: gets ++ [EvPost su (body_of st1 a) rr]).
      rewrite Hsum.
      destruct (submit su a st1) as [[data|e] st2'] eqn:Es; cbn [fst snd] in S0, S5;
        subst st2'.
      * destruct S5 as (resp & _ & _ & Hsucc & _). rewrite Hsucc.
        destruct (follow_cases data st2) as (F1 & F2 & _ & _).
        rewrite F1, F2, S4, S1, A4, A1, <- app_assoc. cbn [app].
        split; [reflexivity|]. split; [lia|]. split; [lia|].
        eexists. split; [reflexivity|]. rewrite forallb_app, (inner_gets _ Hg).
        reflexivity.
      * cbn [snd]. rewrite S5, S4, S1, A4, A1, <- app_assoc. cbn [app].
        split; [reflexivity|]. split; [lia|]. split; [lia|].
        eexists. split; [reflexivity|]. rewrite forallb_app, (inner_gets _ Hg).
        reflexivity.
Qed.

Lemma timed_inner deadline rest more :
  forallb inner rest = true -> timed deadline (rest ++ more) = timed deadline more.
Proof.
  induction rest as [|e rest IH]; [reflexivity|]. cbn [forallb].
  intros H. apply andb_prop in H as [He Hr]. destruct e; try discriminate;
    cbn [app timed]; apply IH; exact Hr.
Qed.

Lemma ends_late_app deadline a b :
  b <> [] -> ends_late deadline (a ++ b) = ends_late deadline b.
Proof.
  intros Hb. unfold ends_late. rewrite rev_app_distr.
  destruct (rev b) as [|x r] eqn:E; [|reflexivity].
  apply (f_equal (@rev _)) in E. rewrite rev_involutive in E. contradiction.
Qed.

Lemma ends_late_inner deadline t u rest :
  forallb inner rest = true ->
  ends_late deadline (EvTime t :: EvFetch u :: rest) = false.
Proof.
  intros H. change (EvTime t :: EvFetch u :: rest) with ([EvTime t] ++ EvFetch u :: rest).
  rewrite ends_late_app by discriminate. unfold ends_late.
  destruct rest as [|x r] using rev_ind; [reflexivity|].
  change (EvFetch u :: r ++ [x]) with ((EvFetch u :: r) ++ [x]).
  rewrite rev_app_distr. cbn [rev app].
  rewrite forallb_app in H. apply andb_prop in H as [_ H]. cbn in H.
  destruct x; try reflexivity; discriminate.
Qed.

(** The record of a whole run of the loop. *)
Lemma loop_record (fuel : nat) (st : state) r st' :
  loop fuel st = Some (r, st') ->
  exists evs,
    evs <> [] /\
    trace st' = trace st ++ evs /\
    timed deadline_ts evs = true /\
    steps st' = steps st + successes evs /\
    (ends_late deadline_ts evs = true ->
     r = Raise (TimeoutError (lit "Time budget exceeded."))).
Proof.
  revert st. induction fuel as [|fuel IH]; intros st; [discriminate|].
  cbn [Quiz.loop].
  destruct (iteration_summary st) as (evs & Htr & Hst & _ & Hturn).
  set (t := fst (time_time env (world st))) in *.
  destruct (iteration st) as [[[res|]|e] st1] eqn:Ei; cbn [fst snd] in *.
  - (* the chain is done *)
    intros [= <- <-]. exists (EvTime t :: evs). split; [discriminate|].
    split; [exact Htr|].
    destruct (PrimFloat.leb deadline_ts t) eqn:El.
    + destruct Hturn as [_ Hr]. discriminate.
    + destruct Hturn as (rest & -> & Hin). cbn [timed]. rewrite El.
      rewrite <- (app_nil_r rest), (timed_inner _ _ _ Hin). split; [reflexivity|].
      rewrite app_nil_r. split; [|rewrite (ends_late_inner _ _ _ _ Hin); discriminate].
      rewrite Hst. unfold successes. reflexivity.
  - (* continue *)
    intros Hl. destruct (IH _ Hl) as (evs2 & Hne & Htr2 & Htimed2 & Hst2 & Hlate2).
    destruct (PrimFloat.leb deadline_ts t) eqn:El.
    + destruct Hturn as [_ Hr]. discriminate.
    + destruct Hturn as (rest & -> & Hin).
      exists ((EvTime t :: EvFetch (current_url st) :: rest) ++ evs2).
      split; [discriminate|]. split; [rewrite Htr2, Htr, <- app_assoc; reflexivity|].
      split; [cbn [app timed]; rewrite El, (timed_inner _ _ _ Hin); exact Htimed2|].
      assert (Hs : successes ((EvTime t :: EvFetch (current_url st) :: rest) ++ evs2)
                   = successes (EvFetch (current_url st) :: rest) + successes evs2).
      { rewrite successes_app. reflexivity. }
      split; [rewrite Hs, Hst2, Hst; lia|].
      rewrite (ends_late_app _ _ _ Hne). exact Hlate2.
  - (* an exception ends the chain *)
    intros [= <- <-]. exists (EvTime t :: evs). split; [discriminate|].
    split; [exact Htr|].
    destruct (PrimFloat.leb deadline_ts t) eqn:El.
    + destruct Hturn as [-> He]. injection He as ->.
      cbn [timed]. rewrite El. split; [reflexivity|].
      split; [exact Hst|]. intros _. reflexivity.
    + destruct Hturn as (rest & -> & Hin). cbn [timed]. rewrite El.
      rewrite <- (app_nil_r rest), (timed_inner _ _ _ Hin). split; [reflexivity|].
      rewrite app_nil_r. split; [|rewrite (ends_late_inner _ _ _ _ Hin); discriminate].
      rewrite Hst. unfold successes. reflexivity.
Qed.

Lemma loop_raise (st : state) e st' fuel :
  iteration st = (Raise e, st') -> loop (S fuel) st = Some (Raise e, st').
Proof. intros H. cbn [Quiz.loop]. rewrite H. reflexivity. Qed.

Lemma loop_timeout (st : state) fuel :
  PrimFloat.leb deadline_ts (fst (time_time env (world st))) = true ->
  loop (S fuel) st =
  Some (Raise (TimeoutError (lit "Time budget exceeded.")),
        with_world (snd (time_time env (world st)))
                   (EvTime (fst (time_time env (world st)))) st).
Proof.
  intros H. destruct (iteration_cases st) as (t & w1 & Et & Hc).
  rewrite Et in *. cbn [fst snd] in *. rewrite H in Hc.
  apply loop_raise. exact Hc.
Qed.

(** C2. The deadline is checked before each fetch and never inside a step.
    (1) If the clock reading at the top of a turn is at or past the deadline,
    the loop ends there with [TimeoutError]: the reading is the only event,
    no fetch is attempted and the step counter is untouched.  (2) In every
    turn the clock is read once, first; otherwise the fetch comes next and
    the clock is not read again during the step; [steps] grows by the number
    of submissions completed in the turn, that is by one or by nothing.
    (3) Whenever the loop ends, its whole record obeys this discipline
    ([timed]), [steps] has grown by exactly the number of completed
    submissions, and a record that ends with a late clock reading comes with
    [TimeoutError].  The deadline is the fixed argument [deadline_ts]. *)
Theorem deadline_checked_before_each_fetch :
  (forall (st : state) fuel,
      PrimFloat.leb deadline_ts (fst (time_time env (world st))) = true ->
      loop (S fuel) st =
      Some (Raise (TimeoutError (lit "Time budget exceeded.")),
            with_world (snd (time_time env (world st)))
                       (EvTime (fst (time_time env (world st)))) st)) /\
  (forall (st : state),
      exists evs,
        trace (snd (iteration st)) =
          trace st ++ EvTime (fst (time_time env (world st))) :: evs /\
        steps (snd (iteration st)) = steps st + successes evs /\
        successes evs <= 1 /\
        if PrimFloat.leb deadline_ts (fst (time_time env (world st)))
        then evs = [] /\
             fst (iteration st) = Raise (TimeoutError (lit "Time budget exceeded."))
        else exists rest, evs = EvFetch (current_url st) :: rest /\
                          forallb inner rest = true) /\
  (forall fuel (st : state) r st',
      loop fuel st = Some (r, st') ->
      exists evs,
        evs <> [] /\
        trace st' = trace st ++ evs /\
        timed deadline_ts evs = true /\
        steps st' = steps st + successes evs /\
        (ends_late deadline_ts evs = true ->
         r = Raise (TimeoutError (lit "Time budget exceeded.")))).
Proof.
  split; [|split].
  - intros st fuel. apply loop_timeout.
  - intros st. destruct (iteration_summary st) as (evs & H1 & H2 & H3 & H4).
    exists evs. auto.
  - intros fuel st r st'. apply loop_record.
Qed.

Lemma last_event_eq (A : Type) (a b : list A) (x y : A) :
  a ++ [x] = b ++ [y] -> x = y.
Proof. intros H. apply app_inj_tail in H. tauto. Qed.

(** A record that ends with a fetch followed by downloads does not end with
    a POST. *)
Lemma not_ending_in_post pre u gets tr su body rr :
  forallb is_get gets = true ->
  pre ++ EvFetch u :: gets = tr ++ [EvPost su body rr] -> False.
Proof.
  intros Hg H. destruct gets as [|g gets'] using rev_ind.
  - change (pre ++ [EvFetch u] = tr ++ [EvPost su body rr]) in H.
    apply last_event_eq in H. discriminate.
  - rewrite forallb_app in Hg. apply andb_prop in Hg as [_ Hg]. cbn in Hg.
    change (EvFetch u :: gets' ++ [g]) with ((EvFetch u :: gets') ++ [g]) in H.
    rewrite app_assoc in H. apply last_event_eq in H. subst g. discriminate.
Qed.

(** What happens after a submission that completed: the step counter grows
    by one; the chain goes on exactly when the body is an object whose [url]
    entry is truthy, and otherwise returns the step count, the last URL and
    the status code of that submission. *)
Lemma after_successful_submission (st : state) r st' tr su body resp data :
  iteration st = (r, st') ->
  trace st' = tr ++ [EvPost su body (Ok resp)] ->
  successful (EvPost su body (Ok resp)) = true ->
  resp_json resp = Ok data ->
  steps st' = S (steps st) /\
  if truthy (next_url_of data)
  then r = Ok None /\ current_url st' = next_url_of data
  else r = Ok (Some {| r_steps := S (steps st); r_last_url := current_url st;
                       r_last_submit_status := Some (status_code resp) |}) /\
       current_url st' = current_url st.
Proof.
  intros Hi Htr Hsucc Hdata.
  destruct (iteration_cases st) as (t & w1 & Et & H).
  destruct (PrimFloat.leb deadline_ts t).
  - rewrite H in Hi. injection Hi as <- <-. cbn in Htr.
    apply last_event_eq in Htr. discriminate.
  - destruct H as (gets & Hg & [(e & st1 & He & A)|(su' & a & st1 & A & He)]).
    + rewrite He in Hi. injection Hi as <- <-.
      destruct A as (_ & _ & _ & A4). rewrite A4 in Htr.
      change (trace st ++ EvTime t :: EvFetch (current_url st) :: gets)
        with (trace st ++ [EvTime t] ++ EvFetch (current_url st) :: gets) in Htr.
      rewrite app_assoc in Htr. exfalso. eapply not_ending_in_post; eauto.
    + destruct A as (A1 & A2 & _ & _).
      destruct (submit_cases su' a st1) as (rr & st2 & S0 & S1 & S2 & S4 & S5).
      rewrite He in Hi.
      destruct (submit su' a st1) as [[data'|e] st2'] eqn:Es; cbn [fst snd] in S0, S5;
        subst st2'.
      * destruct S5 as (resp' & -> & Hj & _ & Hstatus).
        destruct (follow_cases data' st2) as (F1 & F2 & F3 & F4).
        rewrite Hi in F1, F2, F3, F4. cbn [fst snd] in F1, F2, F3, F4.
        rewrite F1, S4 in Htr. apply last_event_eq in Htr. injection Htr as _ _ ->.
        rewrite Hdata in Hj. injection Hj as <-.
        split; [rewrite F2, S1, A1; reflexivity|].
        destruct (truthy (next_url_of data)).
        -- exact F4.
        -- destruct F4 as [-> ->]. rewrite S1, S2, A1, A2, Hstatus. auto.
      * injection Hi as <- <-. rewrite S4 in Htr. apply last_event_eq in Htr.
        rewrite <- Htr in Hsucc. congruence.
Qed.

(** [int] reads a string of at most 4300 digits. *)
Lemma py_int_digits ds :
  length ds <= int_max_str_digits -> py_int ds = Ok (digits_value ds).
Proof.
  intros H. unfold py_int.
  destruct (Nat.ltb_spec int_max_str_digits (length ds)); [lia | reflexivity].
Qed.

Lemma py_int_refused ds :
  int_max_str_digits < length ds ->
  py_int ds =
  Raise (ValueError
           (lit "Exceeds the limit (4300 digits) for integer string conversion: value has "
            ++ str_of_nat (length ds)
            ++ lit " digits; use sys.set_int_max_str_digits() to increase the limit")).
Proof.
  intros H. unfold py_int.
  destruct (Nat.ltb_spec int_max_str_digits (length ds)); [reflexivity | lia].
Qed.

(** Once the page is read, the turn is what [solve_page] does with it. *)
Lemma iteration_read [st : state] [t w1 html w2 expanded] :
  reads st t w1 html w2 expanded ->
  iteration st = solve_page html expanded (page_state st t w1 w2).
Proof.
  intros (Et & El & Ef & Ed). unfold iteration, Quiz.iteration.
  rewrite mbind_eq, (now_eq Et). cbv beta iota. rewrite El.
  rewrite mbind_eq, get_current_url_eq. cbv beta iota.
  change (current_url (with_world w1 (EvTime t) st)) with (current_url st).
  rewrite mbind_eq, (fetch_eq (st := with_world w1 (EvTime t) st) Ef). cbv beta iota.
  rewrite mbind_eq, lift_eq, Ed. reflexivity.
Qed.

Lemma page_state_trace (st : state) t w1 w2 :
  trace (page_state st t w1 w2) = trace st ++ [EvTime t; EvFetch (current_url st)].
Proof. unfold page_state. cbn. rewrite <- app_assoc. reflexivity. Qed.

Lemma value_column_none df :
  (forall name cells, In (name, cells) df -> str_eqb (lower name) (lit "value") = false) ->
  value_column df = None.
Proof.
  induction df as [|[name cells] df IH]; intros H; cbn [value_column]; [reflexivity|].
  rewrite IH by (intros; eapply H; right; eauto).
  rewrite (H name cells) by (left; reflexivity). reflexivity.
Qed.

(** C10. When neither the PDF task pattern nor the row-count pattern occurs
    in the text of an ASCII page, the page links a csv/json/xlsx file, and
    the table parsed from that file has no column named [value] in any
    letter case, the step fails with [RuntimeError("No solver matched. Extend
    heuristics.")]: after the download nothing else happens, in particular
    nothing is submitted.  (On ASCII text the patterns of the two earlier
    heuristics are read here exactly as [re] reads them; the column labels
    are strings, as the type [dataframe] has them.) *)
Theorem no_value_column_no_answer (st : state) t w1 html w2 expanded su
        data_url more data_bytes w3 df :
  reads st t w1 html w2 expanded ->
  forallb is_ascii expanded = true ->
  resolve_submit_url env (page_text expanded) expanded = Ok su ->
  search I PDF_TASK_RE (page_text expanded) = None ->
  search I ROWS_RE (page_text expanded) = None ->
  findall1 I DATA_LINK_RE expanded = data_url :: more ->
  http_get_bytes env data_url w2 = (Ok data_bytes, w3) ->
  load_dataframe env data_url data_bytes = Ok df ->
  (forall name cells, In (name, cells) df -> str_eqb (lower name) (lit "value") = false) ->
  exists st',
    iteration st = (Raise (RuntimeError (lit "No solver matched. Extend heuristics.")), st') /\
    (forall fuel,
        loop (S fuel) st
        = Some (Raise (RuntimeError (lit "No solver matched. Extend heuristics.")), st')) /\
    trace st' = trace st ++ [EvTime t; EvFetch (current_url st); EvGet data_url] /\
    steps st' = steps st.
Proof.
  intros Hr _ Hs Hpdf Hrows Hlinks Hget Hdf Hcols.
  assert (Hgoal : exists st',
    iteration st = (Raise (RuntimeError (lit "No solver matched. Extend heuristics.")), st') /\
    trace st' = trace st ++ [EvTime t; EvFetch (current_url st); EvGet data_url] /\
    steps st' = steps st);
    [|destruct Hgoal as (st' & Hi & Ht & Hn); exists st';
      repeat split; auto; intros; apply loop_raise; exact Hi].
  rewrite (iteration_read Hr). unfold solve_page, Quiz.solve_page.
  rewrite mbind_eq, lift_eq, Hs. cbv beta iota.
  rewrite mbind_eq. unfold heuristic_pdf. rewrite Hpdf. unfold ret at 1. cbv beta iota.
  unfold heuristic_rows. rewrite Hrows.
  rewrite mbind_eq. unfold heuristic_tabular. rewrite Hlinks.
  rewrite mbind_eq. unfold download.
  change (world (page_state st t w1 w2)) with w2. rewrite Hget. cbv beta iota.
  rewrite mbind_eq, lift_eq, Hdf. cbv beta iota.
  rewrite (value_column_none df Hcols). unfold ret at 1. cbv beta iota.
  eexists. split; [reflexivity|]. cbn [trace with_world steps]. split; [|reflexivity].
  rewrite page_state_trace, <- app_assoc. reflexivity.
Qed.

(** C3 (amended). When the text of an ASCII page matches the PDF task
    pattern with a page number that [int] accepts (at most 4300 digits), and
    the sum cannot be computed from the ASCII content of the linked PDF
    ([sum_value_column_pdf_pdfplumber] gives [None]: no such page, no table
    or text line with the column, or an error inside the PDF reader, which
    that function swallows), the step fails with
    [RuntimeError("Failed to compute sum from PDF.")].  Whatever else the
    page contains, no later heuristic is tried and nothing is submitted. *)
Theorem pdf_failure_is_fatal (st : state) t w1 html w2 expanded su m link more
        pdf_bytes w3 :
  reads st t w1 html w2 expanded ->
  forallb is_ascii expanded = true ->
  resolve_submit_url env (page_text expanded) expanded = Ok su ->
  search I PDF_TASK_RE (page_text expanded) = Some m ->
  length (match group 2 m with Some g => g | None => [] end) <= int_max_str_digits ->
  findall1 I PDF_LINK_RE expanded = link :: more ->
  http_get_bytes env link w2 = (Ok pdf_bytes, w3) ->
  ascii_pdf (pdfplumber env) pdf_bytes = true ->
  sum_value_column_pdf_pdfplumber (pdfplumber env) pdf_bytes
    (strip (match group 1 m with Some g => g | None => [] end))
    (digits_value (match group 2 m with Some g => g | None => [] end)) = None ->
  exists st',
    iteration st = (Raise (RuntimeError (lit "Failed to compute sum from PDF.")), st') /\
    (forall fuel,
        loop (S fuel) st
        = Some (Raise (RuntimeError (lit "Failed to compute sum from PDF.")), st')) /\
    trace st' = trace st ++ [EvTime t; EvFetch (current_url st); EvGet link] /\
    steps st' = steps st.
Proof.
  intros Hr _ Hs Hpdf Hlen Hlinks Hget _ Hsum.
  assert (Hgoal : exists st',
    iteration st = (Raise (RuntimeError (lit "Failed to compute sum from PDF.")), st') /\
    trace st' = trace st ++ [EvTime t; EvFetch (current_url st); EvGet link] /\
    steps st' = steps st);
    [|destruct Hgoal as (st' & Hi & Ht & Hn); exists st';
      repeat split; auto; intros; apply loop_raise; exact Hi].
  rewrite (iteration_read Hr). unfold solve_page, Quiz.solve_page.
  rewrite mbind_eq, lift_eq, Hs. cbv beta iota.
  rewrite mbind_eq. unfold heuristic_pdf. rewrite Hpdf.
  rewrite mbind_eq, lift_eq, py_int_digits by exact Hlen. cbv beta iota. rewrite Hlinks.
  rewrite mbind_eq. unfold download.
  change (world (page_state st t w1 w2)) with w2. rewrite Hget. cbv beta iota.
  rewrite Hsum. unfold raise at 1.
  eexists. split; [reflexivity|]. cbn [trace with_world steps]. split; [|reflexivity].
  rewrite page_state_trace, <- app_assoc. reflexivity.
Qed.

(** Errors of the PDF reader do not leave [sum_value_column_pdf_pdfplumber]. *)
Lemma pdf_reader_errors_swallowed (open : bytes -> result (list page)) pdf_bytes col n e :
  open pdf_bytes = Raise e ->
  sum_value_column_pdf_pdfplumber (Some open) pdf_bytes col n = None.
Proof. intros H. unfold sum_value_column_pdf_pdfplumber. rewrite H. reflexivity. Qed.

(** C4. The submission target is the URL captured by the first match of the
    text directive ([submit to <url>] or [POST to <url>], any letter case)
    when there is one; only otherwise is it the [submit] entry of the
    embedded JSON block; and when neither gives anything the step fails with
    [RuntimeError("Submit URL not found on the quiz page.")] right after the
    page is read, which the endpoint reports as a failure with that text. *)
Theorem submit_url_resolution (text expanded : str) :
  (forall u,
      extract_submit_url text = Some u ->
      u <> [] /\
      resolve_submit_url env text expanded = Ok (JStr u) /\
      exists pre rest m,
        text = pre ++ rest /\
        match_at I SUBMIT_URL_RE (prev_of None pre) (length pre) rest = Some m /\
        group 1 m = Some u /\
        forall pre1 rest1,
          text = pre1 ++ rest1 -> length pre1 < length pre ->
          match_at I SUBMIT_URL_RE (prev_of None pre1) (length pre1) rest1 = None) /\
  (extract_submit_url text = None ->
   resolve_submit_url env text expanded =
   match find_embedded_json_payload env expanded with
   | Some (JDict items) =>
       if truthy (dict_get (lit "submit") items)
       then Ok (dict_get (lit "submit") items)
       else Raise (RuntimeError (lit "Submit URL not found on the quiz page."))
   | Some v =>
       if truthy v then Raise AttributeError
       else Raise (RuntimeError (lit "Submit URL not found on the quiz page."))
   | None => Raise (RuntimeError (lit "Submit URL not found on the quiz page."))
   end) /\
  (forall (st : state) t w1 html w2 e fuel,
      text = page_text expanded ->
      reads st t w1 html w2 expanded ->
      resolve_submit_url env text expanded = Raise e ->
      iteration st = (Raise e, page_state st t w1 w2) /\
      loop (S fuel) st = Some (Raise e, page_state st t w1 w2)) /\
  quiz_endpoint (Raise (RuntimeError (lit "Submit URL not found on the quiz page.")))
  = Failure (lit "Submit URL not found on the quiz page.").
Proof.
  split; [|split; [|split]].
  - intros u Hu. pose proof Hu as Hx. unfold extract_submit_url in Hu.
    destruct (search I SUBMIT_URL_RE text) as [m|] eqn:Es; [|discriminate].
    unfold search in Es. apply search_from_leftmost in Es as (pre & rest & Ht & Hm & Hno).
    assert (Hne : u <> []).
    { eapply (match_at_group_nonempty I SUBMIT_URL_RE); eauto. }
    split; [exact Hne|]. split.
    + unfold resolve_submit_url. rewrite Hx. cbn [truthy].
      destruct u; [contradiction|]. reflexivity.
    + exists pre, rest, m. cbn [Nat.add] in Hm. auto.
  - intros Hx. unfold resolve_submit_url. rewrite Hx. cbn [truthy negb].
    destruct (find_embedded_json_payload env expanded) as [v|]; [|reflexivity].
    destruct v; cbn [truthy]; try reflexivity.
    + destruct b; reflexivity.
    + destruct (negb (z =? 0)%Z); reflexivity.
    + destruct (negb (PrimFloat.eqb f zero)); reflexivity.
    + destruct (negb (length s =? 0)); reflexivity.
    + destruct (negb (length l =? 0)); reflexivity.
    + destruct items as [|kv items]; cbn [length Nat.eqb negb bind truthy];
        [reflexivity|].
      destruct (truthy (dict_get (lit "submit") (kv :: items))); reflexivity.
  - intros st t w1 html w2 e fuel -> Hr He.
    assert (Hi : iteration st = (Raise e, page_state st t w1 w2)).
    { rewrite (iteration_read Hr). unfold solve_page, Quiz.solve_page.
      rewrite mbind_eq, lift_eq, He. reflexivity. }
    split; [exact Hi | apply loop_raise; exact Hi].
  - reflexivity.
Qed.

End Facts.

End ChainFacts.

(* ================================================================== *)
(** * The chain on concrete pages *)

Module Runs.
Import Py Re Codec Num Quiz Scenario Ref Shape ChainFacts.

(** C1 (amended). With replies that name the next page twice and then an
    empty object, the chain ends normally and reports three steps.  In
    general, after a submission that completed, the step counter grows by one
    and the chain goes on exactly when the parsed body is a JSON object whose
    [url] entry is truthy (present, and not null, empty, zero or false);
    otherwise it returns the step count, the last URL and the status code of
    that submission. *)
Theorem chain_continues_on_truthy_url :
  (forall k, exists st',
      solve_quiz_chain (scripted three_steps) me secret budget (3 + k) first_url three_steps
      = Some (Ok {| r_steps := 3; r_last_url := JStr (lit "http://q.test/3");
                    r_last_submit_status := Some 200%Z |}, st') /\
      steps st' = 3 /\ fetches (trace st') = 3 /\ posts (trace st') = 3) /\
  (forall (World : Type) (env : collaborators World) (email secret : str)
          (deadline_ts : float) (st : state World) r st' tr su body resp data,
      iteration env email secret deadline_ts st = (r, st') ->
      trace st' = tr ++ [EvPost su body (Ok resp)] ->
      successful (EvPost su body (Ok resp)) = true ->
      resp_json resp = Ok data ->
      steps st' = S (steps st) /\
      if truthy (next_url_of data)
      then r = Ok None /\ current_url st' = next_url_of data
      else r = Ok (Some {| r_steps := S (steps st); r_last_url := current_url st;
                           r_last_submit_status := Some (status_code resp) |}) /\
           current_url st' = current_url st).
Proof.
  split.
  - intros k. eexists. split; [lazy; reflexivity|]. repeat split.
  - intros. eapply after_successful_submission; eauto.
Qed.

(** The general rule at work on the first step of [three_steps]. *)
Lemma chain_continues_on_truthy_url_witness :
  exists r st',
    iteration (scripted three_steps) me secret budget (initial first_url three_steps)
    = (r, st') /\
    steps st' = 1 /\ r = Ok None /\ current_url st' = JStr (lit "http://q.test/2").
Proof.
  do 2 eexists. split; [lazy; reflexivity|].
  pose proof (proj2 chain_continues_on_truthy_url script (scripted three_steps) me secret
                budget (initial first_url three_steps) _ _
                [EvTime 0%float; EvFetch (JStr first_url)]
                (JStr (lit "http://q.test/submit"))
                {| p_email := me; p_secret := secret; p_url := JStr first_url;
                   p_answer := NInt 3 |}
                {| status_code := 200; status_error := [];
                   resp_json := Ok (JDict [(lit "url", JStr (lit "http://q.test/2"))]) |}
                (JDict [(lit "url", JStr (lit "http://q.test/2"))])
                eq_refl eq_refl eq_refl eq_refl) as [H1 H2].
  split; [exact H1|]. exact H2.
Defined.

(** C1 (as stated) fails: a body that contains a [url] field whose value is
    [null] ends the chain, although another page and another reply were
    there. *)
Lemma null_url_ends_the_chain :
  has_url_field (JDict [(lit "url", JNull)]) = true /\
  exists st',
    solve_quiz_chain (scripted null_url) me secret budget 5 first_url null_url
    = Some (Ok {| r_steps := 1; r_last_url := JStr first_url;
                  r_last_submit_status := Some 200%Z |}, st') /\
    fetches (trace st') = 1 /\ posts (trace st') = 1.
Proof. split; [reflexivity|]. eexists. split; [lazy; reflexivity|]. split; reflexivity. Qed.

(** The deadline discipline on a run that times out after one step. *)
Lemma deadline_checked_before_each_fetch_witness :
  exists r st',
    loop (scripted late) me secret budget 5 (initial first_url late) = Some (r, st') /\
    r = Raise (TimeoutError (lit "Time budget exceeded.")) /\
    steps st' = 1 /\ fetches (trace st') = 1 /\
    exists evs,
      evs <> [] /\
      trace st' = trace (initial first_url late) ++ evs /\
      timed budget evs = true /\
      steps st' = steps (initial first_url late) + successes evs /\
      (ends_late budget evs = true ->
       r = Raise (TimeoutError (lit "Time budget exceeded."))).
Proof.
  do 2 eexists. split; [lazy; reflexivity|]. repeat split.
  apply (proj2 (proj2 (deadline_checked_before_each_fetch script (scripted late) me
                         secret budget)) 5).
  lazy; reflexivity.
Defined.

(** C3 (as stated) fails: the page asks for a PDF column sum and for a row
    count.  The PDF has no page 2, so the sum is absent; the row-count
    heuristic would answer 2 and a reply was waiting, but the chain stops
    with an error and submits nothing. *)
Lemma pdf_failure_stops_the_chain :
  heuristic_rows None (page_text pdf_rows_page) pdf_rows_page = Some (NInt 2) /\
  exists st',
    solve_quiz_chain (scripted short_pdf) me secret budget 5 first_url short_pdf
    = Some (Raise (RuntimeError (lit "Failed to compute sum from PDF.")), st') /\
    posts (trace st') = 0 /\ steps st' = 0.
Proof.
  split; [lazy; reflexivity|]. eexists. split; [lazy; reflexivity|]. split; reflexivity.
Qed.

Lemma pdf_failure_is_fatal_witness :
  exists st',
    iteration (scripted short_pdf) me secret budget (initial first_url short_pdf)
    = (Raise (RuntimeError (lit "Failed to compute sum from PDF.")), st') /\
    (forall fuel,
        loop (scripted short_pdf) me secret budget (S fuel) (initial first_url short_pdf)
        = Some (Raise (RuntimeError (lit "Failed to compute sum from PDF.")), st')) /\
    trace st' = trace (initial first_url short_pdf) ++
                [EvTime 0%float; EvFetch (JStr first_url);
                 EvGet (lit "http://q.test/report.pdf")] /\
    steps st' = steps (initial first_url short_pdf).
Proof.
  eapply (pdf_failure_is_fatal script (scripted short_pdf) me secret budget
            (initial first_url short_pdf)).
  - unfold reads. repeat split; lazy; reflexivity.
  - vm_compute; reflexivity.
  - lazy; reflexivity.
  - lazy; reflexivity.
  - apply Nat.leb_le. vm_compute; reflexivity.
  - lazy; reflexivity.
  - lazy; reflexivity.
  - vm_compute; reflexivity.
  - lazy; reflexivity.
Defined.

(** The three cases of the submission target on concrete pages: the text
    directive wins, the JSON block is the fallback, and a page with neither
    makes the chain fail. *)
Lemma submit_url_resolution_witness :
  (extract_submit_url (page_text rows_page) = Some (lit "http://q.test/submit") /\
   resolve_submit_url (scripted three_steps) (page_text rows_page) rows_page
   = Ok (JStr (lit "http://q.test/submit"))) /\
  (extract_submit_url (page_text json_target_page) = None /\
   resolve_submit_url (scripted three_steps) (page_text json_target_page) json_target_page
   = Ok (JStr (lit "http://q.test/json-submit"))) /\
  (exists st',
     loop (scripted (world_of [0%float] [] [] [] no_target_page)) me secret budget 1
          (initial first_url (world_of [0%float] [] [] [] no_target_page))
     = Some (Raise (RuntimeError (lit "Submit URL not found on the quiz page.")), st') /\
     posts (trace st') = 0).
Proof.
  split; [|split].
  - assert (H : extract_submit_url (page_text rows_page) = Some (lit "http://q.test/submit"))
      by (lazy; reflexivity).
    split; [exact H|].
    apply (proj1 (submit_url_resolution script (scripted three_steps) me secret budget
                    (page_text rows_page) rows_page) _ H).
  - assert (H : extract_submit_url (page_text json_target_page) = None)
      by (lazy; reflexivity).
    split; [exact H|].
    rewrite (proj1 (proj2 (submit_url_resolution script (scripted three_steps) me secret
                             budget (page_text json_target_page) json_target_page)) H).
    lazy; reflexivity.
  - set (w0 := world_of [0%float] [] [] [] no_target_page).
    assert (Hr : reads (scripted w0) budget (initial first_url w0) 0%float
                   (snd (tick w0)) no_target_page (snd (tick w0)) no_target_page)
      by (unfold reads; repeat split; lazy; reflexivity).
    assert (He : resolve_submit_url (scripted w0) (page_text no_target_page) no_target_page
                 = Raise (RuntimeError (lit "Submit URL not found on the quiz page.")))
      by (lazy; reflexivity).
    destruct (proj1 (proj2 (proj2 (submit_url_resolution script (scripted w0) me secret
                                     budget (page_text no_target_page) no_target_page)))
                _ _ _ _ _ _ 0 eq_refl Hr He) as [_ Hl].
    eexists. split; [exact Hl|]. lazy; reflexivity.
Defined.

(** C8. The table with header [item, value] and the rows [a, 10] and
    [b, 2.5], column [value], sums to the float 12.5.  But a sum is reported
    as an integer only when it lies within 1e-9 above an integer (in
    magnitude), because [int] truncates: 0.7, 0.1, 0.1 and 0.1 add up to
    0.9999999999999999 in binary64, within 1e-9 of 1, and are reported as that
    float; so is the single value 2.9999999995, within 1e-9 of 3. *)
Theorem pdf_column_sum_truncates :
  sum_value_column_pdf_pdfplumber (Some (open_pdf (table_report value_table)))
    report_pdf (lit "value") 1
  = Some (NFloat 12.5%float) /\
  sum_value_column_pdf_pdfplumber (Some (open_pdf (table_report tenths_table)))
    report_pdf (lit "value") 1
  = Some (NFloat 0x1.fffffffffffffp-1%float) /\
  PrimFloat.ltb (PrimFloat.abs (PrimFloat.sub 0x1.fffffffffffffp-1 1)) tolerance = true /\
  sum_value_column_pdf_pdfplumber (Some (open_pdf (table_report near_three_table)))
    report_pdf (lit "value") 1
  = Some (NFloat 0x1.7ffffffeed1f4p+1%float) /\
  PrimFloat.ltb (PrimFloat.abs (PrimFloat.sub 0x1.7ffffffeed1f4p+1 3)) tolerance = true.
Proof. repeat split; vm_compute; reflexivity. Qed.

(** C9. A page that links a CSV file whose column [Value] holds 5, 10, bad
    and 15: the cell that is not a number counts as zero, and the answer
    submitted is the integer 30. *)
Theorem csv_value_sum_is_30 :
  exists st',
    solve_quiz_chain (scripted (csv_world value_csv)) me secret budget 5 first_url
                     (csv_world value_csv)
    = Some (Ok {| r_steps := 1; r_last_url := JStr first_url;
                  r_last_submit_status := Some 200%Z |}, st') /\
    answers (trace st') = [NInt 30] /\
    pd_read_csv (scripted (csv_world value_csv)) value_csv
    = Ok [(lit "Value", [CStr (lit "5"); CStr (lit "10"); CStr (lit "bad"); CStr (lit "15")])] /\
    List.map to_numeric_or_zero
      [CStr (lit "5"); CStr (lit "10"); CStr (lit "bad"); CStr (lit "15")]
    = [5; 10; 0; 15]%float.
Proof.
  eexists. split; [lazy; reflexivity|]. repeat split; vm_compute; reflexivity.
Qed.

Lemma no_value_column_no_answer_witness :
  exists st',
    iteration (scripted (csv_world amount_csv)) me secret budget
              (initial first_url (csv_world amount_csv))
    = (Raise (RuntimeError (lit "No solver matched. Extend heuristics.")), st') /\
    (forall fuel,
        loop (scripted (csv_world amount_csv)) me secret budget (S fuel)
             (initial first_url (csv_world amount_csv))
        = Some (Raise (RuntimeError (lit "No solver matched. Extend heuristics.")), st')) /\
    trace st' = trace (initial first_url (csv_world amount_csv)) ++
                [EvTime 0%float; EvFetch (JStr first_url);
                 EvGet (lit "http://q.test/data.csv")] /\
    steps st' = steps (initial first_url (csv_world amount_csv)).
Proof.
  eapply (no_value_column_no_answer script (scripted (csv_world amount_csv)) me secret
            budget (initial first_url (csv_world amount_csv))).
  - unfold reads. repeat split; lazy; reflexivity.
  - vm_compute; reflexivity.
  - lazy; reflexivity.
  - lazy; reflexivity.
  - lazy; reflexivity.
  - lazy; reflexivity.
  - lazy; reflexivity.
  - lazy; reflexivity.
  - intros name cells [H|[H|[]]]; injection H as <- _; vm_compute; reflexivity.
Defined.

End Runs.

(* ================================================================== *)
(** * normalize_ws: the normal form *)

Module NormalizeMore.
Import Py Re Quiz Ref Shape ReFacts NormalizeFacts.

Lemma filter_collapse b s :
  filter not_space (collapse b s) = filter not_space s.
Proof.
  revert b; induction s as [|c s IH]; intros b; simpl; auto.
  unfold not_space at 2. destruct (is_space c) eqn:E; simpl.
  - destruct b; [apply IH|]. simpl. apply IH.
  - unfold not_space at 1. rewrite E. simpl. rewrite IH. reflexivity.
Qed.

Lemma filter_lstrip s : filter not_space (lstrip s) = filter not_space s.
Proof.
  induction s as [|c s IH]; simpl; auto.
  unfold not_space at 2. destruct (is_space c) eqn:E; simpl; auto.
  unfold not_space at 1. rewrite E. reflexivity.
Qed.

Lemma filter_rev (A : Type) (p : A -> bool) l : filter p (rev l) = rev (filter p l).
Proof.
  induction l as [|x l IH]; simpl; auto.
  rewrite filter_app, IH. simpl. destruct (p x); simpl; [reflexivity|].
  rewrite app_nil_r. reflexivity.
Qed.

Lemma filter_strip s : filter not_space (strip s) = filter not_space s.
Proof.
  unfold strip, rstrip.
  rewrite filter_rev, filter_lstrip, filter_rev, rev_involutive, filter_lstrip.
  reflexivity.
Qed.

Lemma filter_not_space_nil s :
  filter not_space s = [] <-> forallb is_space s = true.
Proof.
  induction s as [|c s IH]; simpl; [tauto|].
  unfold not_space at 1. destruct (is_space c); simpl; [exact IH|].
  split; discriminate.
Qed.

Lemma lstrip_all_space s : forallb is_space s = true -> lstrip s = [].
Proof.
  induction s as [|c s IH]; simpl; auto.
  destruct (is_space c); simpl; [exact IH | discriminate].
Qed.

Lemma no_space_at_head_lstrip s : no_space_at_head (lstrip s) = true.
Proof.
  pose proof (lstrip_head_not_space s) as H.
  destruct (lstrip s); simpl; auto. rewrite H. reflexivity.
Qed.

Lemma trimmed_strip s : trimmed (strip s) = true.
Proof.
  unfold trimmed. apply andb_true_intro. split.
  - unfold strip. rewrite <- lstrip_rstrip_lstrip. apply no_space_at_head_lstrip.
  - unfold strip, rstrip. rewrite rev_involutive. apply no_space_at_head_lstrip.
Qed.

Lemma lstrip_no_space_at_head s : no_space_at_head s = true -> lstrip s = s.
Proof.
  destruct s as [|c s]; simpl; auto.
  destruct (is_space c); [discriminate | reflexivity].
Qed.

Lemma strip_trimmed s : trimmed s = true -> strip s = s.
Proof.
  unfold trimmed. intros H. apply andb_prop in H as [H1 H2].
  unfold strip, rstrip. rewrite (lstrip_no_space_at_head s H1).
  rewrite (lstrip_no_space_at_head _ H2). apply rev_involutive.
Qed.

(** X1. What [normalize_ws] returns is always in normal form: its only
    whitespace characters are single spaces, never two in a row, and it
    neither starts nor ends with one.  The result is the empty string exactly
    when the argument is [None], empty or made of whitespace only. *)
Theorem normalize_ws_normal_form (s : option str) :
  single_spaced false (normalize_ws s) = true /\
  trimmed (normalize_ws s) = true /\
  (normalize_ws s = [] <->
   forallb is_space (match s with Some x => x | None => [] end) = true).
Proof.
  unfold normalize_ws. rewrite sub_ws.
  set (x := match s with Some x => x | None => [] end).
  split; [apply single_spaced_strip, single_spaced_collapse|].
  split; [apply trimmed_strip|].
  split.
  - intros H. apply (proj1 (filter_not_space_nil x)).
    rewrite <- (filter_collapse false x), <- filter_strip, H. reflexivity.
  - intros H. apply (proj2 (filter_not_space_nil x)) in H.
    rewrite <- (filter_collapse false x) in H.
    apply (proj1 (filter_not_space_nil _)) in H.
    unfold strip. rewrite (lstrip_all_space _ H). reflexivity.
Qed.

(** X2. The strings that [normalize_ws] leaves unchanged are exactly the
    strings in normal form: single spaces as the only whitespace and no
    whitespace at either end. *)
Theorem normalize_ws_fixed_points (s : str) :
  normalize_ws (Some s) = s <->
  single_spaced false s = true /\ trimmed s = true.
Proof.
  split.
  - intros H. rewrite <- H. unfold normalize_ws. rewrite sub_ws.
    split; [apply single_spaced_strip, single_spaced_collapse | apply trimmed_strip].
  - intros [H1 H2]. unfold normalize_ws. rewrite sub_ws.
    rewrite (collapse_single_spaced false s H1). apply strip_trimmed. exact H2.
Qed.

(** X3. [normalize_ws] touches whitespace only: the characters that are not
    whitespace come out unchanged, all of them and in the same order. *)
Theorem normalize_ws_keeps_text (s : str) :
  filter not_space (normalize_ws (Some s)) = filter not_space s.
Proof.
  unfold normalize_ws. rewrite sub_ws, filter_strip. apply filter_collapse.
Qed.

End NormalizeMore.

(* ================================================================== *)
(** * The PDF column sum and the value column *)

Module SumFacts.
Import Py Re Codec Num Quiz Ref Shape Cases Scenario ReFacts NormalizeFacts.

(** Tables without the column are passed over. *)
Lemma tables_sum_skip col before rest :
  forallb (lacks_column col) before = true ->
  tables_sum col (before ++ rest) = tables_sum col rest.
Proof.
  induction before as [|tbl before IH]; [reflexivity|].
  cbn [forallb]. intros H. apply andb_prop in H as [H1 H2].
  destruct tbl as [|hdr data]; [discriminate|].
  cbn [app tables_sum]. unfold lacks_column, headers_of in H1.
  apply negb_true_iff in H1. rewrite H1. apply IH. exact H2.
Qed.

(** The function on a page that exists. *)
Lemma pdf_on_page open pdf_bytes col n pages pg :
  open pdf_bytes = Ok pages -> (1 <= n)%Z ->
  nth_error pages (Z.to_nat (n - 1)) = Some pg ->
  sum_value_column_pdf_pdfplumber (Some open) pdf_bytes col n =
  match
    bind (extract_tables pg) (fun tables =>
    bind (tables_sum col (match tables with Some t => t | None => [] end)) (fun r =>
    match r with
    | Some x => Ok (Some x)
    | None =>
        bind (extract_text pg) (fun text =>
        bind (text_sum col (splitlines (match text with Some t => t | None => [] end))
                       (zero, false)) (fun tf =>
        if snd tf then bind (int_if_integral (fst tf)) (fun x => Ok (Some x))
        else Ok None))
    end))
  with
  | Ok r => r
  | Raise _ => None
  end.
Proof.
  intros Ho Hn Hp. unfold sum_value_column_pdf_pdfplumber. rewrite Ho. cbn [bind].
  assert (Hlt : Z.to_nat (n - 1) < length pages).
  { apply nth_error_Some. rewrite Hp. discriminate. }
  replace ((n - 1 <? 0)%Z) with false by (symmetry; apply Z.ltb_ge; lia).
  replace ((Z.of_nat (length pages) <=? n - 1)%Z) with false
    by (symmetry; apply Z.leb_gt; lia).
  cbn [orb]. rewrite Hp. reflexivity.
Qed.

(** X4. A page number outside the document gives no sum: for page numbers
    below one (zero and negative numbers included) and for page numbers
    beyond the last page the function returns [None], whatever the document
    holds. *)
Theorem pdf_page_out_of_range open pdf_bytes col n pages :
  open pdf_bytes = Ok pages ->
  (n < 1 \/ Z.of_nat (length pages) < n)%Z ->
  sum_value_column_pdf_pdfplumber (Some open) pdf_bytes col n = None.
Proof.
  intros Ho Hn. unfold sum_value_column_pdf_pdfplumber. rewrite Ho. cbn [bind].
  destruct Hn as [Hn|Hn].
  - replace ((n - 1 <? 0)%Z) with true by (symmetry; apply Z.ltb_lt; lia).
    reflexivity.
  - replace ((Z.of_nat (length pages) <=? n - 1)%Z) with true
      by (symmetry; apply Z.leb_le; lia).
    rewrite orb_true_r. reflexivity.
Qed.

Lemma pdf_page_out_of_range_witness :
  sum_value_column_pdf_pdfplumber (Some (open_pdf (table_report value_table)))
    report_pdf (lit "value") 0 = None /\
  sum_value_column_pdf_pdfplumber (Some (open_pdf (table_report value_table)))
    report_pdf (lit "value") 2 = None.
Proof.
  split.
  - apply (pdf_page_out_of_range _ _ _ 0%Z
             [{| extract_tables := Ok (Some [value_table]); extract_text := Ok None |}]);
      [reflexivity | left; lia].
  - apply (pdf_page_out_of_range _ _ _ 2%Z
             [{| extract_tables := Ok (Some [value_table]); extract_text := Ok None |}]);
      [reflexivity | right; simpl; lia].
Defined.

(** X5. The first table that has the column decides the result, for a column
    name of ASCII characters: tables before it that lack the column are
    passed over, and neither the tables after it nor the text of the page are
    looked at.  The result is the one for a one-page document that holds this
    table alone. *)
Theorem pdf_first_table_with_column_decides
        open pdf_bytes col n pages pg before tbl after :
  forallb is_ascii col = true ->
  open pdf_bytes = Ok pages -> (1 <= n)%Z ->
  nth_error pages (Z.to_nat (n - 1)) = Some pg ->
  extract_tables pg = Ok (Some (before ++ tbl :: after)) ->
  forallb (lacks_column col) before = true ->
  has_column col tbl = true ->
  sum_value_column_pdf_pdfplumber (Some open) pdf_bytes col n =
  sum_value_column_pdf_pdfplumber (Some (open_one (page_of [tbl] None))) pdf_bytes col 1.
Proof.
  intros _ Ho Hn Hp Ht Hb Hc.
  rewrite (pdf_on_page open pdf_bytes col n pages pg Ho Hn Hp).
  rewrite (pdf_on_page (open_one (page_of [tbl] None)) pdf_bytes col 1
             [page_of [tbl] None] (page_of [tbl] None) eq_refl ltac:(lia) eq_refl).
  rewrite Ht. cbn [bind page_of extract_tables extract_text].
  rewrite (tables_sum_skip col before (tbl :: after) Hb).
  destruct tbl as [|hdr data]; [discriminate|].
  cbn [tables_sum]. unfold has_column, headers_of in Hc. rewrite Hc.
  destruct (column_values _ data) as [vals|e]; cbn [bind]; [|reflexivity].
  destruct (int_if_integral (float_sum vals)) as [x|e]; reflexivity.
Qed.

Lemma pdf_first_table_with_column_decides_witness :
  sum_value_column_pdf_pdfplumber
    (Some (open_one (page_of three_tables (Some (lit "value 1000")))))
    report_pdf (lit "Value") 1 =
  sum_value_column_pdf_pdfplumber (Some (open_one (page_of [value_table] None)))
    report_pdf (lit "Value") 1.
Proof.
  apply (pdf_first_table_with_column_decides _ report_pdf (lit "Value") 1
           [page_of three_tables (Some (lit "value 1000"))]
           (page_of three_tables (Some (lit "value 1000")))
           [cost_table] value_table [tenths_table]);
    solve [reflexivity | lia | vm_compute; reflexivity].
Defined.

(** X6. A column that is not there gives no sum, for a column name of ASCII
    characters: when every table of the page has a header row without the
    column and no line of the page text mentions the column name (compared
    in lower case), the result is [None].  A page without tables or without
    text counts as having none. *)
Theorem pdf_column_absent open pdf_bytes col n pages pg tables text :
  forallb is_ascii col = true ->
  open pdf_bytes = Ok pages -> (1 <= n)%Z ->
  nth_error pages (Z.to_nat (n - 1)) = Some pg ->
  extract_tables pg = Ok tables ->
  forallb (lacks_column col) (match tables with Some t => t | None => [] end) = true ->
  extract_text pg = Ok text ->
  forallb (fun line => negb (contains (lower col) (lower line)))
          (splitlines (match text with Some t => t | None => [] end)) = true ->
  sum_value_column_pdf_pdfplumber (Some open) pdf_bytes col n = None.
Proof.
  intros _ Ho Hn Hp Ht Hb Hx Hl.
  rewrite (pdf_on_page open pdf_bytes col n pages pg Ho Hn Hp).
  rewrite Ht. cbn [bind].
  rewrite <- (app_nil_r (match tables with Some t => t | None => [] end)).
  rewrite (tables_sum_skip col _ [] Hb). cbn [tables_sum bind].
  rewrite Hx. cbn [bind].
  assert (Hs : forall lines acc,
             forallb (fun line => negb (contains (lower col) (lower line))) lines = true ->
             text_sum col lines acc = Ok acc).
  { induction lines as [|line lines IH]; intros acc; [reflexivity|].
    cbn [forallb text_sum]. intros H. apply andb_prop in H as [H1 H2].
    apply negb_true_iff in H1. rewrite H1. apply IH. exact H2. }
  rewrite (Hs _ _ Hl). reflexivity.
Qed.

Lemma pdf_column_absent_witness :
  sum_value_column_pdf_pdfplumber
    (Some (open_one (page_of [cost_table] (Some (lit "item cost")))))
    report_pdf (lit "value") 1 = None.
Proof.
  apply (pdf_column_absent _ report_pdf (lit "value") 1
           [page_of [cost_table] (Some (lit "item cost"))]
           (page_of [cost_table] (Some (lit "item cost")))
           (Some [cost_table]) (Some (lit "item cost")));
    solve [reflexivity | lia | vm_compute; reflexivity].
Defined.

(** The number pattern needs a digit. *)
Lemma rep_run_needs_one fl lazy sg k s st :
  match s with c :: _ => single_match fl sg c = false | [] => True end ->
  rep_run fl lazy sg (S k) s st = [].
Proof.
  destruct s as [|c s]; [reflexivity|]. cbn [rep_run]. intros ->. reflexivity.
Qed.

Lemma digit_match c : single_match plain (SCls false [IDigit]) c = is_digit c.
Proof. simpl. rewrite orb_false_r. reflexivity. Qed.

Lemma run_cat fl a b st : run fl (Cat a b) st = flat_map (run fl b) (run fl a st).
Proof. reflexivity. Qed.

Lemma run_one fl sg st :
  run fl (One sg) st =
  match m_rest st with
  | c :: s' => if single_match fl sg c then [advance c s' st] else []
  | [] => []
  end.
Proof. reflexivity. Qed.

Lemma run_opt fl a st : run fl (Opt a) st = run fl a st ++ [st].
Proof. reflexivity. Qed.

Lemma match_at_number_none prev i s :
  forallb (fun ch => negb (is_digit ch)) s = true ->
  match_at plain NUMBER_RE prev i s = None.
Proof.
  intros H. unfold match_at, NUMBER_RE. cbn [seq_of].
  set (st := {| m_prev := prev; m_pos := 0; m_rest := s; m_caps := [] |}).
  assert (Hd : forall st', forallb (fun ch => negb (is_digit ch)) (m_rest st') = true ->
                 run plain (Cat digits (Opt (Cat (text ".") digits))) st' = []).
  { intros st' H'. rewrite run_cat.
    change (run plain digits st')
      with (rep_run plain false (SCls false [IDigit]) 1 (m_rest st') st').
    rewrite rep_run_needs_one; [reflexivity|].
    destruct (m_rest st') as [|c r]; [exact Logic.I|].
    cbn [forallb] in H'. apply andb_prop in H' as [H' _].
    rewrite digit_match. apply negb_true_iff. exact H'. }
  rewrite run_cat, run_opt, flat_map_app. cbn [flat_map]. rewrite app_nil_r.
  rewrite (Hd st H), app_nil_r.
  change (text "-") with (One (SChr 45%N)). rewrite run_one. subst st. cbn [m_rest].
  destruct s as [|c r]; [reflexivity|].
  destruct (single_match plain (SChr 45%N) c); [|reflexivity].
  cbn [flat_map]. rewrite app_nil_r. rewrite Hd; [reflexivity|].
  cbn [advance m_rest]. cbn [forallb] in H. apply andb_prop in H as [_ H]. exact H.
Qed.

Lemma search_number_none s : forall prev i,
  forallb (fun ch => negb (is_digit ch)) s = true ->
  search_from plain NUMBER_RE prev i s = None.
Proof.
  induction s as [|c s IH]; intros prev i H; cbn [search_from];
    rewrite match_at_number_none by exact H; [reflexivity|].
  apply IH. cbn [forallb] in H. apply andb_prop in H as [_ H]. exact H.
Qed.

Lemma forallb_strip (p : char -> bool) s : forallb p s = true -> forallb p (strip s) = true.
Proof.
  intros H. unfold strip.
  destruct (lstrip_suffix s) as (u & Hu & _).
  destruct (rstrip_prefix (lstrip s)) as (v & Hv & _).
  rewrite Hu, Hv, !forallb_app in H.
  apply andb_prop in H as [_ H]. apply andb_prop in H as [H _]. exact H.
Qed.

Lemma forallb_remove_char (p : char -> bool) c s :
  forallb p s = true -> forallb p (remove_char c s) = true.
Proof.
  intros H. rewrite forallb_forall in *. intros x Hx. apply H.
  unfold remove_char in Hx. apply filter_In in Hx. apply Hx.
Qed.

Lemma column_values_no_digits idx data :
  forallb (no_digit_cell idx) data = true -> column_values idx data = Ok [].
Proof.
  induction data as [|row data IH]; [reflexivity|].
  cbn [forallb column_values]. intros H. apply andb_prop in H as [H1 H2].
  rewrite (IH H2). destruct (Nat.ltb idx (length row)); [|reflexivity].
  unfold first_number, search. rewrite search_number_none; [reflexivity|].
  apply forallb_strip, forallb_remove_char.
  unfold no_digit_cell in H1. destruct (nth idx row None) as [c|]; [|reflexivity].
  rewrite forallb_forall in *. intros x Hx. specialize (H1 x Hx).
  apply andb_prop in H1 as [_ H1]. exact H1.
Qed.

(** X7. A column without numbers sums to zero, for a column name of ASCII
    characters: when the cells of that column in the first table that has it
    hold ASCII text without any digit (the table may have no data rows at
    all, rows too short to reach the column, or empty cells), the result is
    the integer [0], not [None]. *)
Theorem pdf_column_without_numbers_is_zero
        open pdf_bytes col n pages pg before hdr data after :
  forallb is_ascii col = true ->
  open pdf_bytes = Ok pages -> (1 <= n)%Z ->
  nth_error pages (Z.to_nat (n - 1)) = Some pg ->
  extract_tables pg = Ok (Some (before ++ (hdr :: data) :: after)) ->
  forallb (lacks_column col) before = true ->
  has_column col (hdr :: data) = true ->
  forallb (no_digit_cell (index_of (lower col) (headers_of hdr))) data = true ->
  sum_value_column_pdf_pdfplumber (Some open) pdf_bytes col n = Some (NInt 0).
Proof.
  intros _ Ho Hn Hp Ht Hb Hc Hd.
  rewrite (pdf_on_page open pdf_bytes col n pages pg Ho Hn Hp).
  rewrite Ht. cbn [bind].
  rewrite (tables_sum_skip col before _ Hb). cbn [tables_sum].
  unfold has_column, headers_of in Hc. rewrite Hc.
  unfold headers_of in Hd. rewrite (column_values_no_digits _ _ Hd).
  reflexivity.
Qed.

Lemma pdf_column_without_numbers_is_zero_witness :
  sum_value_column_pdf_pdfplumber
    (Some (open_one (page_of [cost_table; words_table; value_table] None)))
    report_pdf (lit "value") 1 = Some (NInt 0).
Proof.
  apply (pdf_column_without_numbers_is_zero _ report_pdf (lit "value") 1
           [page_of [cost_table; words_table; value_table] None]
           (page_of [cost_table; words_table; value_table] None)
           [cost_table]
           [Some (lit "item"); Some (lit " VALUE ")]
           [[Some (lit "a"); Some (lit "n/a")]; [Some (lit "b"); None]; [Some (lit "c")]]
           [value_table]);
    solve [reflexivity | lia | vm_compute; reflexivity].
Defined.

(** X8. An empty table ends the search, for a column name of ASCII
    characters: when a table without any row (not even a header row) comes
    before every table that has the column, reading its header row fails, the
    failure is swallowed and the result is [None], also when a later table
    has the column. *)
Theorem pdf_empty_table_gives_none open pdf_bytes col n pages pg before after :
  forallb is_ascii col = true ->
  open pdf_bytes = Ok pages -> (1 <= n)%Z ->
  nth_error pages (Z.to_nat (n - 1)) = Some pg ->
  extract_tables pg = Ok (Some (before ++ [] :: after)) ->
  forallb (lacks_column col) before = true ->
  sum_value_column_pdf_pdfplumber (Some open) pdf_bytes col n = None.
Proof.
  intros _ Ho Hn Hp Ht Hb.
  rewrite (pdf_on_page open pdf_bytes col n pages pg Ho Hn Hp).
  rewrite Ht. cbn [bind].
  rewrite (tables_sum_skip col before _ Hb). reflexivity.
Qed.

Lemma pdf_empty_table_gives_none_witness :
  sum_value_column_pdf_pdfplumber
    (Some (open_one (page_of [cost_table; []; value_table] None)))
    report_pdf (lit "value") 1 = None /\
  sum_value_column_pdf_pdfplumber
    (Some (open_one (page_of [cost_table; value_table] None)))
    report_pdf (lit "value") 1 = Some (NFloat 12.5%float).
Proof.
  split; [|vm_compute; reflexivity].
  apply (pdf_empty_table_gives_none _ report_pdf (lit "value") 1
           [page_of [cost_table; []; value_table] None]
           (page_of [cost_table; []; value_table] None)
           [cost_table] [value_table]);
    solve [reflexivity | lia | vm_compute; reflexivity].
Defined.

Lemma value_column_app before after :
  value_column (before ++ after) =
  match value_column after with
  | Some cells => Some cells
  | None => value_column before
  end.
Proof.
  induction before as [|[name cells] before IH]; cbn [app value_column].
  - destruct (value_column after); reflexivity.
  - rewrite IH. destruct (value_column after); reflexivity.
Qed.

Lemma value_column_none_iff df :
  value_column df = None <-> forallb (fun col => negb (is_value_column col)) df = true.
Proof.
  induction df as [|[name cells] df IH]; cbn [value_column forallb]; [tauto|].
  unfold is_value_column at 1. cbn [fst].
  destruct (value_column df) as [later|].
  - split; [discriminate|]. intros H. apply andb_prop in H as [_ H].
    apply IH in H. discriminate.
  - destruct (str_eqb (lower name) (lit "value")); cbn [negb andb].
    + split; discriminate.
    + split; [intros _; apply IH; reflexivity | reflexivity].
Qed.

(** X9. Which column is summed: when several columns of the data frame have
    a name that reads [value] in lower case, the last of them is the one
    taken; the columns are found by their lower-cased names only.  [Some] is
    returned exactly for a frame that splits into the columns before, a
    column whose name reads [value], and columns after it none of which
    does. *)
Theorem value_column_last_wins (df : dataframe) (cells : list cell) :
  value_column df = Some cells <->
  exists before name after,
    df = before ++ (name, cells) :: after /\
    lower name = lit "value" /\
    forallb (fun col => negb (is_value_column col)) after = true.
Proof.
  split.
  - induction df as [|[name c] df IH]; cbn [value_column]; [discriminate|].
    destruct (value_column df) as [later|] eqn:E.
    + intros [= <-]. destruct (IH eq_refl) as (b & nm & a & -> & Hn & Ha).
      exists ((name, c) :: b), nm, a. auto.
    + destruct (str_eqb (lower name) (lit "value")) eqn:En; [|discriminate].
      intros [= <-]. exists [], name, df. split; [reflexivity|]. split.
      * unfold str_eqb in En. destruct (list_eq_dec N.eq_dec _ _); [assumption | discriminate].
      * apply value_column_none_iff. exact E.
  - intros (b & nm & a & -> & Hn & Ha). rewrite value_column_app.
    cbn [value_column]. apply value_column_none_iff in Ha. rewrite Ha, Hn.
    reflexivity.
Qed.

End SumFacts.

(* ================================================================== *)
(** * The chain: results, submissions and turns *)

Module ChainMore.
Import Py Re Codec Num Quiz Ref Shape ReFacts ChainFacts.

Section More.

Variable World : Type.
Variable env : collaborators World.
Variables (email secret : str) (deadline_ts : float).

#[local] Abbreviation state := (state World).
#[local] Abbreviation iteration := (iteration env email secret deadline_ts).
#[local] Abbreviation loop := (loop env email secret deadline_ts).
#[local] Abbreviation submit := (submit env email secret).
#[local] Abbreviation body_of := (body_of email secret).
#[local] Abbreviation reads := (reads env deadline_ts).
#[local] Abbreviation solve_page := (solve_page env email secret).
#[local] Abbreviation iteration_cases := (iteration_cases World env email secret deadline_ts).
#[local] Abbreviation submit_cases := (submit_cases World env email secret).
#[local] Abbreviation follow_cases := (follow_cases World).

(** The turn that ends a run. *)
Lemma loop_last fuel : forall (st : state) r st',
  loop fuel st = Some (r, st') ->
  exists st0,
    (exists pre, trace st0 = trace st ++ pre) /\
    iteration st0 = (match r with Ok res => Ok (Some res) | Raise e => Raise e end, st').
Proof.
  induction fuel as [|fuel IH]; intros st r st'; [discriminate|].
  cbn [Quiz.loop].
  destruct (iteration st) as [[[res|]|e] st1] eqn:Ei.
  - intros [= <- <-]. exists st. split; [exists []; rewrite app_nil_r; reflexivity|].
    exact Ei.
  - intros H. apply IH in H as (st0 & (pre & Hpre) & H0).
    exists st0. split; [|exact H0].
    destruct (iteration_summary World env email secret deadline_ts st) as (evs & Htr & _).
    rewrite Ei in Htr. cbn [snd] in Htr. rewrite Htr in Hpre.
    rewrite <- app_assoc in Hpre. eexists. exact Hpre.
  - intros [= <- <-]. exists st. split; [exists []; rewrite app_nil_r; reflexivity|].
    exact Ei.
Qed.

Lemma successful_2xx su body resp :
  successful (EvPost su body (Ok resp)) = true ->
  is_2xx (status_code resp) = true /\ exists data, resp_json resp = Ok data.
Proof.
  cbn [successful]. unfold is_2xx. intros H. apply andb_prop in H as [H1 H2].
  split; [exact H1|]. destruct (resp_json resp) as [data|e]; [eauto | discriminate].
Qed.

Lemma successes_snoc_post tr su body resp :
  successful (EvPost su body (Ok resp)) = true ->
  successes (tr ++ [EvPost su body (Ok resp)]) = S (successes tr).
Proof.
  intros H. rewrite successes_app. unfold successes at 2. cbn [filter].
  rewrite H. cbn [length]. lia.
Qed.

(** What a submission returns, by what the POST gave. *)
Lemma submit_outcome su a (st : state) :
  exists rr st',
    submit su a st =
    (match rr with
     | Raise e => Raise (submit_error e)
     | Ok resp =>
         if is_2xx (status_code resp) then
           match resp_json resp with
           | Ok data => Ok data
           | Raise e => Raise (submit_error e)
           end
         else Raise (RuntimeError (lit "Submit failed: " ++ status_error resp))
     end, st') /\
    steps st' = steps st /\ current_url st' = current_url st /\
    trace st' = trace st ++ [EvPost su (body_of st a) rr].
Proof.
  unfold submit, Quiz.submit, mbind, get_current_url, except_http_error, post,
    set_last_submit_status, lift, raise_for_status, is_2xx.
  fold (body_of st a).
  destruct (client_post env su (body_of st a) (world st)) as [[resp|e] w].
  - exists (Ok resp).
    destruct ((200 <=? status_code resp)%Z && (status_code resp <=? 299)%Z).
    + destruct (resp_json resp) as [data|e] eqn:Ej.
      * eexists. repeat split.
      * destruct e; eexists; repeat split.
    + eexists. repeat split.
  - exists (Raise e). destruct e; eexists; repeat split.
Qed.

(** A turn that returns the final result ended with a completed submission. *)
Lemma final_turn (st : state) res st' :
  iteration st = (Ok (Some res), st') ->
  exists tr su body resp data,
    trace st' = tr ++ [EvPost su body (Ok resp)] /\
    successful (EvPost su body (Ok resp)) = true /\
    resp_json resp = Ok data /\
    truthy (next_url_of data) = false /\
    res = {| r_steps := steps st'; r_last_url := current_url st';
             r_last_submit_status := Some (status_code resp) |} /\
    p_url body = current_url st'.
Proof.
  intros Hi. destruct (iteration_cases st) as (t & w1 & Et & H).
  destruct (PrimFloat.leb deadline_ts t); [rewrite H in Hi; discriminate|].
  destruct H as (gets & Hg & [(e & st1 & He & A)|(su & a & st1 & A & He)]);
    [rewrite He in Hi; discriminate|].
  destruct (submit_cases su a st1) as (rr & st2 & S0 & S1 & S2 & S4 & S5).
  rewrite He in Hi.
  destruct (submit su a st1) as [[data|e] st2'] eqn:Es; cbn [fst snd] in S0, S5;
    subst st2'; [|discriminate].
  destruct S5 as (resp & -> & Hj & Hsucc & Hstatus).
  destruct (follow_cases data st2) as (F1 & F2 & F3 & F4).
  rewrite Hi in F1, F2, F3, F4. cbn [fst snd] in F1, F2, F3, F4.
  destruct (truthy (next_url_of data)) eqn:Etr; [destruct F4; discriminate|].
  destruct F4 as [F4 F5]. injection F4 as ->.
  exists (trace st1), su, (body_of st1 a), resp, data.
  rewrite F1, S4, F2, F5, Hstatus. repeat split; auto.
Qed.

(** X10. What the returned dict says about the run.  When the chain returns
    (it returns only with [ok] true), the last thing it did was a submission
    that completed with a 2xx status and a JSON body without a truthy [url];
    [last_submit_status] is the status code of that submission, so it is
    always a 2xx code; [last_url] is the address of the page that submission
    answered; and [steps] is the number of submissions that completed during
    the whole run, which is at least one. *)
Theorem chain_result_reports_the_run fuel first_url w res (st' : state) :
  solve_quiz_chain env email secret deadline_ts fuel first_url w = Some (Ok res, st') ->
  r_steps res = successes (trace st') /\
  1 <= r_steps res /\
  exists tr su body resp data,
    trace st' = tr ++ [EvPost su body (Ok resp)] /\
    is_2xx (status_code resp) = true /\
    resp_json resp = Ok data /\
    truthy (next_url_of data) = false /\
    r_last_submit_status res = Some (status_code resp) /\
    r_last_url res = p_url body.
Proof.
  unfold solve_quiz_chain. intros H.
  destruct (loop_record World env email secret deadline_ts fuel _ _ _ H)
    as (evs & _ & Htr & _ & Hsteps & _).
  cbn [initial trace steps app] in Htr, Hsteps.
  destruct (loop_last fuel _ _ _ H) as (st0 & _ & H0).
  destruct (final_turn st0 res st' H0) as (tr & su & body & resp & data & T1 & T2 & T3 & T4 & T5 & T6).
  assert (Hs : r_steps res = successes (trace st')).
  { rewrite T5. cbn [r_steps]. rewrite Hsteps, Htr. reflexivity. }
  split; [exact Hs|]. split.
  - rewrite Hs, T1, (successes_snoc_post tr su body resp T2). lia.
  - exists tr, su, body, resp, data.
    destruct (successful_2xx su body resp T2) as [H2 _].
    rewrite T5. cbn [r_last_submit_status r_last_url]. repeat split; auto.
Qed.

Lemma posts_report_app page a b :
  posts_report email secret page (a ++ b) <->
  posts_report email secret page a /\ posts_report email secret (page_after page a) b.
Proof.
  revert page; induction a as [|e a IH]; intros page; cbn [app].
  - cbn. tauto.
  - destruct e; cbn [posts_report page_after]; rewrite ?IH; tauto.
Qed.

Lemma posts_report_gets page gets :
  forallb is_get gets = true ->
  posts_report email secret page gets /\ page_after page gets = page.
Proof.
  induction gets as [|e gets IH]; [cbn; auto|].
  cbn [forallb]. intros H. apply andb_prop in H as [He H].
  destruct e; try discriminate. cbn [posts_report page_after]. auto.
Qed.

(** One turn keeps the discipline of the submissions. *)
Lemma posts_report_turn (st : state) page :
  posts_report email secret page (trace st) ->
  posts_report email secret page (trace (snd (iteration st))).
Proof.
  intros Hp. destruct (iteration_cases st) as (t & w1 & Et & H).
  destruct (PrimFloat.leb deadline_ts t).
  - rewrite H. cbn [snd with_world trace]. apply posts_report_app. split; [exact Hp|].
    exact Logic.I.
  - destruct H as (gets & Hg & [(e & st1 & He & A)|(su & a & st1 & A & He)]).
    + rewrite He. cbn [snd]. destruct A as (_ & _ & _ & A4). rewrite A4.
      apply posts_report_app. split; [exact Hp|]. cbn [posts_report].
      apply (posts_report_gets _ gets Hg).
    + destruct A as (_ & A2 & _ & A4).
      destruct (submit_cases su a st1) as (rr & st2 & S0 & S1 & S2 & S4 & S5).
      assert (Ht : posts_report email secret page (trace st2)).
      { rewrite S4, A4. apply posts_report_app. split.
        - apply posts_report_app. split; [exact Hp|]. cbn [posts_report].
          apply (posts_report_gets _ gets Hg).
        - rewrite <- A4.
          assert (Hpage : page_after page (trace st1) = Some (current_url st)).
          { rewrite A4.
            assert (Happ : forall p x y, page_after p (x ++ y) = page_after (page_after p x) y).
            { intros p x; revert p; induction x as [|e x IHx]; intros p y; [reflexivity|].
              destruct e; cbn [app page_after]; apply IHx. }
            rewrite Happ. cbn [page_after].
            apply (posts_report_gets _ gets Hg). }
          rewrite Hpage. cbn [posts_report Ref.body_of p_email p_secret p_url].
          rewrite A2. auto. }
      rewrite He.
      destruct (submit su a st1) as [[data|e] st2'] eqn:Es; cbn [fst snd] in S0;
        subst st2'.
      * destruct (follow_cases data st2) as (F1 & _). rewrite F1. exact Ht.
      * exact Ht.
Qed.

(** X11. What is sent, and about which page: in every run of the chain,
    each submission carries the [email] and the [secret] the chain was called
    with, and its [url] field is the address of the page fetched last before
    it; nothing is submitted before the first page is fetched. *)
Theorem submissions_report_the_fetched_page fuel first_url w r (st' : state) :
  solve_quiz_chain env email secret deadline_ts fuel first_url w = Some (r, st') ->
  posts_report email secret None (trace st').
Proof.
  unfold solve_quiz_chain.
  assert (H : forall (st : state),
             posts_report email secret None (trace st) ->
             loop fuel st = Some (r, st') ->
             posts_report email secret None (trace st')).
  { induction fuel as [|k IH]; intros st Hp; [discriminate|].
    cbn [Quiz.loop]. pose proof (posts_report_turn st None Hp) as Ht.
    destruct (iteration st) as [[[res|]|e] st1]; cbn [snd] in Ht.
    - intros [= <- <-]. exact Ht.
    - apply IH. exact Ht.
    - intros [= <- <-]. exact Ht. }
  apply H. exact Logic.I.
Qed.

(** X12. A submission that does not complete ends the run.  When a turn ends
    with a POST that failed (the request raised, the status is not 2xx, or
    the body is not JSON), the turn raises, the loop stops there and [steps]
    is not advanced.  An [httpx.HTTPError] (which a non-2xx status also is)
    is reported as [RuntimeError("Submit failed: ...")]; any other exception,
    such as the one of a body that is not JSON, is passed on unchanged. *)
Theorem failed_submission_ends_the_run (st : state) r st' tr su body rr :
  iteration st = (r, st') ->
  trace st' = tr ++ [EvPost su body rr] ->
  successful (EvPost su body rr) = false ->
  steps st' = steps st /\
  (exists e, r = Raise e /\ forall fuel, loop (S fuel) st = Some (Raise e, st')) /\
  (forall e, rr = Raise e -> r = Raise (submit_error e)) /\
  (forall resp, rr = Ok resp -> is_2xx (status_code resp) = false ->
                r = Raise (RuntimeError (lit "Submit failed: " ++ status_error resp))) /\
  (forall resp e, rr = Ok resp -> is_2xx (status_code resp) = true ->
                  resp_json resp = Raise e -> r = Raise (submit_error e)).
Proof.
  intros Hi Htr Hfail.
  destruct (iteration_cases st) as (t & w1 & Et & H).
  destruct (PrimFloat.leb deadline_ts t).
  { rewrite H in Hi. injection Hi as <- <-. cbn in Htr.
    apply last_event_eq in Htr. discriminate. }
  destruct H as (gets & Hg & [(e & st1 & He & A)|(su' & a & st1 & A & He)]).
  { rewrite He in Hi. injection Hi as <- <-.
    destruct A as (_ & _ & _ & A4). rewrite A4 in Htr.
    change (trace st ++ EvTime t :: EvFetch (current_url st) :: gets)
      with (trace st ++ [EvTime t] ++ EvFetch (current_url st) :: gets) in Htr.
    rewrite app_assoc in Htr. exfalso. eapply not_ending_in_post; eauto. }
  destruct A as (A1 & _ & _ & _).
  destruct (submit_outcome su' a st1) as (rr' & st2 & Es & S1 & _ & S4).
  rewrite He, Es in Hi.
  assert (Hrr : trace st' = trace st2 -> rr' = rr /\ su' = su /\ body_of st1 a = body).
  { intros E. rewrite E, S4 in Htr. apply last_event_eq in Htr.
    injection Htr as -> -> ->. auto. }
  destruct rr' as [resp|e0].
  - destruct (is_2xx (status_code resp)) eqn:E2.
    + destruct (resp_json resp) as [data|e0] eqn:Ej.
      * exfalso. destruct (follow_cases data st2) as (F1 & _).
        rewrite Hi in F1. cbn [snd] in F1.
        destruct (Hrr F1) as (<- & _ & _).
        cbn [successful] in Hfail. unfold is_2xx in E2. rewrite E2, Ej in Hfail.
        discriminate.
      * injection Hi as <- <-. destruct (Hrr eq_refl) as (<- & _ & _).
        split; [rewrite S1; exact A1|]. split.
        -- eexists. split; [reflexivity|]. intros fuel. apply loop_raise.
           rewrite He, Es. reflexivity.
        -- split; [discriminate|]. split.
           ++ intros resp' [= <-]. congruence.
           ++ intros resp' e' [= <-] _ Hj'. rewrite Ej in Hj'. injection Hj' as <-.
              reflexivity.
    + injection Hi as <- <-. destruct (Hrr eq_refl) as (<- & _ & _).
      split; [rewrite S1; exact A1|]. split.
      * eexists. split; [reflexivity|]. intros fuel. apply loop_raise.
        rewrite He, Es. reflexivity.
      * split; [discriminate|]. split.
        -- intros resp' [= <-] _. reflexivity.
        -- intros resp' e' [= <-]. congruence.
  - injection Hi as <- <-. destruct (Hrr eq_refl) as (<- & _ & _).
    split; [rewrite S1; exact A1|]. split.
    + eexists. split; [reflexivity|]. intros fuel. apply loop_raise.
      rewrite He, Es. reflexivity.
    + split; [intros e' [= <-]; reflexivity|]. split; discriminate.
Qed.

(** Once the answer is known, exactly one POST follows. *)
Lemma answer_posted su a (st1 : state) :
  exists rr,
    trace (snd (mbind (submit su a) (@follow World) st1)) =
    trace st1 ++ [EvPost su (body_of st1 a) rr].
Proof.
  destruct (submit_cases su a st1) as (rr & st2 & S0 & _ & _ & S4 & _).
  exists rr. rewrite mbind_eq.
  destruct (submit su a st1) as [[data|e] st2'] eqn:Es; cbn [snd] in S0; subst st2'.
  - destruct (follow_cases data st2) as (F1 & _). rewrite F1. exact S4.
  - exact S4.
Qed.

(** X13. The row count comes before the data file.  On an ASCII page whose
    text does not state a PDF task and contains [how many rows] (any letter
    case), the answer submitted is the number of [<tr] tags of the page as
    fetched, before the base-64 blocks are revealed; no file is downloaded,
    also when the page links a data file. *)
Theorem row_count_is_answered_first (st : state) t w1 html w2 expanded su m :
  reads st t w1 html w2 expanded ->
  forallb is_ascii html = true -> forallb is_ascii expanded = true ->
  resolve_submit_url env (page_text expanded) expanded = Ok su ->
  search I PDF_TASK_RE (page_text expanded) = None ->
  search I ROWS_RE (page_text expanded) = Some m ->
  exists rr,
    trace (snd (iteration st)) =
    trace st ++ [EvTime t; EvFetch (current_url st);
                 EvPost su (body_of st (NInt (Z.of_nat (length (findall0 I TR_RE html))))) rr].
Proof.
  intros Hr _ _ Hs Hpdf Hrows.
  rewrite (iteration_read World env email secret deadline_ts Hr).
  unfold solve_page, Quiz.solve_page.
  rewrite mbind_eq, lift_eq, Hs. cbv beta iota.
  rewrite mbind_eq. unfold heuristic_pdf. rewrite Hpdf. unfold ret at 1. cbv beta iota.
  unfold heuristic_rows. rewrite Hrows.
  rewrite mbind_eq. unfold heuristic_tabular. unfold ret at 1. cbv beta iota.
  destruct (answer_posted su (NInt (Z.of_nat (length (findall0 I TR_RE html))))
              (page_state st t w1 w2)) as (rr & Hrr).
  exists rr. refine (eq_trans Hrr _). rewrite page_state_trace, <- app_assoc. reflexivity.
Qed.

(** X14. A PDF task needs a PDF link.  When the text of an ASCII page states
    a PDF task with a page number that [int] accepts (at most 4300 digits)
    and the page holds no link that ends in [.pdf], the turn fails with
    [RuntimeError("No PDF link found for the task.")] right after the page is
    read: nothing is downloaded or submitted and no other heuristic is tried,
    also when the page asks for a row count or links a data file. *)
Theorem pdf_task_without_link (st : state) t w1 html w2 expanded su m :
  reads st t w1 html w2 expanded ->
  forallb is_ascii expanded = true ->
  resolve_submit_url env (page_text expanded) expanded = Ok su ->
  search I PDF_TASK_RE (page_text expanded) = Some m ->
  length (match group 2 m with Some g => g | None => [] end) <= int_max_str_digits ->
  findall1 I PDF_LINK_RE expanded = [] ->
  iteration st = (Raise (RuntimeError (lit "No PDF link found for the task.")),
                  page_state st t w1 w2) /\
  (forall fuel,
      loop (S fuel) st = Some (Raise (RuntimeError (lit "No PDF link found for the task.")),
                               page_state st t w1 w2)) /\
  trace (page_state st t w1 w2) = trace st ++ [EvTime t; EvFetch (current_url st)].
Proof.
  intros Hr _ Hs Hpdf Hlen Hlinks.
  assert (Hi : iteration st =
               (Raise (RuntimeError (lit "No PDF link found for the task.")),
                page_state st t w1 w2)).
  { rewrite (iteration_read World env email secret deadline_ts Hr).
    unfold solve_page, Quiz.solve_page.
    rewrite mbind_eq, lift_eq, Hs. cbv beta iota.
    rewrite mbind_eq. unfold heuristic_pdf. rewrite Hpdf.
    rewrite mbind_eq, lift_eq, py_int_digits by exact Hlen. cbv beta iota.
    rewrite Hlinks. reflexivity. }
  split; [exact Hi|]. split; [|apply page_state_trace].
  intros fuel. apply loop_raise. exact Hi.
Qed.

(** X27. A page number that [int] refuses.  When the text of an ASCII page
    states a PDF task whose page number has more than 4300 digits,
    [int(m.group(2))] raises [ValueError] and the turn ends with that error
    right after the page is read: no link is looked for, nothing is
    downloaded or submitted, and no other heuristic is tried. *)
Theorem pdf_page_number_too_long (st : state) t w1 html w2 expanded su m :
  reads st t w1 html w2 expanded ->
  forallb is_ascii expanded = true ->
  resolve_submit_url env (page_text expanded) expanded = Ok su ->
  search I PDF_TASK_RE (page_text expanded) = Some m ->
  int_max_str_digits < length (match group 2 m with Some g => g | None => [] end) ->
  let refusal :=
    ValueError
      (lit "Exceeds the limit (4300 digits) for integer string conversion: value has "
       ++ str_of_nat (length (match group 2 m with Some g => g | None => [] end))
       ++ lit " digits; use sys.set_int_max_str_digits() to increase the limit") in
  iteration st = (Raise refusal, page_state st t w1 w2) /\
  (forall fuel, loop (S fuel) st = Some (Raise refusal, page_state st t w1 w2)) /\
  trace (page_state st t w1 w2) = trace st ++ [EvTime t; EvFetch (current_url st)].
Proof.
  intros Hr _ Hs Hpdf Hlen refusal.
  assert (Hi : iteration st = (Raise refusal, page_state st t w1 w2)).
  { rewrite (iteration_read World env email secret deadline_ts Hr).
    unfold solve_page, Quiz.solve_page.
    rewrite mbind_eq, lift_eq, Hs. cbv beta iota.
    rewrite mbind_eq. unfold heuristic_pdf. rewrite Hpdf.
    rewrite mbind_eq, lift_eq, py_int_refused by exact Hlen. reflexivity. }
  split; [exact Hi|]. split; [|apply page_state_trace].
  intros fuel. apply loop_raise. exact Hi.
Qed.


(** X16. The data-file answer.  When the text of an ASCII page states
    neither a PDF task nor a row count, the first link of the page that ends
    in [.csv], [.json], [.xls] or [.xlsx] is downloaded and parsed by its
    extension, and the answer submitted is the sum of its [value] column,
    put through [int(s) if abs(s - int(s)) < 1e-9 else s].  This is stated
    for frames with pairwise different column labels and for a [value] column
    of whole numbers: numbers without a fractional part, texts of one to
    fifteen digits with or without a minus sign, and, counting as zero,
    missing cells, NaN and words of letters other than [nan], [inf] and
    [infinity]; their absolute values add up to [2^53] at most.  On such a
    column every partial sum is exact in whatever order it is taken, so
    that pandas and [float_sum] add up to the same number. *)
Theorem data_file_sum_is_submitted (st : state) t w1 html w2 expanded su
        data_url more data_bytes w3 df cells n :
  reads st t w1 html w2 expanded ->
  forallb is_ascii expanded = true ->
  resolve_submit_url env (page_text expanded) expanded = Ok su ->
  search I PDF_TASK_RE (page_text expanded) = None ->
  search I ROWS_RE (page_text expanded) = None ->
  findall1 I DATA_LINK_RE expanded = data_url :: more ->
  http_get_bytes env data_url w2 = (Ok data_bytes, w3) ->
  load_dataframe env data_url data_bytes = Ok df ->
  distinct_labels df = true ->
  value_column df = Some cells ->
  whole_column cells = true ->
  int_if_integral (float_sum (List.map to_numeric_or_zero cells)) = Ok n ->
  exists rr,
    trace (snd (iteration st)) =
    trace st ++ [EvTime t; EvFetch (current_url st); EvGet data_url;
                 EvPost su (body_of st n) rr].
Proof.
  intros Hr _ Hs Hpdf Hrows Hlinks Hget Hdf _ Hcol _ Hn.
  rewrite (iteration_read World env email secret deadline_ts Hr).
  unfold solve_page, Quiz.solve_page.
  rewrite mbind_eq, lift_eq, Hs. cbv beta iota.
  rewrite mbind_eq. unfold heuristic_pdf. rewrite Hpdf. unfold ret at 1. cbv beta iota.
  unfold heuristic_rows. rewrite Hrows.
  rewrite mbind_eq. unfold heuristic_tabular. rewrite Hlinks.
  rewrite mbind_eq. unfold download.
  change (world (page_state st t w1 w2)) with w2. rewrite Hget. cbv beta iota.
  rewrite mbind_eq, lift_eq, Hdf. cbv beta iota.
  rewrite Hcol. rewrite mbind_eq, lift_eq, Hn. cbv beta iota.
  unfold ret at 1. cbv beta iota.
  set (st3 := with_world w3 (EvGet data_url) (page_state st t w1 w2)).
  destruct (answer_posted su n st3) as (rr & Hrr).
  exists rr. refine (eq_trans Hrr _). subst st3. cbn [with_world trace].
  rewrite page_state_trace, <- !app_assoc. reflexivity.
Qed.

(** The PDF heuristic either does nothing to the outside, or downloads one
    file and then has an answer or an error. *)
Lemma heuristic_pdf_cases text expanded (st : state) :
  (exists r, heuristic_pdf env text expanded st = (r, st) /\
             (r = Ok None \/ exists e, r = Raise e)) \/
  (exists link r st3,
      heuristic_pdf env text expanded st = (r, st3) /\
      adds [EvGet link] st st3 /\
      ((exists s, r = Ok (Some s)) \/ exists e, r = Raise e)).
Proof.
  unfold heuristic_pdf.
  destruct (search I PDF_TASK_RE text) as [m|]; [|left; eexists; split; [reflexivity|]; auto].
  rewrite mbind_eq, lift_eq.
  destruct (py_int _) as [page_no|e];
    [|left; eexists; split; [reflexivity|]; right; eauto].
  destruct (findall1 I PDF_LINK_RE expanded) as [|link more];
    [left; eexists; split; [reflexivity|]; right; eauto|].
  right. exists link. rewrite mbind_eq. unfold download.
  destruct (http_get_bytes env link (world st)) as [[b|e] w].
  - destruct (sum_value_column_pdf_pdfplumber _ _ _ _) as [s|].
    + do 2 eexists. split; [reflexivity|]. split; [apply adds_with_world|]. left; eauto.
    + do 2 eexists. split; [reflexivity|]. split; [apply adds_with_world|]. right; eauto.
  - do 2 eexists. split; [reflexivity|]. split; [apply adds_with_world|]. right; eauto.
Qed.

(** What is done with a page: at most one download, then at most one
    submission. *)
Lemma solve_page_record html expanded (st : state) :
  exists gets posts,
    one_get gets /\
    (posts = [] \/ exists su body rr, posts = [EvPost su body rr]) /\
    trace (snd (solve_page html expanded st)) = trace st ++ gets ++ posts.
Proof.
  unfold solve_page, Quiz.solve_page. rewrite mbind_eq, lift_eq.
  destruct (resolve_submit_url env (page_text expanded) expanded) as [su|e];
    cbv beta iota.
  2:{ exists [], []. split; [left; reflexivity|]. split; [left; reflexivity|].
      cbn. rewrite app_nil_r. reflexivity. }
  rewrite mbind_eq.
  assert (Hend : forall (st4 : state) gets answer,
             one_get gets -> trace st4 = trace st ++ gets ->
             exists gets' posts,
               one_get gets' /\
               (posts = [] \/ exists su' body rr, posts = [EvPost su' body rr]) /\
               trace (snd (match answer with
                           | Some a => mbind (submit su a) (fun data => follow data)
                           | None => raise (RuntimeError
                                              (lit "No solver matched. Extend heuristics."))
                           end st4)) = trace st ++ gets' ++ posts).
  { intros st4 gets answer Hg Ht. exists gets. destruct answer as [a|].
    - destruct (answer_posted su a st4) as (rr & Hrr).
      exists [EvPost su (body_of st4 a) rr]. split; [exact Hg|].
      split; [right; eauto|]. refine (eq_trans Hrr _). rewrite Ht, <- app_assoc.
      reflexivity.
    - exists []. split; [exact Hg|]. split; [left; reflexivity|].
      cbn. rewrite Ht, app_nil_r. reflexivity. }
  destruct (heuristic_pdf_cases (page_text expanded) expanded st)
    as [(r & -> & Hr)|(link & r & st3 & -> & A & Hr)]; cbv beta iota.
  - destruct Hr as [->|(e & ->)].
    + rewrite mbind_eq.
      destruct (heuristic_tabular_adds World env
                  (heuristic_rows None (page_text expanded) html) expanded st)
        as (g2 & G2 & A4).
      destruct (heuristic_tabular env (heuristic_rows None (page_text expanded) html)
                  expanded st) as [[ans|e] st4]; cbn [snd] in A4; cbv beta iota.
      * apply (Hend st4 g2 ans G2). apply A4.
      * exists g2, []. split; [exact G2|]. split; [left; reflexivity|].
        cbn [snd]. rewrite app_nil_r. apply A4.
    + exists [], []. split; [left; reflexivity|]. split; [left; reflexivity|].
      cbn. rewrite app_nil_r. reflexivity.
  - destruct Hr as [(s & ->)|(e & ->)].
    + rewrite mbind_eq. unfold heuristic_rows, heuristic_tabular. unfold ret at 1.
      cbv beta iota.
      apply (Hend st3 [EvGet link] (Some s)); [right; eauto | apply A].
    + exists [EvGet link], []. split; [right; eauto|]. split; [left; reflexivity|].
      cbn [snd]. rewrite app_nil_r. apply A.
Qed.

(** One turn of the loop and its record. *)
Lemma turn_shape (st : state) :
  exists evs, trace (snd (iteration st)) = trace st ++ evs /\ turn_record evs.
Proof.
  destruct (time_time env (world st)) as [t w1] eqn:Et.
  unfold iteration, Quiz.iteration.
  rewrite mbind_eq, (now_eq World env Et). cbv beta iota.
  destruct (PrimFloat.leb deadline_ts t).
  { exists [EvTime t]. split; [reflexivity|]. exists t. left. reflexivity. }
  set (st1 := with_world w1 (EvTime t) st).
  rewrite mbind_eq, get_current_url_eq. cbv beta iota.
  change (current_url st1) with (current_url st).
  destruct (fetch_rendered_html env (current_url st) (world st1)) as [[html|e] w2] eqn:Ef;
    rewrite mbind_eq, (fetch_eq World env Ef); cbv beta iota.
  2:{ exists [EvTime t; EvFetch (current_url st)]. split.
      - cbn. rewrite <- app_assoc. reflexivity.
      - exists t. right. exists (current_url st), [], [].
        split; [reflexivity|]. split; left; reflexivity. }
  set (st2 := with_world w2 (EvFetch (current_url st)) st1).
  assert (T2 : trace st2 = trace st ++ [EvTime t; EvFetch (current_url st)]).
  { cbn. rewrite <- app_assoc. reflexivity. }
  rewrite mbind_eq, lift_eq.
  destruct (try_decode_base64_blocks html) as [expanded|e]; cbv beta iota.
  2:{ exists [EvTime t; EvFetch (current_url st)]. split; [exact T2|].
      exists t. right. exists (current_url st), [], [].
      split; [reflexivity|]. split; left; reflexivity. }
  destruct (solve_page_record html expanded st2) as (gets & posts & Hg & Hp & Htr).
  exists (EvTime t :: EvFetch (current_url st) :: gets ++ posts). split.
  - rewrite Htr, T2, <- app_assoc. reflexivity.
  - exists t. right. exists (current_url st), gets, posts. auto.
Qed.

(** X24. What a run costs.  The record of every run of the chain is a
    sequence of turns, at least one; each turn reads the clock once and then,
    unless the deadline has passed, fetches one page, downloads at most one
    file and submits at most one answer, in this order.  No page is fetched,
    no file is downloaded and nothing is submitted outside these turns. *)
Theorem run_is_a_sequence_of_turns fuel (st : state) r st' :
  loop fuel st = Some (r, st') ->
  exists turns,
    turns <> [] /\ Forall turn_record turns /\
    trace st' = trace st ++ concat turns.
Proof.
  revert st. induction fuel as [|fuel IH]; intros st; [discriminate|].
  cbn [Quiz.loop]. destruct (turn_shape st) as (evs & Htr & Hrec).
  destruct (iteration st) as [[[res|]|e] st1]; cbn [snd] in Htr.
  - intros [= <- <-]. exists [evs]. split; [discriminate|].
    split; [constructor; [exact Hrec | constructor]|].
    cbn. rewrite app_nil_r. exact Htr.
  - intros H. apply IH in H as (turns & _ & Hall & Ht).
    exists (evs :: turns). split; [discriminate|].
    split; [constructor; assumption|].
    cbn [concat]. rewrite Ht, Htr, <- app_assoc. reflexivity.
  - intros [= <- <-]. exists [evs]. split; [discriminate|].
    split; [constructor; [exact Hrec | constructor]|].
    cbn. rewrite app_nil_r. exact Htr.
Qed.

End More.

End ChainMore.

From Stdlib Require Import ZifyNat ZifyN ZifyBool.

(* ================================================================== *)
(** * The two decoders *)

Module CodecFacts.
Import Py Re Codec Num Quiz Ref Shape Enc ReFacts DecodeFacts.

Lemma all_below_spec n p :
  all_below n p = true -> forall x, (x < N.of_nat n)%N -> p x = true.
Proof.
  unfold all_below. rewrite forallb_forall. intros H x Hx.
  specialize (H (N.to_nat x)). rewrite N2Nat.id in H. apply H.
  apply in_seq. lia.
Qed.

(** *** Base 64 *)

Lemma b64_value_digit v : (v < 64)%N -> b64_value (b64_digit v) = Some v.
Proof.
  intros H.
  assert (C : all_below 64 (fun v => match b64_value (b64_digit v) with
                                     | Some x => (x =? v)%N
                                     | None => false
                                     end) = true) by (vm_compute; reflexivity).
  pose proof (all_below_spec _ _ C v H) as Hv. cbv beta in Hv.
  destruct (b64_value (b64_digit v)); [|discriminate].
  apply N.eqb_eq in Hv. congruence.
Qed.

Lemma b64_digit_not_pad v : (v < 64)%N -> (b64_digit v =? 61)%N = false.
Proof.
  intros H.
  assert (C : all_below 64 (fun v => negb (b64_digit v =? 61)%N) = true)
    by (vm_compute; reflexivity).
  pose proof (all_below_spec _ _ C v H) as Hv. cbv beta in Hv.
  apply negb_true_iff in Hv. exact Hv.
Qed.

(** One digit of the alphabet read by [a2b_base64]. *)
Lemma a2b_digit v rest q l p out :
  (v < 64)%N ->
  a2b_base64 (b64_digit v :: rest) q l p out =
  match q with
  | 0 => a2b_base64 rest 1 v 0 out
  | 1 => a2b_base64 rest 2 (N.land v 15) 0
           (u8 (N.lor (N.shiftl l 2) (N.shiftr v 4)) :: out)
  | 2 => a2b_base64 rest 3 (N.land v 3) 0
           (u8 (N.lor (N.shiftl l 4) (N.shiftr v 2)) :: out)
  | _ => a2b_base64 rest 0 0 0 (u8 (N.lor (N.shiftl l 6) v) :: out)
  end.
Proof.
  intros H. cbn [a2b_base64]. rewrite (b64_digit_not_pad v H), (b64_value_digit v H).
  reflexivity.
Qed.

Lemma first_byte a y :
  (a < 256)%N -> (y < 16)%N ->
  u8 (N.lor (N.shiftl (a / 4) 2) (N.shiftr (a mod 4 * 16 + y) 4)) = a.
Proof.
  intros Ha Hy.
  assert (C : all_below 256 (fun a => all_below 16 (fun y =>
                (u8 (N.lor (N.shiftl (a / 4) 2) (N.shiftr (a mod 4 * 16 + y) 4)) =? a)%N))
              = true) by (vm_compute; reflexivity).
  pose proof (all_below_spec _ _ C a Ha) as C1. cbv beta in C1.
  pose proof (all_below_spec _ _ C1 y Hy) as C2. cbv beta in C2.
  apply N.eqb_eq in C2. exact C2.
Qed.

Lemma second_byte x b y :
  (x < 4)%N -> (b < 256)%N -> (y < 4)%N ->
  u8 (N.lor (N.shiftl (N.land (x * 16 + b / 16) 15) 4)
            (N.shiftr (b mod 16 * 4 + y) 2)) = b.
Proof.
  intros Hx Hb Hy.
  assert (C : all_below 4 (fun x => all_below 256 (fun b => all_below 4 (fun y =>
                (u8 (N.lor (N.shiftl (N.land (x * 16 + b / 16) 15) 4)
                           (N.shiftr (b mod 16 * 4 + y) 2)) =? b)%N)))
              = true) by (vm_compute; reflexivity).
  pose proof (all_below_spec _ _ C x Hx) as C1. cbv beta in C1.
  pose proof (all_below_spec _ _ C1 b Hb) as C2. cbv beta in C2.
  pose proof (all_below_spec _ _ C2 y Hy) as C3. cbv beta in C3.
  apply N.eqb_eq in C3. exact C3.
Qed.

Lemma third_byte x c :
  (x < 16)%N -> (c < 256)%N ->
  u8 (N.lor (N.shiftl (N.land (x * 4 + c / 64) 3) 6) (c mod 64)) = c.
Proof.
  intros Hx Hc.
  assert (C : all_below 16 (fun x => all_below 256 (fun c =>
                (u8 (N.lor (N.shiftl (N.land (x * 4 + c / 64) 3) 6) (c mod 64)) =? c)%N))
              = true) by (vm_compute; reflexivity).
  pose proof (all_below_spec _ _ C x Hx) as C1. cbv beta in C1.
  pose proof (all_below_spec _ _ C1 c Hc) as C2. cbv beta in C2.
  apply N.eqb_eq in C2. exact C2.
Qed.

Lemma div_bound a k m : (a < k * m)%N -> (0 < m)%N -> (a / m < k)%N.
Proof. intros H Hm. apply N.Div0.div_lt_upper_bound. lia. Qed.

Lemma digit_bounds a b :
  (a < 256)%N -> (b < 256)%N ->
  (a / 4 < 64 /\ a mod 4 * 16 + b / 16 < 64 /\ a mod 4 * 16 < 64 /\
   a mod 4 * 4 + b / 64 < 64 /\ a mod 16 * 4 + b / 64 < 64 /\
   a mod 16 * 4 < 64 /\ a mod 64 < 64 /\
   a mod 4 < 4 /\ a mod 16 < 16 /\ b / 16 < 16 /\ b / 64 < 4)%N.
Proof.
  intros Ha Hb.
  pose proof (div_bound a 64 4 Ha eq_refl).
  pose proof (div_bound b 16 16 Hb eq_refl).
  pose proof (div_bound b 4 64 Hb eq_refl).
  pose proof (N.mod_lt a 4 ltac:(discriminate)).
  pose proof (N.mod_lt a 16 ltac:(discriminate)).
  pose proof (N.mod_lt a 64 ltac:(discriminate)).
  repeat split; lia.
Qed.

Lemma list_ind3 (A : Type) (P : list A -> Prop) :
  P [] -> (forall a, P [a]) -> (forall a b, P [a; b]) ->
  (forall a b c l, P l -> P (a :: b :: c :: l)) ->
  forall l, P l.
Proof.
  intros H0 H1 H2 H3.
  assert (H : forall n l, length l <= n -> P l).
  { induction n as [|n IH]; intros l Hl.
    - destruct l; [exact H0 | simpl in Hl; lia].
    - destruct l as [|a [|b [|c l]]]; auto.
      apply H3. apply IH. simpl in Hl. lia. }
  intros l. apply (H (length l)). lia.
Qed.

Lemma a2b_encoded bs : forall out,
  forallb is_byte bs = true ->
  a2b_base64 (b64encode bs) 0 0 0 out = Ok (rev out ++ bs).
Proof.
  induction bs as [|a|a b|a b c rest IH] using list_ind3; intros out Hb.
  - cbn. rewrite app_nil_r. reflexivity.
  - cbn [forallb] in Hb. apply andb_prop in Hb as [Ha _]. apply N.ltb_lt in Ha.
    destruct (digit_bounds a 0 Ha ltac:(lia)) as (D1 & _ & D3 & _).
    cbn [b64encode]. rewrite (a2b_digit _ _ _ _ _ _ D1), (a2b_digit _ _ _ _ _ _ D3).
    cbn [a2b_base64 N.eqb Pos.eqb Nat.leb Nat.add].
    pose proof (first_byte a 0 Ha ltac:(lia)) as F. rewrite N.add_0_r in F.
    rewrite F. cbn [rev]. reflexivity.
  - cbn [forallb] in Hb. apply andb_prop in Hb as [Ha Hb].
    apply andb_prop in Hb as [Hb _]. apply N.ltb_lt in Ha, Hb.
    destruct (digit_bounds a b Ha Hb) as (D1 & D2 & _ & _ & _ & _ & _ & M4 & _ & Q16 & _).
    destruct (digit_bounds b 0 Hb ltac:(lia)) as (_ & _ & _ & _ & _ & D6 & _).
    cbn [b64encode].
    rewrite (a2b_digit _ _ _ _ _ _ D1), (a2b_digit _ _ _ _ _ _ D2),
      (a2b_digit _ _ _ _ _ _ D6).
    cbn [a2b_base64 N.eqb Pos.eqb Nat.leb Nat.add].
    rewrite (first_byte a (b / 16) Ha Q16).
    pose proof (second_byte (a mod 4) b 0 M4 Hb ltac:(lia)) as S. rewrite N.add_0_r in S.
    rewrite S. cbn [rev]. rewrite <- app_assoc. reflexivity.
  - cbn [forallb] in Hb. apply andb_prop in Hb as [Ha Hb].
    apply andb_prop in Hb as [Hb Hc]. apply andb_prop in Hc as [Hc Hr].
    apply N.ltb_lt in Ha, Hb, Hc.
    destruct (digit_bounds a b Ha Hb) as (D1 & D2 & _ & _ & _ & _ & _ & M4 & _ & Q16 & _).
    destruct (digit_bounds b c Hb Hc) as (_ & _ & _ & _ & D5 & _ & _ & _ & M16 & _ & Q64).
    destruct (digit_bounds c 0 Hc ltac:(lia)) as (_ & _ & _ & _ & _ & _ & D7 & _).
    cbn [b64encode].
    rewrite (a2b_digit _ _ _ _ _ _ D1), (a2b_digit _ _ _ _ _ _ D2),
      (a2b_digit _ _ _ _ _ _ D5), (a2b_digit _ _ _ _ _ _ D7).
    rewrite (first_byte a (b / 16) Ha Q16).
    rewrite (second_byte (a mod 4) b (c / 64) M4 Hb Q64).
    rewrite (third_byte (b mod 16) c M16 Hc).
    rewrite (IH _ Hr). cbn [rev]. rewrite <- !app_assoc. reflexivity.
Qed.

Lemma b64encode_chars bs :
  forallb is_byte bs = true -> Forall enc_char (b64encode bs).
Proof.
  assert (Hd : forall v, (v < 64)%N -> enc_char (b64_digit v)) by (right; eauto).
  assert (Hp : enc_char 61%N) by (left; reflexivity).
  induction bs as [|a|a b|a b c rest IH] using list_ind3; intros Hb; cbn [b64encode].
  - constructor.
  - cbn [forallb] in Hb. apply andb_prop in Hb as [Ha _]. apply N.ltb_lt in Ha.
    destruct (digit_bounds a 0 Ha ltac:(lia)) as (D1 & _ & D3 & _).
    repeat (apply Forall_cons; [solve [auto]|]). apply Forall_nil.
  - cbn [forallb] in Hb. apply andb_prop in Hb as [Ha Hb].
    apply andb_prop in Hb as [Hb _]. apply N.ltb_lt in Ha, Hb.
    destruct (digit_bounds a b Ha Hb) as (D1 & D2 & _).
    destruct (digit_bounds b 0 Hb ltac:(lia)) as (_ & _ & _ & _ & _ & D6 & _).
    repeat (apply Forall_cons; [solve [auto]|]). apply Forall_nil.
  - cbn [forallb] in Hb. apply andb_prop in Hb as [Ha Hb].
    apply andb_prop in Hb as [Hb Hc]. apply andb_prop in Hc as [Hc Hr].
    apply N.ltb_lt in Ha, Hb, Hc.
    destruct (digit_bounds a b Ha Hb) as (D1 & D2 & _).
    destruct (digit_bounds b c Hb Hc) as (_ & _ & _ & _ & D5 & _).
    destruct (digit_bounds c 0 Hc ltac:(lia)) as (_ & _ & _ & _ & _ & _ & D7 & _).
    repeat (apply Forall_cons; [solve [auto]|]). exact (IH Hr).
Qed.

Lemma enc_char_plain c :
  enc_char c -> (c <? 128)%N = true /\ c <> 96%N /\ c <> 10%N.
Proof.
  intros [->|(v & Hv & ->)]; [repeat split; discriminate|].
  assert (C : all_below 64 (fun v => (b64_digit v <? 128)%N &&
                                     negb (b64_digit v =? 96)%N &&
                                     negb (b64_digit v =? 10)%N) = true)
    by (vm_compute; reflexivity).
  pose proof (all_below_spec _ _ C v Hv) as H. cbv beta in H.
  apply andb_prop in H as [H H3]. apply andb_prop in H as [H1 H2].
  apply negb_true_iff, N.eqb_neq in H2, H3. auto.
Qed.

(** X17. [b64decode] undoes the standard encoding: for every sequence of
    bytes, decoding its base-64 encoding (with padding) gives the bytes
    back. *)
Theorem b64decode_b64encode (bs : bytes) :
  forallb is_byte bs = true -> b64decode (b64encode bs) = Ok bs.
Proof.
  intros Hb. unfold b64decode.
  replace (forallb (fun c => (c <? 128)%N) (b64encode bs)) with true.
  - rewrite (a2b_encoded bs [] Hb). reflexivity.
  - symmetry. apply forallb_forall. intros c Hc.
    pose proof (b64encode_chars bs Hb) as H. rewrite Forall_forall in H.
    apply (enc_char_plain c (H c Hc)).
Qed.

Lemma b64decode_b64encode_witness :
  b64decode (b64encode (lit "hi!?")) = Ok (lit "hi!?") /\
  b64encode (lit "hi!?") = lit "aGkhPw==".
Proof.
  split; [apply (b64decode_b64encode (lit "hi!?")) | ]; vm_compute; reflexivity.
Defined.

(** Linear arithmetic with division and remainder by constants. *)
Ltac dlia := zify; Z.to_euclidean_division_equations; lia.

Lemma a2b_no_padding data : forall q l p out,
  q < 4 -> ~ In 61%N data ->
  match a2b_base64 data q l p out with
  | Ok r => (q + count_b64 data) mod 4 = 0 /\
            length r + pred q = length out + 3 * ((q + count_b64 data) / 4)
  | Raise _ => (q + count_b64 data) mod 4 <> 0
  end.
Proof.
  induction data as [|c data IH]; intros q l p out Hq Hn.
  - unfold count_b64. cbn [filter length].
    destruct q as [|[|q]]; cbn [a2b_base64];
      [rewrite length_rev; split; [reflexivity | cbn; lia] | dlia | dlia].
  - assert (Hc : (c =? 61)%N = false) by (apply N.eqb_neq; intros ->; apply Hn; left; reflexivity).
    assert (Hn' : ~ In 61%N data) by (intros H; apply Hn; right; exact H).
    assert (Hcount : count_b64 (c :: data) =
                     match b64_value c with
                     | Some _ => S (count_b64 data)
                     | None => count_b64 data
                     end).
    { unfold count_b64. cbn [filter]. unfold is_b64.
      destruct (b64_value c); reflexivity. }
    rewrite Hcount. cbn [a2b_base64]. rewrite Hc.
    destruct (b64_value c) as [v|].
    + destruct q as [|[|[|q]]].
      * specialize (IH 1 v 0 out ltac:(lia) Hn').
        destruct (a2b_base64 data 1 v 0 out); cbn [pred] in *; dlia.
      * specialize (IH 2 (N.land v 15) 0
                       (u8 (N.lor (N.shiftl l 2) (N.shiftr v 4)) :: out) ltac:(lia) Hn').
        destruct (a2b_base64 data 2 _ 0 _); cbn [pred length] in *; dlia.
      * specialize (IH 3 (N.land v 3) 0
                       (u8 (N.lor (N.shiftl l 4) (N.shiftr v 2)) :: out) ltac:(lia) Hn').
        destruct (a2b_base64 data 3 _ 0 _); cbn [pred length] in *; dlia.
      * assert (q = 0) by lia. subst q.
        specialize (IH 0 0%N 0 (u8 (N.lor (N.shiftl l 6) v) :: out) ltac:(lia) Hn').
        destruct (a2b_base64 data 0 _ 0 _); cbn [pred length] in *; dlia.
    + apply IH; assumption.
Qed.

(** X18. When a payload without pad signs is accepted.  [b64decode]
    succeeds on a string without [=] exactly when the string is ASCII and the
    number of its base-64 digits is a multiple of four; every other
    character is skipped, and each four digits give three bytes. *)
Theorem b64decode_without_padding (s : str) :
  ~ In 61%N s ->
  ((exists b, b64decode s = Ok b) <->
   forallb is_ascii s = true /\ count_b64 s mod 4 = 0) /\
  (forall b, b64decode s = Ok b -> 4 * length b = 3 * count_b64 s).
Proof.
  intros Hn. unfold b64decode. fold is_ascii.
  change (forallb (fun c => (c <? 128)%N) s) with (forallb is_ascii s).
  destruct (forallb is_ascii s).
  - pose proof (a2b_no_padding s 0 0%N 0 [] ltac:(lia) Hn) as H.
    destruct (a2b_base64 s 0 0 0 []) as [r|e]; cbn [plus pred length] in H.
    + split; [split; [intros _; split; [reflexivity | apply H] | eauto]|].
      intros b [= <-]. dlia.
    + split; [|discriminate]. split; [intros (b & Hb); discriminate|].
      intros [_ H0]. contradiction.
  - split; [|discriminate]. split; [intros (b & Hb); discriminate|].
    intros [H0 _]. discriminate.
Qed.

Lemma b64decode_without_padding_witness :
  ((exists b, b64decode (lit "aG kh") = Ok b) <->
   forallb is_ascii (lit "aG kh") = true /\ count_b64 (lit "aG kh") mod 4 = 0) /\
  (forall b, b64decode (lit "aG kh") = Ok b -> 4 * length b = 3 * count_b64 (lit "aG kh")) /\
  b64decode (lit "aG kh") = Ok (lit "hi!") /\
  b64decode (lit "aGk") = Raise (BinasciiError (lit "Incorrect padding")).
Proof.
  pose proof (b64decode_without_padding (lit "aG kh")) as H.
  split; [apply H | split; [apply H | split; vm_compute; reflexivity]];
    vm_compute; intros K; repeat (destruct K as [K|K]; [discriminate|]); exact K.
Defined.

(** *** UTF-8 *)

Lemma shiftl_mul a k : N.shiftl a k = (a * 2 ^ k)%N.
Proof. apply N.shiftl_mul_pow2. Qed.

Lemma decode_encoded_char c rest :
  is_scalar c = true ->
  decode_utf8_ignore (utf8_encode_char c ++ rest) = c :: decode_utf8_ignore rest.
Proof.
  unfold is_scalar, utf8_encode_char. intros Hs.
  destruct (N.ltb_spec c 128) as [H1|H1].
  { cbn [app decode_utf8_ignore].
    replace (c <? 128)%N with true by (symmetry; apply N.ltb_lt; exact H1).
    reflexivity. }
  destruct (N.ltb_spec c 2048) as [H2|H2].
  { cbn [app decode_utf8_ignore]. unfold is_cont.
    replace (192 + c / 64 <? 128)%N with false by (symmetry; apply N.ltb_ge; dlia).
    replace (192 + c / 64 <? 224)%N with true by (symmetry; apply N.ltb_lt; dlia).
    replace (192 + c / 64 <? 194)%N with false by (symmetry; apply N.ltb_ge; dlia).
    replace (128 <=? 128 + c mod 64)%N with true by (symmetry; apply N.leb_le; dlia).
    replace (128 + c mod 64 <? 192)%N with true by (symmetry; apply N.ltb_lt; dlia).
    cbn [andb]. f_equal. rewrite shiftl_mul. change (2 ^ 6)%N with 64%N. dlia. }
  destruct (N.ltb_spec c 65536) as [H3|H3].
  { assert (Hsur : (c < 55296 \/ 57343 < c)%N).
    { destruct (N.ltb_spec c 55296); [left; assumption|]. cbn [orb] in Hs.
      apply andb_prop in Hs as [Hs _]. apply N.ltb_lt in Hs. right; exact Hs. }
    cbn [app decode_utf8_ignore]. unfold is_cont.
    replace (224 + c / 4096 <? 128)%N with false by (symmetry; apply N.ltb_ge; dlia).
    replace (224 + c / 4096 <? 224)%N with false by (symmetry; apply N.ltb_ge; dlia).
    replace (224 + c / 4096 <? 240)%N with true by (symmetry; apply N.ltb_lt; dlia).
    replace (128 <=? 128 + (c / 64) mod 64)%N with true by (symmetry; apply N.leb_le; dlia).
    replace (128 + (c / 64) mod 64 <? 192)%N with true by (symmetry; apply N.ltb_lt; dlia).
    replace (128 <=? 128 + c mod 64)%N with true by (symmetry; apply N.leb_le; dlia).
    replace (128 + c mod 64 <? 192)%N with true by (symmetry; apply N.ltb_lt; dlia).
    cbn [andb negb orb].
    replace (if (128 + (c / 64) mod 64 <? 160)%N
             then (224 + c / 4096 =? 224)%N else (224 + c / 4096 =? 237)%N)
      with false.
    2:{ symmetry. destruct (N.ltb_spec (128 + (c / 64) mod 64) 160);
          apply N.eqb_neq; dlia. }
    f_equal. rewrite !shiftl_mul. change (2 ^ 12)%N with 4096%N.
    change (2 ^ 6)%N with 64%N. dlia. }
  assert (H4 : (c < 1114112)%N).
  { destruct (N.ltb_spec c 55296); [lia|]. cbn [orb] in Hs.
    apply andb_prop in Hs as [_ Hs]. apply N.ltb_lt in Hs. exact Hs. }
  cbn [app decode_utf8_ignore]. unfold is_cont.
  replace (240 + c / 262144 <? 128)%N with false by (symmetry; apply N.ltb_ge; dlia).
  replace (240 + c / 262144 <? 224)%N with false by (symmetry; apply N.ltb_ge; dlia).
  replace (240 + c / 262144 <? 240)%N with false by (symmetry; apply N.ltb_ge; dlia).
  replace (240 + c / 262144 <? 245)%N with true by (symmetry; apply N.ltb_lt; dlia).
  replace (128 <=? 128 + (c / 4096) mod 64)%N with true by (symmetry; apply N.leb_le; dlia).
  replace (128 + (c / 4096) mod 64 <? 192)%N with true by (symmetry; apply N.ltb_lt; dlia).
  replace (128 <=? 128 + (c / 64) mod 64)%N with true by (symmetry; apply N.leb_le; dlia).
  replace (128 + (c / 64) mod 64 <? 192)%N with true by (symmetry; apply N.ltb_lt; dlia).
  replace (128 <=? 128 + c mod 64)%N with true by (symmetry; apply N.leb_le; dlia).
  replace (128 + c mod 64 <? 192)%N with true by (symmetry; apply N.ltb_lt; dlia).
  cbn [andb negb orb].
  replace (if (128 + (c / 4096) mod 64 <? 144)%N
           then (240 + c / 262144 =? 240)%N else (240 + c / 262144 =? 244)%N)
    with false.
  2:{ symmetry. destruct (N.ltb_spec (128 + (c / 4096) mod 64) 144);
        apply N.eqb_neq; dlia. }
  f_equal. rewrite !shiftl_mul. change (2 ^ 18)%N with 262144%N.
  change (2 ^ 12)%N with 4096%N. change (2 ^ 6)%N with 64%N. dlia.
Qed.

(** X19. The UTF-8 decoder undoes the UTF-8 encoding: every string of
    Unicode scalar values (code points up to U+10FFFF without the
    surrogates) comes back unchanged from its encoding; on well-formed input
    the [ignore] handler drops nothing. *)
Theorem decode_utf8_of_encoding (s : str) :
  forallb is_scalar s = true -> decode_utf8_ignore (utf8_encode s) = s.
Proof.
  induction s as [|c s IH]; [reflexivity|].
  cbn [forallb]. intros H. apply andb_prop in H as [Hc Hs].
  unfold utf8_encode. cbn [flat_map]. rewrite (decode_encoded_char c _ Hc).
  f_equal. apply IH. exact Hs.
Qed.

Lemma decode_utf8_of_encoding_witness :
  decode_utf8_ignore (utf8_encode [104; 233; 8364; 128512]%N) = [104; 233; 8364; 128512]%N /\
  utf8_encode [104; 233; 8364; 128512]%N
  = [104; 195; 169; 226; 130; 172; 240; 159; 152; 128]%N.
Proof.
  split; [apply (decode_utf8_of_encoding [104; 233; 8364; 128512]%N) | ];
    vm_compute; reflexivity.
Defined.

Lemma utf8_encode_bytes s :
  forallb is_scalar s = true -> forallb is_byte (utf8_encode s) = true.
Proof.
  induction s as [|c s IH]; [reflexivity|].
  cbn [forallb]. intros H. apply andb_prop in H as [Hc Hs].
  unfold utf8_encode. cbn [flat_map]. rewrite forallb_app. fold (utf8_encode s).
  rewrite (IH Hs), andb_true_r.
  unfold is_scalar in Hc. unfold utf8_encode_char, is_byte.
  assert (H4 : (c < 1114112)%N).
  { destruct (N.ltb_spec c 55296); [lia|]. cbn [orb] in Hc.
    apply andb_prop in Hc as [_ Hc]. apply N.ltb_lt in Hc. exact Hc. }
  destruct (N.ltb_spec c 128); [cbn [forallb]; rewrite andb_true_r; apply N.ltb_lt; lia|].
  destruct (N.ltb_spec c 2048);
    [cbn [forallb]; rewrite andb_true_r; apply andb_true_intro; split;
     apply N.ltb_lt; dlia|].
  destruct (N.ltb_spec c 65536); cbn [forallb]; rewrite andb_true_r;
    repeat (apply andb_true_intro; split); apply N.ltb_lt; dlia.
Qed.

Lemma utf8_encode_nonempty s : s <> [] -> utf8_encode s <> [].
Proof.
  destruct s as [|c s]; [congruence|]. intros _. unfold utf8_encode. cbn [flat_map].
  unfold utf8_encode_char.
  destruct (c <? 128)%N; [discriminate|].
  destruct (c <? 2048)%N; [discriminate|].
  destruct (c <? 65536)%N; discriminate.
Qed.

Lemma b64encode_nonempty bs : bs <> [] -> b64encode bs <> [].
Proof. destruct bs as [|a [|b [|c rest]]]; [congruence| | |]; intros _; discriminate. Qed.

(** X26. The UTF-8 decoder yields well-formed text whatever it is given: for
    every sequence of bytes, each code point of the result is a Unicode
    scalar value, never a surrogate and never beyond U+10FFFF. *)
Theorem decode_utf8_yields_scalars (b : bytes) :
  forallb is_scalar (decode_utf8_ignore b) = true.
Proof.
  assert (H : forall n b, length b <= n ->
                          forallb is_scalar (decode_utf8_ignore b) = true).
  { clear b.
    induction n as [|n IH]; intros b Hn.
    - destruct b; [reflexivity | simpl in Hn; lia].
    - destruct b as [|c1 b1]; [reflexivity|].
      assert (H1 : forallb is_scalar (decode_utf8_ignore b1) = true)
        by (apply IH; simpl in Hn; lia).
      cbn [decode_utf8_ignore]. unfold is_cont.
      repeat match goal with
      | |- context [match ?l with [] => _ | _ :: _ => _ end] =>
          let x := fresh "c" in let l' := fresh "b" in
          destruct l as [|x l'];
          [| assert (forallb is_scalar (decode_utf8_ignore l') = true)
               by (apply IH; simpl in *; lia)]
      | |- context [if ?c then _ else _] => destruct c eqn:?
      end; try reflexivity; try assumption;
        cbn [forallb]; apply andb_true_intro; (split; [|assumption]);
        unfold is_scalar; rewrite ?shiftl_mul;
        change (2 ^ 18)%N with 262144%N; change (2 ^ 12)%N with 4096%N;
        change (2 ^ 6)%N with 64%N;
        repeat match goal with
        | H : context [if ?c then _ else _] |- _ => destruct c eqn:?
        end; lia. }
  apply (H (length b)). lia.
Qed.

(** *** Revealing encoded text *)

Lemma revealed_of html : exists out, try_decode_base64_blocks html = Ok out /\ revealed html out.
Proof. apply try_decode_base64_blocks_total. Qed.

Lemma try_decode_is_revealed html out :
  revealed html out -> try_decode_base64_blocks html = Ok out.
Proof.
  intros H. destruct (revealed_of html) as (out' & E & R).
  rewrite E. f_equal. eapply revealed_functional; eauto.
Qed.

(** X20. The decoder reveals encoded text.  An inline call whose payload is
    the base-64 encoding of the UTF-8 encoding of a text [t] is replaced by
    [t], for every non-empty [t] of Unicode scalar values, and the rest of
    the page is decoded as it would be on its own. *)
Theorem encoded_block_is_revealed (t rest : str) :
  t <> [] -> forallb is_scalar t = true ->
  try_decode_base64_blocks
    (lit "atob(`" ++ b64encode (utf8_encode t) ++ lit "`)" ++ rest)
  = bind (try_decode_base64_blocks rest) (fun out => Ok (t ++ out)).
Proof.
  intros Ht Hs.
  set (payload := b64encode (utf8_encode t)).
  pose proof (b64encode_chars _ (utf8_encode_bytes t Hs)) as Hchars.
  fold payload in Hchars. rewrite Forall_forall in Hchars.
  assert (Hcall : atob_call (lit "atob(`" ++ payload ++ lit "`)") payload).
  { exists (lit "atob"). split; [reflexivity|]. split; [reflexivity|]. split.
    - apply b64encode_nonempty, utf8_encode_nonempty, Ht.
    - intros Hin. destruct (enc_char_plain _ (Hchars _ Hin)) as (_ & H96 & _).
      apply H96. reflexivity. }
  assert (Hrep : replacement (lit "atob(`" ++ payload ++ lit "`)") payload = t).
  { unfold replacement.
    replace (remove_char 10%N payload) with payload.
    - assert (Hdec : b64decode payload = Ok (utf8_encode t)).
      { unfold b64decode.
        replace (forallb (fun c => (c <? 128)%N) payload) with true.
        - unfold payload. rewrite (a2b_encoded _ [] (utf8_encode_bytes t Hs)). reflexivity.
        - symmetry. apply forallb_forall. intros c Hc.
          apply (enc_char_plain c (Hchars c Hc)). }
      rewrite Hdec. clear - Hs. induction t as [|c t IH]; [reflexivity|].
      cbn [forallb] in Hs. apply andb_prop in Hs as [Hc Hs].
      unfold utf8_encode. cbn [flat_map]. rewrite (decode_encoded_char c _ Hc).
      f_equal. apply IH. exact Hs.
    - unfold remove_char. symmetry. apply forallb_filter_id.
      apply forallb_forall. intros c Hc. apply negb_true_iff, N.eqb_neq.
      destruct (enc_char_plain _ (Hchars _ Hc)) as (_ & _ & H10). exact H10. }
  destruct (revealed_of rest) as (out & E & R). rewrite E. cbn [bind].
  apply try_decode_is_revealed.
  replace (lit "atob(`" ++ payload ++ lit "`)" ++ rest)
    with ((lit "atob(`" ++ payload ++ lit "`)") ++ rest)
    by (rewrite <- !app_assoc; reflexivity).
  rewrite <- Hrep. apply revealed_call; assumption.
Qed.

Lemma encoded_block_is_revealed_witness :
  try_decode_base64_blocks
    (lit "atob(`" ++ b64encode (utf8_encode (lit "<b>4 rows</b>")) ++ lit "`)" ++ lit " end")
  = bind (try_decode_base64_blocks (lit " end")) (fun out => Ok (lit "<b>4 rows</b>" ++ out)) /\
  lit "atob(`" ++ b64encode (utf8_encode (lit "<b>4 rows</b>")) ++ lit "`)" ++ lit " end"
  = lit "atob(`PGI+NCByb3dzPC9iPg==`) end".
Proof.
  split; [apply (encoded_block_is_revealed (lit "<b>4 rows</b>") (lit " end")) | ];
    solve [discriminate | vm_compute; reflexivity].
Defined.

(** X21. A page without a backquote is left as it is: every inline call
    contains a backquote, so on such a page there is nothing to replace. *)
Theorem page_without_backquote_is_unchanged (html : str) :
  ~ In 96%N html -> try_decode_base64_blocks html = Ok html.
Proof.
  intros Hn. apply try_decode_is_revealed.
  induction html as [|c html IH]; [constructor|].
  apply revealed_char.
  - intros call payload rest (name & _ & -> & _ & _) E. apply Hn. rewrite E.
    apply in_or_app. left. apply in_or_app. right.
    apply in_or_app. left. cbn. auto.
  - apply IH. intros H. apply Hn. right. exact H.
Qed.

Lemma page_without_backquote_is_unchanged_witness :
  try_decode_base64_blocks (lit "<p>atob(aGk=) stays</p>") = Ok (lit "<p>atob(aGk=) stays</p>").
Proof.
  apply (page_without_backquote_is_unchanged (lit "<p>atob(aGk=) stays</p>")).
  vm_compute. intros K. repeat (destruct K as [K|K]; [discriminate|]). exact K.
Defined.

(** X25. Revealing never makes a page longer: the result of
    [try_decode_base64_blocks] has at most as many characters as the page,
    and it has as many only when it is the page itself, nothing having been
    decoded. *)
Theorem revealing_never_lengthens (html out : str) :
  try_decode_base64_blocks html = Ok out ->
  length out <= length html /\ (length out = length html -> out = html).
Proof.
  unfold try_decode_base64_blocks, sub_with. intros H.
  pose proof (TwiceFacts.tokens_source I BASE64_INNER_HTML_RE html 0 None 0
                ltac:(lia)) as Hsrc.
  cbn [skipn] in Hsrc.
  destruct (TwiceFacts.sub_tokens_shorter _ out
              (fun m Hm => TwiceFacts.tokens_call_match m html 0 None 0 Hm) H)
    as [Hle Heq].
  rewrite Hsrc in Hle, Heq. split; [exact Hle|].
  intros Hl. apply Heq in Hl. apply TwiceFacts.sub_tokens_identity in Hl.
  rewrite H, Hsrc in Hl. congruence.
Qed.

Lemma revealing_never_lengthens_witness :
  length (lit "hi") <= length (lit "atob(`aGk=`)") /\
  (length (lit "hi") = length (lit "atob(`aGk=`)") -> lit "hi" = lit "atob(`aGk=`)").
Proof.
  apply (revealing_never_lengthens (lit "atob(`aGk=`)") (lit "hi")).
  vm_compute. reflexivity.
Defined.

End CodecFacts.

(* ================================================================== *)
(** * What the patterns capture *)

Module ShapeFacts.
Import Py Re Codec Num Quiz Ref Shape Enc ReFacts DecodeFacts SumFacts CodecFacts.

Lemma steps_over_refl st : steps_over st [] st.
Proof. unfold steps_over. cbn. auto. Qed.

Lemma steps_over_trans a u b v c :
  steps_over a u b -> steps_over b v c -> steps_over a (u ++ v) c.
Proof.
  intros (R1 & P1 & C1) (R2 & P2 & C2). unfold steps_over.
  rewrite R1, R2, P2, P1, C2, C1, length_app, app_assoc. repeat split; lia.
Qed.

Lemma hd_error_in (A : Type) (l : list A) x : hd_error l = Some x -> In x l.
Proof. destruct l; [discriminate|]. intros [= ->]. left. reflexivity. Qed.

Lemma hd_error_flat_map (A B : Type) (g : A -> list B) l x :
  hd_error (flat_map g l) = Some x -> exists y, In y l /\ hd_error (g y) = Some x.
Proof.
  induction l as [|a l IH]; [discriminate|]. cbn [flat_map].
  destruct (g a) as [|b bs] eqn:E.
  - cbn [app]. intros H. destruct (IH H) as (y & Hy & Hx). exists y. split; [right|]; auto.
  - cbn. intros [= ->]. exists a. rewrite E. split; [left|]; reflexivity.
Qed.

Lemma hd_error_map (A B : Type) (f : A -> B) l x :
  hd_error (List.map f l) = Some x -> exists y, hd_error l = Some y /\ x = f y.
Proof. destruct l as [|a l]; [discriminate|]. cbn. intros [= <-]. eauto. Qed.

Lemma wmatch_spells ic w : forall s,
  wmatch ic w s = true ->
  Forall2 (fun x c => chr_match ic x c = true) w (firstn (length w) s).
Proof.
  induction w as [|x w IH]; intros s H; [constructor|].
  destruct s as [|c s]; [discriminate|]. cbn [wmatch] in H.
  apply andb_prop in H as [H1 H2]. cbn [length firstn]. constructor; auto.
Qed.

(** A literal word. *)
Lemma word_in fl w st st' :
  w <> [] -> In st' (run fl (word w) st) ->
  exists u, steps_over st u st' /\
            Forall2 (fun x c => chr_match (ignorecase fl) x c = true) w u.
Proof.
  intros Hw. rewrite (run_word fl w st Hw).
  destruct (wmatch (ignorecase fl) w (m_rest st)) eqn:E; [|intros []].
  intros [<-|[]]. exists (firstn (length w) (m_rest st)). split.
  - unfold steps_over. rewrite jump_rest, jump_caps, firstn_skipn.
    pose proof (wmatch_length _ _ _ E) as Hl.
    rewrite (jump_pos _ _ Hl), length_firstn. repeat split; lia.
  - apply wmatch_spells. exact E.
Qed.

(** A repetition. *)
Lemma rep_in fl lazy sg st' : forall s min st,
  m_rest st = s -> In st' (rep_run fl lazy sg min s st) ->
  exists u, steps_over st u st' /\ forallb (single_match fl sg) u = true /\
            min <= length u.
Proof.
  induction s as [|c s IH]; intros min st Hst; cbn [rep_run].
  - destruct min; [|intros []]. intros [<-|[]]. exists [].
    split; [apply steps_over_refl|]. split; [reflexivity | cbn; lia].
  - assert (Hstop : In st' (match min with 0 => [st] | S _ => [] end) ->
             exists u, steps_over st u st' /\ forallb (single_match fl sg) u = true /\
                       min <= length u).
    { destruct min; [|intros []]. intros [<-|[]]. exists [].
      split; [apply steps_over_refl|]. split; [reflexivity | cbn; lia]. }
    destruct (single_match fl sg c) eqn:E; [|exact Hstop].
    assert (Hmore : In st' (rep_run fl lazy sg (pred min) s (advance c s st)) ->
             exists u, steps_over st u st' /\ forallb (single_match fl sg) u = true /\
                       min <= length u).
    { intros H. apply IH in H; [|reflexivity].
      destruct H as (u & (R & P & C) & F & L). exists (c :: u). split.
      - unfold steps_over. cbn [advance m_rest m_pos m_caps] in *.
        rewrite Hst, R, P, C. cbn [app length]. repeat split; lia.
      - cbn [forallb length]. rewrite E, F. split; [reflexivity | lia]. }
    destruct lazy; intros H; apply in_app_or in H; destruct H as [H|H]; auto.
Qed.

(** The first proposal of a greedy repetition stops where the class stops. *)
Lemma rep_head fl sg min st st' :
  hd_error (rep_run fl false sg min (m_rest st) st) = Some st' ->
  match m_rest st' with
  | c :: _ => single_match fl sg c = false
  | [] => True
  end.
Proof.
  rewrite rep_greedy_head.
  destruct (Nat.leb min (run_len (single_match fl sg) (m_rest st))); [|discriminate].
  intros [= <-]. rewrite (eat_rest fl sg (m_rest st) st eq_refl).
  apply run_len_stop.
Qed.

Lemma one_in fl sg st st' :
  In st' (run fl (One sg) st) ->
  exists c, steps_over st [c] st' /\ single_match fl sg c = true.
Proof.
  cbn [run]. destruct (m_rest st) as [|c s'] eqn:E; [intros []|].
  destruct (single_match fl sg c) eqn:Ec; [|intros []]. intros [<-|[]].
  exists c. split; [|exact Ec]. unfold steps_over. cbn. rewrite E. repeat split; lia.
Qed.

Lemma is_space_tolower c : is_space (tolower c) = is_space c.
Proof.
  unfold tolower. destruct (is_upper c) eqn:U.
  - assert (Hc : (c < N.of_nat 91)%N).
    { unfold is_upper in U. apply andb_prop in U as [_ U]. apply N.leb_le in U. lia. }
    assert (C : all_below 91 (fun c => if is_upper c
                                       then Bool.eqb (is_space (c + 32)%N) (is_space c)
                                       else true) = true) by (vm_compute; reflexivity).
    pose proof (all_below_spec _ _ C c Hc) as H. cbv beta in H. rewrite U in H.
    apply Bool.eqb_prop in H. exact H.
  - destruct (N.eqb_spec c 304); [subst; reflexivity|].
    destruct (N.eqb_spec c 8490); [subst; reflexivity | reflexivity].
Qed.

Lemma ws_match_I c : single_match I (SCls false [ISpace]) c = is_space c.
Proof. cbn. rewrite orb_false_r. apply is_space_tolower. Qed.

Lemma url_char_match c : single_match I url_char c = url_ok c.
Proof.
  unfold url_char, url_ok. cbn [single_match ignorecase I existsb item_match].
  rewrite is_space_tolower, !chr_match_punct by lia.
  destruct (is_space c), (c =? 34)%N, (c =? 39)%N, (c =? 60)%N, (c =? 62)%N; reflexivity.
Qed.

Lemma forallb_ext_in (A : Type) (p q : A -> bool) l :
  (forall x, p x = q x) -> forallb p l = forallb q l.
Proof. intros H. induction l as [|x l IH]; cbn; [reflexivity|]. rewrite H, IH. reflexivity. Qed.

(** One or more whitespace characters, under IGNORECASE. *)
Lemma ws_plus_in st st' :
  In st' (run I ws_plus st) ->
  exists w, steps_over st w st' /\ forallb is_space w = true /\ w <> [].
Proof.
  unfold ws_plus. cbn [run]. intros H.
  apply rep_in in H as (w & Hs & Hf & Hl); [|reflexivity].
  exists w. split; [exact Hs|]. split.
  - rewrite <- Hf. apply forallb_ext_in. intros x. symmetry. apply ws_match_I.
  - destruct w; [cbn in Hl; lia | discriminate].
Qed.

(** [verb\s+to], under IGNORECASE. *)
Lemma directive_in verb st st' :
  lit verb <> [] ->
  In st' (run I (seq_of [text verb; ws_plus; text "to"]) st) ->
  exists d w t,
    steps_over st (d ++ w ++ t) st' /\ spells (lit verb) d /\
    forallb is_space w = true /\ w <> [] /\ spells (lit "to") t.
Proof.
  intros Hv. cbn [seq_of]. rewrite run_cat.
  rewrite in_flat_map. intros (y1 & H1 & H).
  rewrite run_cat, in_flat_map in H. destruct H as (y2 & H2 & H3).
  apply (word_in I _ _ _ Hv) in H1 as (d & S1 & F1).
  apply ws_plus_in in H2 as (w & S2 & F2 & N2).
  apply (word_in I (lit "to")) in H3 as (t & S3 & F3); [|discriminate].
  exists d, w, t. split; [|auto].
  eapply steps_over_trans; [exact S1|]. eapply steps_over_trans; eauto.
Qed.

(** X22. What [extract_submit_url] returns.  The URL is a piece of the text
    that follows [submit to] or [POST to] (any letter case, any amount of
    whitespace after each word); it starts with [http://] or [https://] in
    any letter case, goes on with at least one more character, holds no
    whitespace, quote or angle bracket, and runs up to the next such
    character or to the end of the text: punctuation that follows the
    address in a sentence is part of what is returned. *)
Theorem submit_url_shape (text u : str) :
  extract_submit_url text = Some u ->
  exists before verb w1 to w2 scheme host after,
    text = before ++ verb ++ w1 ++ to ++ w2 ++ u ++ after /\
    (spells (lit "submit") verb \/ spells (lit "POST") verb) /\
    spells (lit "to") to /\
    forallb is_space w1 = true /\ w1 <> [] /\
    forallb is_space w2 = true /\ w2 <> [] /\
    u = scheme ++ host /\
    (spells (lit "http://") scheme \/ spells (lit "https://") scheme) /\
    host <> [] /\ forallb url_ok host = true /\
    match after with c :: _ => url_ok c = false | [] => True end.
Proof.
  unfold extract_submit_url, search.
  destruct (search_from I SUBMIT_URL_RE None 0 text) as [m|] eqn:Es; [|discriminate].
  intros Hg.
  apply search_from_leftmost in Es as (pre & rest & -> & Hm & _).
  unfold match_at in Hm.
  set (st0 := {| m_prev := prev_of None pre; m_pos := 0; m_rest := rest; m_caps := [] |}) in *.
  destruct (run I SUBMIT_URL_RE st0) as [|st' l] eqn:Er; [discriminate|].
  injection Hm as <-. unfold group in Hg. cbn [m_groups] in Hg.
  assert (Hh : hd_error (run I SUBMIT_URL_RE st0) = Some st') by (rewrite Er; reflexivity).
  clear Er l. unfold SUBMIT_URL_RE in Hh. cbn [seq_of] in Hh.
  rewrite run_cat in Hh. apply hd_error_flat_map in Hh as (y1 & Hy1 & Hh).
  rewrite run_cat in Hh. apply hd_error_flat_map in Hh as (y2 & Hy2 & Hh).
  cbn [run] in Hy1. apply in_app_or in Hy1.
  assert (Hdir : exists verb w1 to,
             steps_over st0 (verb ++ w1 ++ to) y1 /\
             (spells (lit "submit") verb \/ spells (lit "POST") verb) /\
             forallb is_space w1 = true /\ w1 <> [] /\ spells (lit "to") to).
  { destruct Hy1 as [H|H].
    - apply (directive_in "submit") in H as (d & w & t & S & F & W & N & T);
        [|discriminate].
      exists d, w, t. auto 10.
    - apply (directive_in "POST") in H as (d & w & t & S & F & W & N & T);
        [|discriminate].
      exists d, w, t. auto 10. }
  destruct Hdir as (verb & w1 & to & S1 & Hverb & W1 & N1 & Hto).
  apply ws_plus_in in Hy2 as (w2 & S2 & W2 & N2).
  change (run I (Grp 1 (seq_of url_re)) y2)
    with (List.map (fun z => set_cap 1 (firstn (m_pos z - m_pos y2) (m_rest y2)) z)
                   (run I (seq_of url_re) y2)) in Hh.
  apply hd_error_map in Hh as (z & Hz & ->).
  unfold url_re in Hz. cbn [seq_of] in Hz.
  rewrite run_cat in Hz. apply hd_error_flat_map in Hz as (z1 & Hz1 & Hz).
  rewrite run_cat in Hz. apply hd_error_flat_map in Hz as (z2 & Hz2 & Hz).
  rewrite run_cat in Hz. apply hd_error_flat_map in Hz as (z3 & Hz3 & Hz).
  apply (word_in I (lit "http")) in Hz1 as (u1 & T1 & F1); [|discriminate].
  assert (Hopt : exists u2, steps_over z1 u2 z2 /\
                            (u2 = [] \/ exists c, u2 = [c] /\ chr_match true 115%N c = true)).
  { rewrite run_opt in Hz2. apply in_app_or in Hz2. destruct Hz2 as [H|[<-|[]]].
    - apply one_in in H as (c & Hs & Hc). exists [c]. split; [exact Hs|]. right.
      exists c. split; [reflexivity | exact Hc].
    - exists []. split; [apply steps_over_refl | left; reflexivity]. }
  destruct Hopt as (u2 & T2 & F2).
  apply (word_in I (lit "://")) in Hz3 as (u3 & T3 & F3); [|discriminate].
  change (run I (Rep false 1 url_char) z3)
    with (rep_run I false url_char 1 (m_rest z3) z3) in Hz.
  pose proof (rep_head _ _ _ _ _ Hz) as Hstop.
  apply hd_error_in in Hz. apply rep_in in Hz as (u4 & T4 & F4 & L4); [|reflexivity].
  pose proof (steps_over_trans _ _ _ _ _ T1
                (steps_over_trans _ _ _ _ _ T2
                   (steps_over_trans _ _ _ _ _ T3 T4))) as (R & P & C).
  cbn [set_cap m_caps] in Hg. cbn [assoc Nat.eqb] in Hg. injection Hg as <-.
  rewrite P, R.
  replace (m_pos y2 + length (u1 ++ u2 ++ u3 ++ u4) - m_pos y2)
    with (length (u1 ++ u2 ++ u3 ++ u4)) by lia.
  rewrite firstn_app_length.
  pose proof (steps_over_trans _ _ _ _ _ S1 S2) as (R0 & _ & _).
  cbn [m_rest st0] in R0.
  exists pre, verb, w1, to, w2, (u1 ++ u2 ++ u3), u4, (m_rest z).
  split.
  { rewrite R0, R, <- !app_assoc. reflexivity. }
  split; [exact Hverb|]. split; [exact Hto|].
  split; [exact W1|]. split; [exact N1|]. split; [exact W2|]. split; [exact N2|].
  split; [rewrite <- !app_assoc; reflexivity|].
  split.
  { destruct F2 as [->|(c & -> & Hc)].
    - left. change (lit "http://") with (lit "http" ++ lit "://").
      apply Forall2_app; assumption.
    - right. change (lit "https://") with (lit "http" ++ [115%N] ++ lit "://").
      apply Forall2_app; [assumption|]. apply Forall2_app; [|assumption].
      constructor; [exact Hc | constructor]. }
  split; [destruct u4; [cbn in L4; lia | discriminate]|].
  split.
  - rewrite <- F4. apply forallb_ext_in. intros x. symmetry. apply url_char_match.
  - destruct (m_rest z) as [|c r]; [exact Logic.I|].
    rewrite <- url_char_match. exact Hstop.
Qed.

Lemma submit_url_shape_witness :
  exists before verb w1 to w2 scheme host after,
    lit "Answer, then POST  to HTTPS://q.test/submit?id=7. Thanks" =
      before ++ verb ++ w1 ++ to ++ w2 ++ lit "HTTPS://q.test/submit?id=7." ++ after /\
    (spells (lit "submit") verb \/ spells (lit "POST") verb) /\
    spells (lit "to") to /\
    forallb is_space w1 = true /\ w1 <> [] /\
    forallb is_space w2 = true /\ w2 <> [] /\
    lit "HTTPS://q.test/submit?id=7." = scheme ++ host /\
    (spells (lit "http://") scheme \/ spells (lit "https://") scheme) /\
    host <> [] /\ forallb url_ok host = true /\
    match after with c :: _ => url_ok c = false | [] => True end.
Proof.
  apply (submit_url_shape (lit "Answer, then POST  to HTTPS://q.test/submit?id=7. Thanks")
           (lit "HTTPS://q.test/submit?id=7.")).
  vm_compute. reflexivity.
Defined.

Lemma spells_exact w u :
  Forall2 (fun x c => chr_match false x c = true) w u -> u = w.
Proof.
  induction 1 as [|x c w u H _ IH]; [reflexivity|].
  cbn in H. apply N.eqb_eq in H. subst. reflexivity.
Qed.

(** Whitespace, possibly none, without IGNORECASE. *)
Lemma ws_star_in st st' :
  In st' (run S_ ws_star st) ->
  exists w, steps_over st w st' /\ forallb is_space w = true.
Proof.
  unfold ws_star. cbn [run]. intros H.
  apply rep_in in H as (w & Hs & Hf & _); [|reflexivity].
  exists w. split; [exact Hs|].
  rewrite <- Hf. apply forallb_ext_in. intros x. cbn. rewrite orb_false_r. reflexivity.
Qed.

(** X23. What [find_embedded_json_payload] parses.  A value is returned only
    for a page that holds, between [<pre>] and [</pre>] in lower case and
    apart from whitespace around it, a piece of text that starts with an
    opening brace and ends with a closing brace; that piece is what
    [json.loads] was given, and the value is what it returned. *)
Theorem embedded_json_shape (World : Type) (env : collaborators World)
        (text : str) (v : json) :
  find_embedded_json_payload env text = Some v ->
  exists before w1 mid w2 after,
    text = before ++ lit "<pre>" ++ w1 ++ lit "{" ++ mid ++ lit "}" ++ w2
                  ++ lit "</pre>" ++ after /\
    forallb is_space w1 = true /\ forallb is_space w2 = true /\
    json_loads env (lit "{" ++ mid ++ lit "}") = Ok v.
Proof.
  unfold find_embedded_json_payload, search.
  destruct (search_from S_ JSON_BLOCK_RE None 0 text) as [m|] eqn:Es; [|discriminate].
  apply search_from_leftmost in Es as (pre & rest & -> & Hm & _).
  unfold match_at in Hm.
  set (st0 := {| m_prev := prev_of None pre; m_pos := 0; m_rest := rest; m_caps := [] |}) in *.
  destruct (run S_ JSON_BLOCK_RE st0) as [|st' l] eqn:Er; [discriminate|].
  injection Hm as <-. unfold group. cbn [m_groups].
  assert (Hin : In st' (run S_ JSON_BLOCK_RE st0)) by (rewrite Er; left; reflexivity).
  clear Er l. unfold JSON_BLOCK_RE in Hin. cbn [seq_of] in Hin.
  rewrite run_cat, in_flat_map in Hin. destruct Hin as (y1 & H1 & Hin).
  rewrite run_cat, in_flat_map in Hin. destruct Hin as (y2 & H2 & Hin).
  rewrite run_cat, in_flat_map in Hin. destruct Hin as (y3 & H3 & Hin).
  rewrite run_cat, in_flat_map in Hin. destruct Hin as (y4 & H4 & H5).
  apply (word_in S_ (lit "<pre>")) in H1 as (u1 & S1 & F1); [|discriminate].
  apply spells_exact in F1. subst u1.
  apply ws_star_in in H2 as (w1 & S2 & W1).
  change (run S_ (Grp 1 (Cat (text "{") (Cat (Rep true 0 SAny) (text "}")))) y2)
    with (List.map (fun z => set_cap 1 (firstn (m_pos z - m_pos y2) (m_rest y2)) z)
                   (run S_ (Cat (text "{") (Cat (Rep true 0 SAny) (text "}"))) y2)) in H3.
  apply in_map_iff in H3 as (z & <- & Hz).
  rewrite run_cat, in_flat_map in Hz. destruct Hz as (z1 & Hz1 & Hz).
  rewrite run_cat, in_flat_map in Hz. destruct Hz as (z2 & Hz2 & Hz3).
  apply (word_in S_ (lit "{")) in Hz1 as (b1 & T1 & G1); [|discriminate].
  apply spells_exact in G1. subst b1.
  change (run S_ (Rep true 0 SAny) z1) with (rep_run S_ true SAny 0 (m_rest z1) z1) in Hz2.
  apply rep_in in Hz2 as (mid & T2 & _ & _); [|reflexivity].
  apply (word_in S_ (lit "}")) in Hz3 as (b3 & T3 & G3); [|discriminate].
  apply spells_exact in G3. subst b3.
  pose proof (steps_over_trans _ _ _ _ _ T1 (steps_over_trans _ _ _ _ _ T2 T3))
    as (R & P & C).
  set (g := firstn (m_pos z - m_pos y2) (m_rest y2)) in *.
  assert (Hg : g = lit "{" ++ mid ++ lit "}").
  { unfold g. rewrite P, R.
    replace (m_pos y2 + length (lit "{" ++ mid ++ lit "}") - m_pos y2)
      with (length (lit "{" ++ mid ++ lit "}")) by lia.
    apply firstn_app_length. }
  apply ws_star_in in H4 as (w2 & S4 & W2).
  apply (word_in S_ (lit "</pre>")) in H5 as (u5 & S5 & F5); [|discriminate].
  apply spells_exact in F5. subst u5.
  assert (Hcaps : m_caps st' = [(1, g)]).
  { destruct S5 as (_ & _ & C5). destruct S4 as (_ & _ & C4).
    rewrite C5, C4. cbn [set_cap m_caps]. rewrite C.
    destruct S2 as (_ & _ & C2). destruct S1 as (_ & _ & C1).
    rewrite C2, C1. reflexivity. }
  rewrite Hcaps. cbn [assoc Nat.eqb]. rewrite Hg.
  destruct (json_loads env (lit "{" ++ mid ++ lit "}")) as [v'|e] eqn:Ej; [|discriminate].
  intros [= <-].
  exists pre, w1, mid, w2, (m_rest st').
  split; [|auto].
  pose proof (steps_over_trans _ _ _ _ _ S1 S2) as (R12 & _ & _).
  cbn [m_rest st0] in R12.
  destruct S4 as (R4 & _ & _). destruct S5 as (R5 & _ & _).
  cbn [set_cap m_rest] in R4.
  rewrite R12, R, R4, R5, <- !app_assoc. reflexivity.
Qed.

Lemma embedded_json_shape_witness :
  exists before w1 mid w2 after,
    Scenario.json_target_page =
      before ++ lit "<pre>" ++ w1 ++ lit "{" ++ mid ++ lit "}" ++ w2
             ++ lit "</pre>" ++ after /\
    forallb is_space w1 = true /\ forallb is_space w2 = true /\
    json_loads (Scenario.scripted Scenario.three_steps) (lit "{" ++ mid ++ lit "}")
    = Ok (JDict [(lit "submit", JStr (lit "http://q.test/json-submit"))]).
Proof.
  apply (embedded_json_shape _ (Scenario.scripted Scenario.three_steps)
           Scenario.json_target_page).
  vm_compute. reflexivity.
Defined.

End ShapeFacts.

(* ================================================================== *)
(** * More runs of the chain on concrete pages *)

Module MoreRuns.
Import Py Re Codec Num Quiz Scenario Cases Ref Shape ChainFacts ChainMore.

(** The run of [three_steps] and what its result says. *)
Lemma chain_result_reports_the_run_witness :
  exists res st',
    solve_quiz_chain (scripted three_steps) me secret budget 5 first_url three_steps
    = Some (Ok res, st') /\
    r_steps res = 3 /\
    r_steps res = successes (trace st') /\
    1 <= r_steps res /\
    exists tr su body resp data,
      trace st' = tr ++ [EvPost su body (Ok resp)] /\
      is_2xx (status_code resp) = true /\
      resp_json resp = Ok data /\
      truthy (next_url_of data) = false /\
      r_last_submit_status res = Some (status_code resp) /\
      r_last_url res = p_url body.
Proof.
  do 2 eexists. split; [lazy; reflexivity|]. split; [reflexivity|].
  apply (chain_result_reports_the_run script (scripted three_steps) me secret budget 5
           first_url three_steps).
  lazy; reflexivity.
Defined.

Lemma submissions_report_the_fetched_page_witness :
  exists r st',
    solve_quiz_chain (scripted three_steps) me secret budget 5 first_url three_steps
    = Some (r, st') /\
    posts (trace st') = 3 /\
    posts_report me secret None (trace st').
Proof.
  do 2 eexists. split; [lazy; reflexivity|]. split; [reflexivity|].
  eapply (submissions_report_the_fetched_page script (scripted three_steps) me secret
            budget 5 first_url three_steps).
  lazy; reflexivity.
Defined.

(** A server error on the first submission. *)
Lemma failed_submission_ends_the_run_witness :
  exists st',
    loop (scripted refused) me secret budget 5 (initial first_url refused)
    = Some (Raise (RuntimeError
                     (lit "Submit failed: Server error '500 Internal Server Error'")), st') /\
    steps st' = 0 /\ posts (trace st') = 1.
Proof.
  eexists. split; [lazy; reflexivity|]. split; [|reflexivity].
  eapply (fun H1 H2 H3 =>
            proj1 (failed_submission_ends_the_run script (scripted refused) me secret
                     budget (initial first_url refused) _ _
                     [EvTime 0%float; EvFetch (JStr first_url)]
                     (JStr (lit "http://q.test/submit"))
                     {| p_email := me; p_secret := secret; p_url := JStr first_url;
                        p_answer := NInt 3 |}
                     server_error H1 H2 H3)).
  - lazy; reflexivity.
  - lazy; reflexivity.
  - reflexivity.
Defined.

Lemma row_count_is_answered_first_witness :
  exists rr,
    trace (snd (iteration (scripted rows_and_csv) me secret budget
                          (initial first_url rows_and_csv))) =
    trace (initial first_url rows_and_csv) ++
    [EvTime 0%float; EvFetch (JStr first_url);
     EvPost (JStr (lit "http://q.test/submit"))
            (body_of me secret (initial first_url rows_and_csv) (NInt 2)) rr].
Proof.
  eapply (row_count_is_answered_first script (scripted rows_and_csv) me secret budget
            (initial first_url rows_and_csv) 0%float _ rows_and_csv_page _
            rows_and_csv_page).
  - unfold reads. repeat split; lazy; reflexivity.
  - vm_compute; reflexivity.
  - vm_compute; reflexivity.
  - lazy; reflexivity.
  - lazy; reflexivity.
  - lazy; reflexivity.
Defined.

Lemma pdf_task_without_link_witness :
  exists st',
    loop (scripted pdf_no_link) me secret budget 5 (initial first_url pdf_no_link)
    = Some (Raise (RuntimeError (lit "No PDF link found for the task.")), st') /\
    trace st' = [EvTime 0%float; EvFetch (JStr first_url)].
Proof.
  eexists.
  assert (H := pdf_task_without_link script (scripted pdf_no_link) me secret budget
                 (initial first_url pdf_no_link) 0%float).
  edestruct H as (_ & Hl & Ht).
  - unfold reads. repeat split; lazy; reflexivity.
  - vm_compute; reflexivity.
  - lazy; reflexivity.
  - lazy; reflexivity.
  - apply Nat.leb_le. vm_compute; reflexivity.
  - lazy; reflexivity.
  - split; [apply (Hl 4) | exact Ht].
Defined.

Lemma pdf_page_number_too_long_witness :
  exists msg st',
    loop (scripted pdf_long_number) me secret budget 5 (initial first_url pdf_long_number)
    = Some (Raise (ValueError msg), st') /\
    firstn 37 msg = lit "Exceeds the limit (4300 digits) for i" /\
    trace st' = [EvTime 0%float; EvFetch (JStr first_url)].
Proof.
  do 2 eexists.
  assert (H := pdf_page_number_too_long script (scripted pdf_long_number) me secret budget
                 (initial first_url pdf_long_number) 0%float).
  edestruct H as (_ & Hl & Ht).
  - unfold reads. repeat split; vm_compute; reflexivity.
  - vm_compute; reflexivity.
  - vm_compute; reflexivity.
  - vm_compute; reflexivity.
  - apply Nat.ltb_lt. vm_compute; reflexivity.
  - split; [apply (Hl 4)|]. split; [reflexivity | exact Ht].
Defined.


Lemma data_file_sum_is_submitted_witness :
  exists rr,
    trace (snd (iteration (scripted (csv_world value_csv)) me secret budget
                          (initial first_url (csv_world value_csv)))) =
    trace (initial first_url (csv_world value_csv)) ++
    [EvTime 0%float; EvFetch (JStr first_url); EvGet (lit "http://q.test/data.csv");
     EvPost (JStr (lit "http://q.test/submit"))
            (body_of me secret (initial first_url (csv_world value_csv)) (NInt 30)) rr].
Proof.
  eapply (data_file_sum_is_submitted script (scripted (csv_world value_csv)) me secret
            budget (initial first_url (csv_world value_csv)) 0%float).
  - unfold reads. repeat split; lazy; reflexivity.
  - vm_compute; reflexivity.
  - lazy; reflexivity.
  - lazy; reflexivity.
  - lazy; reflexivity.
  - lazy; reflexivity.
  - lazy; reflexivity.
  - lazy; reflexivity.
  - vm_compute; reflexivity.
  - lazy; reflexivity.
  - vm_compute; reflexivity.
  - lazy; reflexivity.
Defined.

(** The turns of a run that the deadline ends after one step. *)
Lemma run_is_a_sequence_of_turns_witness :
  exists r st',
    loop (scripted late) me secret budget 5 (initial first_url late) = Some (r, st') /\
    length (trace st') = 4 /\
    exists turns,
      turns <> [] /\ Forall turn_record turns /\
      trace st' = trace (initial first_url late) ++ concat turns.
Proof.
  do 2 eexists. split; [lazy; reflexivity|]. split; [reflexivity|].
  eapply (run_is_a_sequence_of_turns script (scripted late) me secret budget 5).
  lazy; reflexivity.
Defined.

End MoreRuns.
